(** * print.py: puzzle descriptors to paginated PostScript

    A shallow embedding of [print.py] from Simon Tatham's Puzzle
    Collection (Python 2), and the properties of its descriptor decoders,
    fragment renderers and page compositor.

    Conventions of the embedding:
    - Python [int]s are [Z]; [/] and [%] on them are floor division and
      modulo ([Z.div], [Z.modulo]), with [ZeroDivisionError] written out.
    - Python floats are exact rationals [Q]; a value handed to a [%g]
      conversion is kept as the number itself, next to the format string
      it is substituted into.
    - [ret.s], the growing PostScript string, is the list of its lines.
    - An uncaught exception is an [outcome]; a [while] loop whose body can
      leave the state unchanged is iterated with fuel. *)

From Stdlib Require Import ZArith QArith List String Ascii Bool Lia Lqa.
Import ListNotations.

Open Scope string_scope.
Open Scope Z_scope.
Open Scope list_scope.

(** ** Python values and exceptions *)

Inductive exn : Set :=
| ValueError
| AssertionError
| ZeroDivisionError
| TypeError.

Inductive outcome (A : Type) : Type :=
| Ok (a : A)
| Raise (e : exn)
| OutOfFuel.

Arguments Ok {A} a.
Arguments Raise {A} e.
Arguments OutOfFuel {A}.

Definition bind {A B : Type} (m : outcome A) (k : A -> outcome B) : outcome B :=
  match m with
  | Ok a => k a
  | Raise e => Raise e
  | OutOfFuel => OutOfFuel
  end.

Notation "x <- m ;; k" := (bind m (fun x => k))
  (at level 61, m at next level, right associativity).
Notation "' p <- m ;; k" := (bind m (fun p => k))
  (at level 61, p pattern, m at next level, right associativity).

(** [assert c] *)
Definition py_assert (c : bool) : outcome unit :=
  if c then Ok tt else Raise AssertionError.

Definition len {A : Type} (l : list A) : Z := Z.of_nat (List.length l).

(** [[v] * n]: a negative count gives the empty list. *)
Definition list_mul {A : Type} (v : A) (n : Z) : list A := repeat v (Z.to_nat n).

(** Python slice bounds: a negative index counts from the end, and both
    are clamped to the list. *)
Definition slice_index (n i : Z) : nat :=
  Z.to_nat (if i <? 0 then Z.max (i + n) 0 else Z.min i n).

(** [l[i:]] and [l[:i]] *)
Definition slice_from {A : Type} (l : list A) (i : Z) : list A :=
  skipn (slice_index (len l) i) l.
Definition slice_to {A : Type} (l : list A) (i : Z) : list A :=
  firstn (slice_index (len l) i) l.

(** [l[i]] for an index the caller keeps in range, [d] otherwise. *)
Definition index {A : Type} (l : list A) (i : Z) (d : A) : A :=
  if i <? 0 then d else nth (Z.to_nat i) l d.

(** [l[i] = v] for [0 <= i < len(l)]. *)
Fixpoint set_nth {A : Type} (l : list A) (n : nat) (v : A) : list A :=
  match l, n with
  | [], _ => []
  | _ :: t, O => v :: t
  | a :: t, S n' => a :: set_nth t n' v
  end.
Definition set_index {A : Type} (l : list A) (i : Z) (v : A) : list A :=
  if i <? 0 then l else set_nth l (Z.to_nat i) v.

(** [xrange(a, b)] *)
Definition xrange (a b : Z) : list Z :=
  map (fun i => a + Z.of_nat i) (seq 0 (Z.to_nat (b - a))).

(** [xrange(a, b, s)] for a step that is not zero: [ceil((b-a)/s)]
    elements when that is positive. *)
Definition xrange3 (a b s : Z) : list Z :=
  let n := if 0 <? s then (b - a + s - 1) / s else (a - b - s - 1) / (- s) in
  map (fun i => a + s * Z.of_nat i) (seq 0 (Z.to_nat n)).

(** [xrange(a, b, s)]: a zero step is a [ValueError]. *)
Definition xrange_step (a b s : Z) : outcome (list Z) :=
  if s =? 0 then Raise ValueError else Ok (xrange3 a b s).

(** [reduce(f, l)] without an initial value: a [TypeError] on []. *)
Definition reduce1 {A : Type} (f : A -> A -> A) (l : list A) : outcome A :=
  match l with
  | [] => Raise TypeError
  | a :: t => Ok (fold_left f t a)
  end.

(** A loop body that may raise, run over a list, appending what it prints. *)
Fixpoint flat_mapM {A B : Type} (f : A -> outcome (list B)) (l : list A)
  : outcome (list B) :=
  match l with
  | [] => Ok []
  | a :: t =>
      b <- f a ;;
      bs <- flat_mapM f t ;;
      Ok (b ++ bs)
  end.

(** [chr(n)] *)
Definition chr (n : Z) : outcome ascii :=
  if (0 <=? n) && (n <? 256) then Ok (ascii_of_N (Z.to_N n)) else Raise ValueError.

(** ** The [string] module *)

Definition lowercase : string := "abcdefghijklmnopqrstuvwxyz".
Definition digits : string := "0123456789".
Definition whitespace : list ascii :=
  [" "%char; "009"%char; "010"%char; "011"%char; "012"%char; "013"%char].

Definition ord (c : ascii) : Z := Z.of_N (N_of_ascii c).

(** [c in s] for a one-character [c] *)
Fixpoint in_str (c : ascii) (s : string) : bool :=
  match s with
  | EmptyString => false
  | String d s' => Ascii.eqb c d || in_str c s'
  end.

(** [string.split(s, sep)] for a one-character separator *)
Fixpoint split (s : string) (sep : ascii) : list string :=
  match s with
  | EmptyString => [EmptyString]
  | String c s' =>
      if Ascii.eqb c sep then EmptyString :: split s' sep
      else match split s' sep with
           | [] => [String c EmptyString]
           | f :: fs => String c f :: fs
           end
  end.

Definition is_space (c : ascii) : bool :=
  existsb (Ascii.eqb c) whitespace.

Fixpoint lstrip (s : string) : string :=
  match s with
  | String c s' => if is_space c then lstrip s' else s
  | EmptyString => EmptyString
  end.

Fixpoint rstrip (s : string) : string :=
  match s with
  | EmptyString => EmptyString
  | String c s' =>
      match rstrip s' with
      | EmptyString => if is_space c then EmptyString else String c EmptyString
      | r => String c r
      end
  end.

Definition digit_value (c : ascii) : option Z :=
  if in_str c digits then Some (ord c - ord "0"%char) else None.

(** The value of a non-empty run of decimal digits, most significant first. *)
Fixpoint digits_value (acc : Z) (s : string) : option Z :=
  match s with
  | EmptyString => Some acc
  | String c s' =>
      match digit_value c with
      | Some d => digits_value (10 * acc + d) s'
      | None => None
      end
  end.

Definition unsigned_value (s : string) : option Z :=
  match s with
  | EmptyString => None
  | _ => digits_value 0 s
  end.

(** [string.atoi(s)], that is [int(s, 10)]: surrounding whitespace is
    dropped, one sign is allowed, and at least one digit must follow;
    [None] stands for the [ValueError]. *)
Definition atoi (s : string) : option Z :=
  match rstrip (lstrip s) with
  | String "-"%char d => option_map Z.opp (unsigned_value d)
  | String "+"%char d => unsigned_value d
  | t => unsigned_value t
  end.

(** [string.atoi(c, 16)] for a one-character string *)
Definition atoi16 (c : ascii) : option Z :=
  if in_str c digits then Some (ord c - ord "0"%char)
  else if in_str c "abcdef" then Some (ord c - ord "a"%char + 10)
  else if in_str c "ABCDEF" then Some (ord c - ord "A"%char + 10)
  else None.

Definition raise_none {A : Type} (o : option A) (e : exn) : outcome A :=
  match o with
  | Some a => Ok a
  | None => Raise e
  end.

(** [a, b = l]: unpacking anything but two values is a [ValueError]. *)
Definition unpack2 {A : Type} (l : list A) : outcome (A * A) :=
  match l with
  | [a; b] => Ok (a, b)
  | _ => Raise ValueError
  end.

(** [map(string.atoi, l)]: the first bad field raises. *)
Fixpoint map_atoi (l : list string) : outcome (list Z) :=
  match l with
  | [] => Ok []
  | s :: l' =>
      n <- raise_none (atoi s) ValueError ;;
      ns <- map_atoi l' ;;
      Ok (n :: ns)
  end.

(** [params, seed = string.split(s, ":")] *)
Definition split_id (s : string) : outcome (string * string) :=
  unpack2 (split s ":"%char).

(** [w, h = map(string.atoi, string.split(params, "x"))] *)
Definition parse_dims (params : string) : outcome (Z * Z) :=
  ns <- map_atoi (split params "x"%char) ;;
  unpack2 ns.

(** ** PostScript output

    [psprint(h, a1, ..., an)] appends the items joined by single spaces
    and a newline.  An item is a literal, a format string with the values
    substituted into it, or [str(n)] of an integer. *)

Inductive arg : Type :=
| G (q : Q)        (* %g *)
| D (z : Z)        (* %d *)
| St (s : string). (* %s *)

Inductive item : Type :=
| Lit (s : string)
| Fmt (f : string) (a : list arg)
| Str (z : Z).

Definition psline : Type := list item.

Definition ZQ (z : Z) : Q := inject_Z z.

Definition coords_t : Type := (Z * Z * Z * Z)%type.

(** What a formatter returns: [(ret.coords, ret.s)]. *)
Definition rendered : Type := (coords_t * list psline)%type.

(** The three path lines every grid family shares. *)
Definition vline (x len : Q) : psline :=
  [Fmt "%g 0 moveto 0 %g rlineto" [G x; G len]].
Definition hline (y len : Q) : psline :=
  [Fmt "0 %g moveto %g 0 rlineto" [G y; G len]].
Definition outline (a b c : Q) : psline :=
  [Fmt "0 0 moveto 0 %g rlineto %g 0 rlineto 0 %g rlineto" [G a; G b; G c]].

(** ** Rectangles *)

(** The inner [while] of the number branch: the longest prefix of
    digits, and what follows it. *)
Fixpoint take_digits (seed : string) : string * string :=
  match seed with
  | EmptyString => (EmptyString, EmptyString)
  | String c rest =>
      if in_str c digits then
        let (ns, seed') := take_digits rest in (String c ns, seed')
      else (EmptyString, seed)
  end.

(** The seed loop of [rect_format] and [solo_format].  A character that
    is neither in ['_'+string.lowercase] nor a digit takes neither branch
    of the [if]/[elif]: the body leaves [seed] and [grid] as they are. *)
Fixpoint rect_seed_loop (fuel : nat) (seed : string) (grid : list Z)
  : outcome (list Z) :=
  match fuel with
  | O => OutOfFuel
  | S fuel' =>
      match seed with
      | EmptyString => Ok grid
      | String c rest =>
          if in_str c (String "_" lowercase) then
            let grid' :=
              if in_str c lowercase
              then grid ++ list_mul (-1) (ord c - ord "a"%char + 1)
              else grid in
            rect_seed_loop fuel' rest grid'
          else if in_str c digits then
            let (ns, seed') := take_digits seed in
            n <- raise_none (atoi ns) ValueError ;;
            rect_seed_loop fuel' seed' (grid ++ [n])
          else rect_seed_loop fuel' seed grid
      end
  end.

Definition rect_decode (fuel : nat) (s : string) : outcome (Z * Z * list Z) :=
  '(params, seed) <- split_id s ;;
  '(w, h) <- parse_dims params ;;
  grid <- rect_seed_loop fuel seed [] ;;
  _ <- py_assert (w * h =? len grid) ;;
  Ok (w, h, grid).

Definition rect_draw (w h : Z) (grid : list Z) : rendered :=
  let textht := 7 in
  let gridpitch := 14 in
  let pw := gridpitch * w in
  let ph := gridpitch * h in
  let coords := (pw / 2, pw / 2, ph / 2, ph / 2) in
  (coords,
   [[Fmt "%g %g translate" [G (ZQ (- (pw / 2))); G (ZQ (- (ph / 2)))]]]
   ++ [[Lit "newpath 0.01 setlinewidth"]]
   ++ map (fun x => vline (ZQ (x * gridpitch)) (ZQ (h * gridpitch))) (xrange 1 w)
   ++ map (fun y => hline (ZQ (y * gridpitch)) (ZQ (w * gridpitch))) (xrange 1 h)
   ++ [[Lit "stroke"]]
   ++ [[Lit "newpath 1.5 setlinewidth"]]
   ++ [outline (ZQ (h * gridpitch)) (ZQ (w * gridpitch)) (ZQ (- h * gridpitch))]
   ++ [[Lit "closepath stroke"]]
   ++ [[Fmt "/Helvetica findfont %g scalefont setfont" [G (ZQ textht)]]]
   ++ flat_map (fun y =>
        flat_map (fun x =>
          let n := index grid (y * w + x) 0 in
          if 0 <? n then
            [[Fmt "%g %g (%d) ctshow"
                [G ((ZQ x + 0.5) * ZQ gridpitch);
                 G ((ZQ h - ZQ y - 0.5) * ZQ gridpitch); D n]]]
          else [])
          (xrange 0 w))
        (xrange 0 h)).

Definition rect_format (fuel : nat) (s : string) : outcome rendered :=
  '(w, h, grid) <- rect_decode fuel s ;;
  Ok (rect_draw w h grid).

(** ** Net *)

(** The inner [while] of [net_format]: the [h]/[v] trailers of the cell
    about to be appended, [glen] being [len(grid)]. *)
Fixpoint net_barriers (w glen : Z) (seed : string) (hb vb : list (Z * Z))
  : outcome (string * list (Z * Z) * list (Z * Z)) :=
  match seed with
  | EmptyString => Ok (seed, hb, vb)
  | String c rest =>
      if in_str c "hv" then
        if w =? 0 then Raise ZeroDivisionError
        else
          let x := glen mod w in
          let y := glen / w in
          if Ascii.eqb c "h"
          then net_barriers w glen rest (hb ++ [(x, y + 1)]) vb
          else net_barriers w glen rest hb (vb ++ [(x + 1, y)])
      else Ok (seed, hb, vb)
  end.

Fixpoint net_seed_loop (fuel : nat) (w : Z) (seed : string)
    (grid : list Z) (hb vb : list (Z * Z))
  : outcome (list Z * list (Z * Z) * list (Z * Z)) :=
  match fuel with
  | O => OutOfFuel
  | S fuel' =>
      match seed with
      | EmptyString => Ok (grid, hb, vb)
      | String c rest =>
          n <- raise_none (atoi16 c) ValueError ;;
          '(seed', hb', vb') <- net_barriers w (len grid) rest hb vb ;;
          net_seed_loop fuel' w seed' (grid ++ [n]) hb' vb'
      end
  end.

(** [params[-1:]] and [params[:-1]] *)
Fixpoint last_char (s : string) : option ascii :=
  match s with
  | EmptyString => None
  | String c EmptyString => Some c
  | String _ s' => last_char s'
  end.
Fixpoint drop_last (s : string) : string :=
  match s with
  | EmptyString => EmptyString
  | String _ EmptyString => EmptyString
  | String c s' => String c (drop_last s')
  end.

Record net_grid : Type := NetGrid {
  net_wrapping : bool;
  net_w : Z;
  net_h : Z;
  net_cells : list Z;
  net_hbarriers : list (Z * Z);
  net_vbarriers : list (Z * Z)
}.

(** [params[-1:] == "w"] *)
Definition ends_in_w (params : string) : bool :=
  match last_char params with
  | Some c => Ascii.eqb c "w"
  | None => false
  end.

Definition net_decode (fuel : nat) (s : string) : outcome net_grid :=
  '(params, seed) <- split_id s ;;
  let wrapping := ends_in_w params in
  let params := if wrapping then drop_last params else params in
  '(w, h) <- parse_dims params ;;
  '(grid, hb, vb) <- net_seed_loop fuel w seed [] [] [] ;;
  _ <- py_assert (w * h =? len grid) ;;
  Ok (NetGrid wrapping w h grid hb vb).

(** "Rotate to canonical form." *)
Definition canonical_form (v : Z) : Z :=
  if existsb (Z.eqb v) [1; 2; 4; 8] then 1
  else if existsb (Z.eqb v) [5; 10] then 5
  else if existsb (Z.eqb v) [3; 6; 9; 12] then 9
  else if existsb (Z.eqb v) [7; 11; 13; 14] then 13
  else v.

(** [v & z] as a condition *)
Definition has_bit (v z : Z) : bool := negb (Z.land v z =? 0).

Definition net_square (squaresize : Q) : list psline :=
  [[Fmt "newpath %g %g moveto 0 -%g rlineto"
      [G squaresize; G squaresize; G (squaresize * 2)]];
   [Fmt "-%g 0 rlineto 0 %g rlineto closepath fill"
      [G (squaresize * 2); G (squaresize * 2)]]].

Definition net_symbol (w h : Z) (grid : list Z) (i : Z) : list psline :=
  let gridpitch := 24 in
  let scale := 0.25%Q in
  let bigoffset := 0.25%Q in
  let smalloffset := 0.17%Q in
  let squaresize := 0.25%Q in
  let x := i mod w in
  let y := i / w in
  let v := canonical_form (index grid i 0) in
  let hoffset := if has_bit v 4 then bigoffset else smalloffset in
  let voffset := if has_bit v 2 then bigoffset else smalloffset in
  [[Lit "gsave"]]
  ++ [[Fmt "%g %g translate"
         [G ((ZQ x + hoffset) * ZQ gridpitch);
          G ((ZQ h - ZQ y - voffset) * ZQ gridpitch)]]]
  ++ [[Fmt "%g dup scale" [G (ZQ gridpitch * scale / 2)]]]
  ++ [[Lit "newpath 0.07 setlinewidth"]]
  ++ flat_map (fun '(dx, dy, z) =>
        if has_bit v z
        then [[Fmt "0 0 moveto %d %d lineto" [D dx; D dy]]]
        else [])
       [(1, 0, 1); (0, 1, 2); (-1, 0, 4); (0, -1, 8)]
  ++ [[Lit "stroke"]]
  ++ (if v =? 1 then net_square squaresize else [])
  ++ [[Lit "grestore"]]
  ++ (if v =? 1 then
        [[Lit "gsave"]]
        ++ [[Fmt "%g %g translate"
               [G ((ZQ x + 0.5) * ZQ gridpitch);
                G ((ZQ h - ZQ y - 0.5) * ZQ gridpitch)]]]
        ++ [[Fmt "%g dup scale" [G (ZQ gridpitch / 2)]]]
        ++ net_square squaresize
        ++ [[Lit "grestore"]]
      else []).

Definition net_draw (g : net_grid) : rendered :=
  let w := net_w g in
  let h := net_h g in
  let grid := net_cells g in
  let gridpitch := 24 in
  let pw := gridpitch * w in
  let ph := gridpitch * h in
  let coords := (pw / 2, pw / 2, ph / 2, ph / 2) in
  (coords,
   [[Fmt "%g %g translate" [G (ZQ (- (pw / 2))); G (ZQ (- (ph / 2)))]]]
   ++ [[Lit "newpath 0.02 setlinewidth"]]
   ++ map (fun x => vline (ZQ (x * gridpitch)) (ZQ (h * gridpitch))) (xrange 1 w)
   ++ map (fun y => hline (ZQ (y * gridpitch)) (ZQ (w * gridpitch))) (xrange 1 h)
   ++ [[Lit "stroke"]]
   ++ [[Lit "newpath"]]
   ++ (if negb (net_wrapping g) then [[Lit "2 setlinewidth"]] else [])
   ++ [outline (ZQ (h * gridpitch)) (ZQ (w * gridpitch)) (ZQ (- h * gridpitch))]
   ++ [[Lit "closepath stroke"]]
   ++ [[Lit "newpath 2 setlinewidth 1 setlinecap"]]
   ++ map (fun '(x, y) =>
        [Fmt "%g %g moveto %g 0 rlineto"
           [G (ZQ (x * gridpitch)); G (ZQ ((h - y) * gridpitch)); G (ZQ gridpitch)]])
        (net_hbarriers g)
   ++ map (fun '(x, y) =>
        [Fmt "%g %g moveto 0 -%g rlineto"
           [G (ZQ (x * gridpitch)); G (ZQ ((h - y) * gridpitch)); G (ZQ gridpitch)]])
        (net_vbarriers g)
   ++ [[Lit "stroke"]]
   ++ flat_map (net_symbol w h grid) (xrange 0 (len grid))).

Definition net_format (fuel : nat) (s : string) : outcome rendered :=
  g <- net_decode fuel s ;;
  Ok (net_draw g).

(** ** Pattern *)

Definition pattern_decode (s : string) : outcome (Z * Z * list (list string)) :=
  '(params, seed) <- split_id s ;;
  '(w, h) <- parse_dims params ;;
  let rowdata := map (fun s => split s "."%char) (split seed "/"%char) in
  _ <- py_assert (len rowdata =? w + h) ;;
  Ok (w, h, rowdata).

(** The loop over [j] from [len(ns)-1] down to [0], on the reversed
    clue list, with the running [xo], [yo]. *)
Fixpoint pattern_clues (column : bool) (gridpitch : Q) (rev_ns : list string)
    (xo yo : Q) : list psline :=
  match rev_ns with
  | [] => []
  | n :: rest =>
      [Fmt "%g %g (%s) ctshow" [G xo; G yo; St n]]
      :: (if column
          then pattern_clues column gridpitch rest xo (yo + gridpitch)
          else pattern_clues column gridpitch rest (xo - gridpitch) yo)
  end.

Definition pattern_draw (w h : Z) (rowdata : list (list string))
  : outcome rendered :=
  let textht := 7 in
  let gridpitch := 14 in
  let gutter := 8 in
  xborder <- reduce1 Z.max (map len (slice_from rowdata w)) ;;
  yborder <- reduce1 Z.max (map len (slice_to rowdata w)) ;;
  let coords := (xborder * gridpitch + gutter, w * gridpitch,
                 yborder * gridpitch + gutter, h * gridpitch) in
  Ok (coords,
   [[Lit "newpath 0.1 setlinewidth"]]
   ++ flat_map (fun x =>
        if negb (x mod 5 =? 0)
        then [vline (ZQ (x * gridpitch)) (ZQ (- h * gridpitch))] else [])
        (xrange 1 w)
   ++ flat_map (fun y =>
        if negb (y mod 5 =? 0)
        then [hline (ZQ (- y * gridpitch)) (ZQ (w * gridpitch))] else [])
        (xrange 1 h)
   ++ [[Lit "stroke"]]
   ++ [[Lit "newpath 0.75 setlinewidth"]]
   ++ map (fun x => vline (ZQ (x * gridpitch)) (ZQ (- h * gridpitch))) (xrange3 5 w 5)
   ++ map (fun y => hline (ZQ (- y * gridpitch)) (ZQ (w * gridpitch))) (xrange3 5 h 5)
   ++ [[Lit "stroke"]]
   ++ [[Lit "newpath 1.5 setlinewidth"]]
   ++ [outline (ZQ (- h * gridpitch)) (ZQ (w * gridpitch)) (ZQ (h * gridpitch))]
   ++ [[Lit "closepath stroke"]]
   ++ [[Fmt "/Helvetica findfont %g scalefont setfont" [G (ZQ textht)]]]
   ++ flat_map (fun i =>
        let ns := index rowdata i [] in
        let column := i <? w in
        let xo := if column then (ZQ i + 0.5) * ZQ gridpitch
                  else - (ZQ gutter + 0.5 * ZQ gridpitch) in
        let yo := if column then ZQ gutter + 0.5 * ZQ gridpitch
                  else (ZQ (i - w) + 0.5) * - ZQ gridpitch in
        pattern_clues column (ZQ gridpitch) (rev ns) xo yo)
        (xrange 0 (w + h)))%Q.

Definition pattern_format (fuel : nat) (s : string) : outcome rendered :=
  '(w, h, rowdata) <- pattern_decode s ;;
  pattern_draw w h rowdata.

(** ** Solo *)

Definition solo_decode (fuel : nat) (s : string) : outcome (Z * Z * list Z) :=
  '(params, seed) <- split_id s ;;
  '(c, r) <- parse_dims params ;;
  let cr := c * r in
  grid <- rect_seed_loop fuel seed [] ;;
  _ <- py_assert (cr * cr =? len grid) ;;
  Ok (c, r, grid).

Definition solo_glyph (n : Z) : outcome string :=
  ch <- (if 9 <? n then chr (ord "a"%char + n - 10) else chr (ord "0"%char + n)) ;;
  Ok (String ch EmptyString).

Definition solo_draw (c r : Z) (grid : list Z) : outcome rendered :=
  let cr := c * r in
  let textht := 9 in
  let gridpitch := 16 in
  let pw := gridpitch * cr in
  let ph := pw in
  let coords := (pw / 2, pw / 2, ph / 2, ph / 2) in
  xthick <- xrange_step r cr r ;;
  ythick <- xrange_step c cr c ;;
  numbers <- flat_mapM (fun y =>
      flat_mapM (fun x =>
        let n := index grid (y * cr + x) 0 in
        if 0 <? n then
          s <- solo_glyph n ;;
          Ok [[Fmt "%g %g (%s) ctshow"
                 [G ((ZQ x + 0.5) * ZQ gridpitch);
                  G ((ZQ cr - ZQ y - 0.5) * ZQ gridpitch); St s]]]
        else Ok [])
        (xrange 0 cr))
      (xrange 0 cr) ;;
  Ok (coords,
   [[Fmt "%g %g translate" [G (ZQ (- (pw / 2))); G (ZQ (- (ph / 2)))]]]
   ++ [[Lit "newpath 0.1 setlinewidth"]]
   ++ flat_map (fun x =>
        if negb (x mod r =? 0)
        then [vline (ZQ (x * gridpitch)) (ZQ (cr * gridpitch))] else [])
        (xrange 1 cr)
   ++ flat_map (fun y =>
        if negb (y mod c =? 0)
        then [hline (ZQ (y * gridpitch)) (ZQ (cr * gridpitch))] else [])
        (xrange 1 cr)
   ++ [[Lit "stroke"]]
   ++ [[Lit "newpath 1 setlinewidth"]]
   ++ map (fun x => vline (ZQ (x * gridpitch)) (ZQ (cr * gridpitch))) xthick
   ++ map (fun y => hline (ZQ (y * gridpitch)) (ZQ (cr * gridpitch))) ythick
   ++ [[Lit "stroke"]]
   ++ [[Lit "newpath 1.5 setlinewidth"]]
   ++ [outline (ZQ (cr * gridpitch)) (ZQ (cr * gridpitch)) (ZQ (- cr * gridpitch))]
   ++ [[Lit "closepath stroke"]]
   ++ [[Fmt "/Helvetica findfont %g scalefont setfont" [G (ZQ textht)]]]
   ++ numbers).

Definition solo_format (fuel : nat) (s : string) : outcome rendered :=
  '(c, r, grid) <- solo_decode fuel s ;;
  solo_draw c r grid.

(** ** Dominosa *)

Fixpoint dominosa_seed_loop (fuel : nat) (seed : string) (grid : list Z)
  : outcome (list Z) :=
  match fuel with
  | O => OutOfFuel
  | S fuel' =>
      match seed with
      | EmptyString => Ok grid
      | String c rest =>
          if Ascii.eqb c "["
          then
            '(d, seed') <- unpack2 (split rest "]"%char) ;;
            n <- raise_none (atoi d) ValueError ;;
            dominosa_seed_loop fuel' seed' (grid ++ [n])
          else
            _ <- py_assert (in_str c digits) ;;
            n <- raise_none (atoi (String c EmptyString)) ValueError ;;
            dominosa_seed_loop fuel' rest (grid ++ [n])
      end
  end.

Definition dominosa_decode (fuel : nat) (s : string) : outcome (Z * Z * list Z) :=
  '(params, seed) <- split_id s ;;
  n <- raise_none (atoi params) ValueError ;;
  let w := n + 2 in
  let h := n + 1 in
  grid <- dominosa_seed_loop fuel seed [] ;;
  _ <- py_assert (w * h =? len grid) ;;
  Ok (w, h, grid).

Definition dominosa_draw (w h : Z) (grid : list Z) : rendered :=
  let textht := 9 in
  let gridpitch := 16 in
  let pw := gridpitch * w in
  let ph := gridpitch * h in
  let coords := (pw / 2, pw / 2, ph / 2, ph / 2) in
  (coords,
   [[Fmt "/Helvetica findfont %g scalefont setfont" [G (ZQ textht)]]]
   ++ [[Fmt "%g %g translate" [G (ZQ (- (pw / 2))); G (ZQ (- (ph / 2)))]]]
   ++ flat_map (fun y =>
        map (fun x =>
          [Fmt "%g %g (%d) ctshow"
             [G ((ZQ x + 0.5) * ZQ gridpitch);
              G ((ZQ h - ZQ y - 0.5) * ZQ gridpitch);
              D (index grid (y * w + x) 0)]])
          (xrange 0 w))
        (xrange 0 h)).

Definition dominosa_format (fuel : nat) (s : string) : outcome rendered :=
  '(w, h, grid) <- dominosa_decode fuel s ;;
  Ok (dominosa_draw w h grid).

(** ** Slant *)

Fixpoint slant_seed_loop (fuel : nat) (seed : string) (grid : list Z)
  : outcome (list Z) :=
  match fuel with
  | O => OutOfFuel
  | S fuel' =>
      match seed with
      | EmptyString => Ok grid
      | String c rest =>
          if in_str c lowercase then
            slant_seed_loop fuel' rest
              (grid ++ list_mul (-1) (ord c - ord "a"%char + 1))
          else if in_str c "01234" then
            n <- raise_none (atoi (String c EmptyString)) ValueError ;;
            slant_seed_loop fuel' rest (grid ++ [n])
          else slant_seed_loop fuel' seed grid
      end
  end.

Definition slant_decode (fuel : nat) (s : string) : outcome (Z * Z * list Z) :=
  '(params, seed) <- split_id s ;;
  '(w, h) <- parse_dims params ;;
  let W := w + 1 in
  let H := h + 1 in
  grid <- slant_seed_loop fuel seed [] ;;
  _ <- py_assert (W * H =? len grid) ;;
  Ok (w, h, grid).

Definition slant_draw (w h : Z) (grid : list Z) : rendered :=
  let W := w + 1 in
  let H := h + 1 in
  let textht := 7 in
  let gridpitch := 14 in
  let radius := (ZQ textht * 2 / 3)%Q in
  let pw := gridpitch * w in
  let ph := gridpitch * h in
  let coords := (pw / 2, pw / 2, ph / 2, ph / 2) in
  (coords,
   [[Fmt "%g %g translate" [G (ZQ (- (pw / 2))); G (ZQ (- (ph / 2)))]]]
   ++ [[Lit "newpath 1 setlinewidth"]]
   ++ [outline (ZQ (h * gridpitch)) (ZQ (w * gridpitch)) (ZQ (- h * gridpitch))]
   ++ [[Lit "closepath stroke"]]
   ++ [[Lit "newpath 0.01 setlinewidth"]]
   ++ map (fun x => vline (ZQ (x * gridpitch)) (ZQ (h * gridpitch))) (xrange 1 w)
   ++ map (fun y => hline (ZQ (y * gridpitch)) (ZQ (w * gridpitch))) (xrange 1 h)
   ++ [[Lit "stroke"]]
   ++ [[Fmt "/Helvetica findfont %g scalefont setfont" [G (ZQ textht)]]]
   ++ flat_map (fun y =>
        flat_map (fun x =>
          let n := index grid (y * W + x) 0 in
          if 0 <=? n then
            [[Fmt "newpath %g %g %g 0 360 arc"
                [G (ZQ (x * gridpitch)); G (ZQ ((h - y) * gridpitch)); G radius];
              Lit "gsave 1 setgray fill grestore stroke"];
             [Fmt "%g %g (%d) ctshow"
                [G (ZQ (x * gridpitch)); G (ZQ ((h - y) * gridpitch)); D n]]]
          else [])
          (xrange 0 W))
        (xrange 0 H)).

Definition slant_format (fuel : nat) (s : string) : outcome rendered :=
  '(w, h, grid) <- slant_decode fuel s ;;
  Ok (slant_draw w h grid).

(** ** Light Up *)

Fixpoint lightup_seed_loop (fuel : nat) (seed : string) (grid : list Z)
  : outcome (list Z) :=
  match fuel with
  | O => OutOfFuel
  | S fuel' =>
      match seed with
      | EmptyString => Ok grid
      | String c rest =>
          if in_str c lowercase then
            lightup_seed_loop fuel' rest
              (grid ++ list_mul (-2) (ord c - ord "a"%char + 1))
          else if Ascii.eqb c "B" then
            lightup_seed_loop fuel' rest (grid ++ [-1])
          else if in_str c "01234" then
            n <- raise_none (atoi (String c EmptyString)) ValueError ;;
            lightup_seed_loop fuel' rest (grid ++ [n])
          else lightup_seed_loop fuel' seed grid
      end
  end.

Definition lightup_decode (fuel : nat) (s : string) : outcome (Z * Z * list Z) :=
  '(params, seed) <- split_id s ;;
  '(w, h) <- parse_dims params ;;
  grid <- lightup_seed_loop fuel seed [] ;;
  _ <- py_assert (w * h =? len grid) ;;
  Ok (w, h, grid).

Definition lightup_draw (w h : Z) (grid : list Z) : rendered :=
  let textht := 10 in
  let gridpitch := 14 in
  let pw := gridpitch * w in
  let ph := gridpitch * h in
  let coords := (pw / 2, pw / 2, ph / 2, ph / 2) in
  (coords,
   [[Fmt "%g %g translate" [G (ZQ (- (pw / 2))); G (ZQ (- (ph / 2)))]]]
   ++ [[Lit "newpath 1 setlinewidth"]]
   ++ [outline (ZQ (h * gridpitch)) (ZQ (w * gridpitch)) (ZQ (- h * gridpitch))]
   ++ [[Lit "closepath stroke"]]
   ++ [[Lit "newpath 0.02 setlinewidth"]]
   ++ map (fun x => vline (ZQ (x * gridpitch)) (ZQ (h * gridpitch))) (xrange 1 w)
   ++ map (fun y => hline (ZQ (y * gridpitch)) (ZQ (w * gridpitch))) (xrange 1 h)
   ++ [[Lit "stroke"]]
   ++ [[Fmt "/Helvetica-Bold findfont %g scalefont setfont" [G (ZQ textht)]]]
   ++ flat_map (fun y =>
        flat_map (fun x =>
          let n := index grid (y * w + x) 0 in
          if -1 <=? n then
            [[Fmt "newpath %g %g moveto 0 %g rlineto %g 0 rlineto 0 %g rlineto closepath fill"
                [G (ZQ (x * gridpitch)); G (ZQ ((h - 1 - y) * gridpitch));
                 G (ZQ gridpitch); G (ZQ gridpitch); G (ZQ (- gridpitch))]]]
            ++ (if 0 <=? n then
                  [[Fmt "gsave 1 setgray %g %g (%d) ctshow grestore"
                      [G ((ZQ x + 0.5) * ZQ gridpitch);
                       G ((ZQ h - ZQ y - 0.5) * ZQ gridpitch); D n]]]
                else [])
          else [])
          (xrange 0 w))
        (xrange 0 h)).

Definition lightup_format (fuel : nat) (s : string) : outcome rendered :=
  '(w, h, grid) <- lightup_decode fuel s ;;
  Ok (lightup_draw w h grid).

(** ** The table of formatters *)

Definition formatter : Type := nat -> string -> outcome rendered.

Definition formatters (name : string) : option formatter :=
  if String.eqb name "net" then Some net_format
  else if String.eqb name "rect" then Some rect_format
  else if String.eqb name "rectangles" then Some rect_format
  else if String.eqb name "pattern" then Some pattern_format
  else if String.eqb name "solo" then Some solo_format
  else if String.eqb name "dominosa" then Some dominosa_format
  else if String.eqb name "slant" then Some slant_format
  else if String.eqb name "lightup" then Some lightup_format
  else None.

(** ** The main program *)

Inductive exit_status : Set :=
| Exit (code : Z)          (* [sys.exit(code)]; falling off the end: 0;
                              an uncaught exception: 1 *)
| Hang.                    (* a formatter that did not return *)

(** What reaches the error stream: a line the program writes itself, or
    the traceback the interpreter prints for an uncaught exception.  Of
    a traceback only the exception is kept: the stack frames and the
    message after the exception's name are left out. *)
Inductive err_line : Type :=
| Message (l : psline)
| Uncaught (e : exn).

Record run : Type := Run {
  stdout : list psline;
  stderr : list err_line;
  status : exit_status
}.

(** An uncaught exception ends the run: what was printed so far stays,
    the traceback goes to the error stream, and the exit status is 1. *)
Definition uncaught (out : list psline) (e : exn) : run :=
  Run out [Uncaught e] (Exit 1).

Definition newline : ascii := "010"%char.

(** [sys.stdin.readline()]: the next line with its newline, or what is
    left of the stream, or [EmptyString] at its end; and the stream after it. *)
Fixpoint readline (stdin : string) : string * string :=
  match stdin with
  | EmptyString => (EmptyString, EmptyString)
  | String c rest =>
      if Ascii.eqb c newline then (String c EmptyString, rest)
      else let (l, rest') := readline rest in (String c l, rest')
  end.

(** [if s[-1:] == "\n": s = s[:-1]] *)
Definition chomp (s : string) : string :=
  match last_char s with
  | Some c => if Ascii.eqb c newline then drop_last s else s
  | None => s
  end.

(** The [while 1] loop that fills [ids]. *)
Fixpoint read_loop (fuel : nat) (stdin : string) (ids : list string)
  : outcome (list string) :=
  match fuel with
  | O => OutOfFuel
  | S fuel' =>
      let (s, rest) := readline stdin in
      match s with
      | EmptyString => Ok ids
      | _ => read_loop fuel' rest (ids ++ [chomp s])
      end
  end.

(** Each turn of the loop consumes at least one character of the stream. *)
Definition read_ids (stdin : string) : outcome (list string) :=
  read_loop (S (String.length stdin)) stdin [].

Definition preamble (pages : Z) : list psline :=
  [ [Lit "%!PS-Adobe-3.0"];
    [Lit "%%Creator: print.py from Simon Tatham's Puzzle Collection"];
    [Lit "%%DocumentData: Clean7Bit"];
    [Lit "%%LanguageLevel: 1"];
    [Lit "%%Pages:"; Str pages];
    [Lit "%%DocumentNeededResources:"];
    [Lit "%%+ font Helvetica"];
    [Lit "%%DocumentSuppliedResources: procset Puzzles 0 0"];
    [Lit "%%EndComments"];
    [Lit "%%BeginProlog"];
    [Lit "%%BeginResource: procset Puzzles 0 0"];
    [Lit "/ctshow {"];
    [Lit "  3 1 roll"];
    [Lit "  newpath 0 0 moveto (X) true charpath flattenpath pathbbox"];
    [Lit "  3 -1 roll add 2 div 3 1 roll pop pop sub moveto"];
    [Lit "  dup stringwidth pop 0.5 mul neg 0 rmoveto show"];
    [Lit "} bind def"];
    [Lit "%%EndResource"];
    [Lit "%%EndProlog"];
    [Lit "%%BeginSetup"];
    [Lit "%%IncludeResource: font Helvetica"];
    [Lit "%%EndSetup"] ].

(** The per-page arrays and the running [puzzle_index]. *)
Record page_state : Type := PageState {
  fragments : list (list (list psline));
  lrbound : list (Z * Z);
  tbbound : list (Z * Z);
  puzzle_index : Z
}.

Definition new_page (xx yy : Z) (pidx : Z) : page_state :=
  PageState
    (map (fun _ => map (fun _ => []) (xrange 0 xx)) (xrange 0 yy))
    (map (fun _ => (0, 0)) (xrange 0 xx))
    (map (fun _ => (0, 0)) (xrange 0 yy))
    pidx.

(** One puzzle placed at [(y, x)]. *)
Definition place (st : page_state) (y x : Z) (r : rendered) : page_state :=
  let '((c0, c1, c2, c3), frag) := r in
  let '(lb, rb) := index (lrbound st) x (0, 0) in
  let '(tb, bb) := index (tbbound st) y (0, 0) in
  PageState
    (set_index (fragments st) y (set_index (index (fragments st) y []) x frag))
    (set_index (lrbound st) x (Z.max lb c0, Z.max rb c1))
    (set_index (tbbound st) y (Z.max tb c2, Z.max bb c3))
    (puzzle_index st + 1).

(** The inner [for x in xrange(xx)] of the fill loop; the [break] leaves
    the rest of the row as it is. *)
Fixpoint fill_row (fuel : nat) (fmt : formatter) (ids : list string)
    (y : Z) (xs : list Z) (st : page_state) : outcome page_state :=
  match xs with
  | [] => Ok st
  | x :: xs' =>
      if len ids <=? puzzle_index st then Ok st
      else
        r <- fmt fuel (index ids (puzzle_index st) EmptyString) ;;
        fill_row fuel fmt ids y xs' (place st y x r)
  end.

Fixpoint fill_rows (fuel : nat) (fmt : formatter) (ids : list string)
    (xx : Z) (ys : list Z) (st : page_state) : outcome page_state :=
  match ys with
  | [] => Ok st
  | y :: ys' =>
      st' <- fill_row fuel fmt ids y (xrange 0 xx) st ;;
      fill_rows fuel fmt ids xx ys' st'
  end.

Definition fill_page (fuel : nat) (fmt : formatter) (ids : list string)
    (xx yy : Z) (pidx : Z) : outcome page_state :=
  fill_rows fuel fmt ids xx (xrange 0 yy) (new_page xx yy pidx).

(** [reduce(lambda a,b:a+b, map(lambda (a,b):a+b, l), 0)] *)
Definition total (l : list (Z * Z)) : Z :=
  fold_left Z.add (map (fun '(a, b) => a + b) l) 0.

(** The lines that move the origin to where the puzzle of cell [(y, x)]
    goes: from [gsave] to [translate]. *)
Definition position_lines (xx yy : Z) (st : page_state) (y x : Z) : list psline :=
  let htotal := total (tbbound st) in
  let hbelow := total (slice_from (tbbound st) (y + 1))
                + snd (index (tbbound st) y (0, 0)) in
  let wtotal := total (lrbound st) in
  let wleft := total (slice_to (lrbound st) x)
               + fst (index (lrbound st) x (0, 0)) in
  [[Lit "gsave"]]
  ++ [[Lit "clippath flattenpath pathbbox pop pop translate"]]
  ++ [[Lit "clippath flattenpath pathbbox 4 2 roll pop pop"]]
  ++ [[Fmt "%g sub %d mul %d div %g add exch"
         [G (ZQ htotal); D (yy - y); D (yy + 1); G (ZQ hbelow)]]]
  ++ [[Fmt "%g sub %d mul %d div %g add exch"
         [G (ZQ wtotal); D (x + 1); D (xx + 1); G (ZQ wleft)]]]
  ++ [[Lit "translate"]].

(** [fragments[y][x]] *)
Definition cell (st : page_state) (y x : Z) : list psline :=
  index (index (fragments st) y []) x [].

(** The lines printed for the page cell [(y, x)]. *)
Definition emit_cell (xx yy : Z) (st : page_state) (y x : Z) : list psline :=
  let frag := cell st y x in
  if 0 <? len frag then
    position_lines xx yy st y x ++ frag ++ [[Lit "grestore"]]
  else [].

Definition emit_page (xx yy : Z) (st : page_state) : list psline :=
  flat_map (fun y => flat_map (fun x => emit_cell xx yy st y x) (xrange 0 xx))
    (xrange 0 yy).

(** [for i in xrange(1, pages+1)], with what has been printed so far. *)
Fixpoint page_loop (fuel : nat) (fmt : formatter) (ids : list string)
    (xx yy : Z) (nums : list Z) (pidx : Z) (out : list psline) : run :=
  match nums with
  | [] => Run (out ++ [[Lit "%%EOF"]]) [] (Exit 0)
  | i :: nums' =>
      let out := out ++ [[Lit "%%Page:"; Str i; Str i]; [Lit "save"]] in
      match fill_page fuel fmt ids xx yy pidx with
      | Ok st =>
          page_loop fuel fmt ids xx yy nums' (puzzle_index st)
            (out ++ emit_page xx yy st ++ [[Lit "restore showpage"]])
      | Raise e => uncaught out e
      | OutOfFuel => Run out [] Hang
      end
  end.

(** [map(string.atoi, string.split(sys.argv[2], "x"))], with [[]] for a
    [ValueError]. *)
Definition parse_format (a : string) : list Z :=
  match map_atoi (split a "x"%char) with
  | Ok l => l
  | _ => []
  end.

Definition main (fuel : nat) (argv : list string) (stdin : string) : run :=
  if len argv <? 3 then
    Run [] [Message [Lit "print.py: expected two arguments (game and format)"]]
      (Exit 1)
  else
    match formatters (index argv 1 EmptyString) with
    | None =>
        Run [] [Message [Fmt "print.py: unrecognised game name `%s'"
                           [St (index argv 1 EmptyString)]]] (Exit 1)
    | Some fmt =>
        let format := parse_format (index argv 2 EmptyString) in
        if negb (len format =? 2) then
          Run []
            [Message [Lit "print.py: expected format such as `2x3' as second argument"]]
            (Exit 1)
        else
          let xx := index format 0 0 in
          let yy := index format 1 0 in
          let ppp := xx * yy in
          match read_ids stdin with
          | Ok ids =>
              if ppp =? 0 then uncaught [] ZeroDivisionError
              else
                let pages := (len ids + ppp - 1) / ppp in
                page_loop fuel fmt ids xx yy (xrange 1 (pages + 1)) 0
                  (preamble pages)
          | Raise e => uncaught [] e
          | OutOfFuel => Run [] [] Hang
          end
    end.

(** ** Reading the PostScript that is printed

    The properties of the layout and of the drawing order are stated on
    what the emitted lines do when a PostScript interpreter runs them.
    Two small readers follow: one for the arithmetic of the positioning
    lines, one for the order and width of what is painted. *)

Inductive token : Type :=
| TNum (q : Q)
| TWord (s : string).

Fixpoint count_digits (s : string) : nat :=
  match s with
  | EmptyString => O
  | String _ s' => S (count_digits s')
  end.

(** A decimal literal: digits, and optionally a point and more digits;
    [dd.ff] is read as [ddff / 10^|ff|]. *)
Definition parse_unsigned (s : string) : option Q :=
  match split s "."%char with
  | [d] =>
      match unsigned_value d with
      | Some n => Some (n # 1)
      | None => None
      end
  | [d; f] =>
      match unsigned_value d, unsigned_value f with
      | Some _, Some _ =>
          match digits_value 0 (d ++ f)%string with
          | Some n => Some (n # Pos.pow 10 (Pos.of_nat (count_digits f)))
          | None => None
          end
      | _, _ => None
      end
  | _ => None
  end.

Definition parse_number (s : string) : option Q :=
  match s with
  | String "-"%char s' => option_map Qopp (parse_unsigned s')
  | _ => parse_unsigned s
  end.

Definition arg_value (a : arg) : option Q :=
  match a with
  | G q => Some q
  | D z => Some (ZQ z)
  | St _ => None
  end.

(** The words of a format string with the arguments substituted: [%g]
    and [%d] become the number, [-%g] its opposite, and a word with a
    conversion inside (a string such as [(%d)]) stays a word. *)
Fixpoint subst_words (ws : list string) (args : list arg) : list token :=
  match ws with
  | [] => []
  | w :: ws' =>
      if String.eqb w EmptyString then subst_words ws' args
      else if in_str "%"%char w then
        match args with
        | a :: args' =>
            match arg_value a with
            | Some q =>
                if String.eqb w "%g" || String.eqb w "%d"
                then TNum q :: subst_words ws' args'
                else if String.eqb w "-%g"
                then TNum (- q) :: subst_words ws' args'
                else TWord w :: subst_words ws' args'
            | None => TWord w :: subst_words ws' args'
            end
        | [] => TWord w :: subst_words ws' []
        end
      else
        match parse_number w with
        | Some q => TNum q :: subst_words ws' args
        | None => TWord w :: subst_words ws' args
        end
  end.

Definition item_tokens (i : item) : list token :=
  match i with
  | Lit s => subst_words (split s " "%char) []
  | Fmt f a => subst_words (split f " "%char) a
  | Str z => [TNum (ZQ z)]
  end.

Definition line_tokens (l : psline) : list token := flat_map item_tokens l.

(** *** The operand stack and the origin *)

Record clip_rect : Type := Clip { llx : Q; lly : Q; urx : Q; ury : Q }.

(** The operand stack, top first, and the origin of user space on the page. *)
Record machine : Type := Machine {
  stack : list Q;
  origin : Q * Q
}.

(** [n j roll] on a stack given top first. *)
Definition roll (n j : Z) (s : list Q) : list Q :=
  let n' := Z.to_nat n in
  let top := rev (firstn n' s) in
  let k := Z.to_nat (j mod n) in
  let cut := (n' - k)%nat in
  rev (skipn cut top ++ firstn cut top) ++ skipn n' s.

Definition Qfloor_int (q : Q) : Z := Qnum q / Zpos (Qden q).

Definition exec_word (clip : clip_rect) (w : string) (m : machine)
  : option machine :=
  let '(ox, oy) := origin m in
  let st := stack m in
  if String.eqb w "gsave" || String.eqb w "clippath" || String.eqb w "flattenpath"
  then Some m
  else if String.eqb w "pathbbox" then
    Some (Machine ((ury clip - oy) :: (urx clip - ox) :: (lly clip - oy)
                   :: (llx clip - ox) :: st)%Q (ox, oy))
  else if String.eqb w "pop" then
    match st with
    | _ :: s => Some (Machine s (ox, oy))
    | _ => None
    end
  else if String.eqb w "exch" then
    match st with
    | a :: b :: s => Some (Machine (b :: a :: s) (ox, oy))
    | _ => None
    end
  else if String.eqb w "translate" then
    match st with
    | ty :: tx :: s => Some (Machine s (ox + tx, oy + ty)%Q)
    | _ => None
    end
  else if String.eqb w "roll" then
    match st with
    | j :: n :: s =>
        if (0 <? Qfloor_int n) && (Z.of_nat (List.length s) >=? Qfloor_int n)
        then Some (Machine (roll (Qfloor_int n) (Qfloor_int j) s) (ox, oy))
        else None
    | _ => None
    end
  else if String.eqb w "add" then
    match st with
    | b :: a :: s => Some (Machine ((a + b) :: s)%Q (ox, oy))
    | _ => None
    end
  else if String.eqb w "sub" then
    match st with
    | b :: a :: s => Some (Machine ((a - b) :: s)%Q (ox, oy))
    | _ => None
    end
  else if String.eqb w "mul" then
    match st with
    | b :: a :: s => Some (Machine ((a * b) :: s)%Q (ox, oy))
    | _ => None
    end
  else if String.eqb w "div" then
    match st with
    | b :: a :: s =>
        if Qeq_bool b 0 then None else Some (Machine ((a / b) :: s)%Q (ox, oy))
    | _ => None
    end
  else None.

Fixpoint exec_tokens (clip : clip_rect) (ts : list token) (m : machine)
  : option machine :=
  match ts with
  | [] => Some m
  | TNum q :: ts' => exec_tokens clip ts' (Machine (q :: stack m) (origin m))
  | TWord w :: ts' =>
      match exec_word clip w m with
      | Some m' => exec_tokens clip ts' m'
      | None => None
      end
  end.

(** Where the origin is after the lines [ls], started at the page origin
    with an empty stack. *)
Definition origin_after (clip : clip_rect) (ls : list psline) : option (Q * Q) :=
  match exec_tokens clip (flat_map line_tokens ls) (Machine [] (0, 0)%Q) with
  | Some m => Some (origin m)
  | None => None
  end.

(** *** What is painted, in order, and how thick *)

(** The kind of path segment a line adds, after the statement that
    prints it: an internal grid line, the outline round the grid, or
    anything else (barriers, glyphs, squares, circles). *)
Inductive seg : Set := SGrid | SBorder | SOther.

(** One painted mark: a stroked grid line or outline segment with the
    line width in force, or a decoration (text, a filled shape, any
    other stroke). *)
Inductive mark : Type :=
| Grid (w : Q)
| Border (w : Q)
| Deco.

Record gstate : Type := GState {
  linewidth : Q;
  path : list seg;
  saved : list (Q * list seg)
}.

Definition line_seg (l : psline) : seg :=
  match l with
  | [Fmt f _] =>
      if String.eqb f "%g 0 moveto 0 %g rlineto"
         || String.eqb f "0 %g moveto %g 0 rlineto" then SGrid
      else if String.eqb f "0 0 moveto 0 %g rlineto %g 0 rlineto 0 %g rlineto"
      then SBorder
      else SOther
  | _ => SOther
  end.

Definition stroke_mark (w : Q) (s : seg) : mark :=
  match s with
  | SGrid => Grid w
  | SBorder => Border w
  | SOther => Deco
  end.

(** One operator; [last] is the number written just before it on the line. *)
Definition paint_word (k : seg) (w : string) (last : Q) (g : gstate)
  : gstate * list mark :=
  if String.eqb w "newpath" then (GState (linewidth g) [] (saved g), [])
  else if String.eqb w "setlinewidth" then (GState last (path g) (saved g), [])
  else if String.eqb w "rlineto" || String.eqb w "lineto" || String.eqb w "arc"
  then (GState (linewidth g) (path g ++ [k]) (saved g), [])
  else if String.eqb w "stroke"
  then (GState (linewidth g) [] (saved g), map (stroke_mark (linewidth g)) (path g))
  else if String.eqb w "fill"
  then (GState (linewidth g) [] (saved g), map (fun _ => Deco) (path g))
  else if String.eqb w "ctshow" then (g, [Deco])
  else if String.eqb w "gsave"
  then (GState (linewidth g) (path g) ((linewidth g, path g) :: saved g), [])
  else if String.eqb w "grestore" then
    match saved g with
    | (lw, p) :: s => (GState lw p s, [])
    | [] => (g, [])
    end
  else (g, []).

Fixpoint paint_tokens (k : seg) (ts : list token) (last : Q) (g : gstate)
  : gstate * list mark :=
  match ts with
  | [] => (g, [])
  | TNum q :: ts' => paint_tokens k ts' q g
  | TWord w :: ts' =>
      let '(g', ev) := paint_word k w last g in
      let '(g'', ev') := paint_tokens k ts' last g' in
      (g'', ev ++ ev')
  end.

Definition paint_line (g : gstate) (l : psline) : gstate * list mark :=
  paint_tokens (line_seg l) (line_tokens l) 0%Q g.

Fixpoint paint_lines (ls : list psline) (g : gstate) : gstate * list mark :=
  match ls with
  | [] => (g, [])
  | l :: ls' =>
      let '(g', ev) := paint_line g l in
      let '(g'', ev') := paint_lines ls' g' in
      (g'', ev ++ ev')
  end.

(** The marks a fragment paints, from PostScript's initial line width 1. *)
Definition trace (ls : list psline) : list mark :=
  snd (paint_lines ls (GState 1%Q [] [])).


(** ** Reference notions for the page loop *)

(** The stream cut after each newline: what successive [readline()]
    calls return. *)
Fixpoint lines (stdin : string) : list string :=
  match stdin with
  | EmptyString => []
  | String c rest =>
      if Ascii.eqb c newline then String c EmptyString :: lines rest
      else match lines rest with
           | [] => [String c EmptyString]
           | l :: ls => String c l :: ls
           end
  end.

(** The formatter run on each descriptor in turn, stopping at the first
    that does not return. *)
Fixpoint format_all (fuel : nat) (fmt : formatter) (ids : list string)
  : outcome (list rendered) :=
  match ids with
  | [] => Ok []
  | s :: ids' =>
      r <- fmt fuel s ;;
      rs <- format_all fuel fmt ids' ;;
      Ok (r :: rs)
  end.

(** One page section of the document around a page body. *)
Definition page_section (i : Z) (body : list psline) : list psline :=
  [[Lit "%%Page:"; Str i; Str i]; [Lit "save"]] ++ body ++ [[Lit "restore showpage"]].

(** The body of page [i], laid out on its own from the descriptors that
    start at [(i-1) * xx * yy]. *)
Definition page_body (fuel : nat) (fmt : formatter) (ids : list string)
    (xx yy i : Z) : list psline :=
  match fill_page fuel fmt ids xx yy ((i - 1) * (xx * yy)) with
  | Ok st => emit_page xx yy st
  | _ => []
  end.

(** Rows of a page that hold at least one puzzle. *)
Definition occupied (frag : list psline) : bool := 0 <? len frag.
Definition occupied_rows (st : page_state) : Z :=
  len (filter (fun row => existsb occupied row) (fragments st)).

(** [c] does not occur in [s]. *)
Definition lacks (c : ascii) (s : string) : Prop := in_str c s = false.

(** Two integer literals around one [x]. *)
Definition two_ints (params : string) : Prop :=
  exists a b wa hb,
    params = (a ++ String "x"%char b)%string
    /\ atoi a = Some wa /\ atoi b = Some hb.

(** How the run ends when the descriptors format as [o], and what it
    leaves on the error stream. *)
Definition status_of {A : Type} (o : outcome A) : exit_status :=
  match o with
  | Ok _ => Exit 0
  | Raise _ => Exit 1
  | OutOfFuel => Hang
  end.
Definition stderr_of {A : Type} (o : outcome A) : list err_line :=
  match o with
  | Raise e => [Uncaught e]
  | _ => []
  end.

(** A line that opens a page section. *)
Definition is_page_marker (l : psline) : bool :=
  match l with
  | Lit s :: _ => String.eqb s "%%Page:"
  | _ => false
  end.

(** What a loop over the next descriptors comes to: it returns a state
    whose index has moved to [p'], or ends as the formatter did. *)
Definition follows (fuel : nat) (fmt : formatter) (chunk : list string)
    (res : outcome page_state) (p' : Z) : Prop :=
  match format_all fuel fmt chunk with
  | Ok _ => exists st', res = Ok st' /\ puzzle_index st' = p'
  | Raise e => res = Raise e
  | OutOfFuel => res = OutOfFuel
  end.

(** No puzzle sits in a cell that the fill loop, started at descriptor
    [p], has not reached. *)
Definition clean (xx p : Z) (st : page_state) : Prop :=
  forall y x, 0 <= y -> 0 <= x < xx ->
    puzzle_index st <= p + y * xx + x -> cell st y x = [].

(** The fill loop after [c] cells of a page started at descriptor [p],
    [k] being the number of descriptors: the index has advanced with the
    cells or the descriptors have run out, and the rest is clean. *)
Definition filling (xx p k : Z) (st : page_state) (c : Z) : Prop :=
  puzzle_index st <= Z.max k p
  /\ (puzzle_index st = p + c \/ k <= puzzle_index st)
  /\ clean xx p st.

(** The gutter along an axis: what is left of the page extent once the
    envelopes [bounds] of the [n] rows or columns are taken out, shared
    between the [n + 1] gaps. *)
Definition gutter (extent : Q) (bounds : list (Z * Z)) (n : Z) : Q :=
  (extent - ZQ (total bounds)) / ZQ (n + 1).


(** ** Alphabets of the seed loops *)

(** Every character of [s] passes [p]. *)
Fixpoint all_chars (p : ascii -> bool) (s : string) : bool :=
  match s with
  | EmptyString => true
  | String c s' => p c && all_chars p s'
  end.

Definition is_digit (c : ascii) : bool := in_str c digits.

(** The characters that one branch or another of a seed loop takes. *)
Definition rect_token (c : ascii) : bool :=
  in_str c (String "_" lowercase) || in_str c digits.
Definition slant_token (c : ascii) : bool :=
  in_str c lowercase || in_str c "01234".
Definition lightup_token (c : ascii) : bool :=
  in_str c lowercase || Ascii.eqb c "B" || in_str c "01234".

(** [s] is empty or starts with a character that is not a digit. *)
Definition no_digit_ahead (s : string) : Prop :=
  match s with
  | EmptyString => True
  | String c _ => is_digit c = false
  end.

(** A barrier recorded for one of the first [L] cells of a net grid of
    width [w]: the cell's column and row, moved by [(dx, dy)]. *)
Definition barrier_at (w L dx dy : Z) (b : Z * Z) : Prop :=
  exists i, 0 <= i < L /\ fst b = i mod w + dx /\ snd b = i / w + dy.

(** ** Reference notions for the input and the fragments *)

(** The descriptors written back one per line. *)
Fixpoint unlines (ids : list string) : string :=
  match ids with
  | [] => EmptyString
  | s :: ids' => (s ++ String newline (unlines ids'))%string
  end.

(** The stream with a newline added after its last line if that line
    has none. *)
Definition terminated (stdin : string) : string :=
  match last_char stdin with
  | Some c =>
      if Ascii.eqb c newline then stdin
      else (stdin ++ String newline EmptyString)%string
  | None => EmptyString
  end.

(** The page section of a page on which nothing is drawn. *)
Definition empty_pages (nums : list Z) : list psline :=
  flat_map (fun i => page_section i []) nums.

(** The integers substituted for a [%d], in the order they appear in
    the fragment. *)
Definition arg_integers (a : arg) : list Z :=
  match a with
  | D n => [n]
  | _ => []
  end.
Definition item_integers (it : item) : list Z :=
  match it with
  | Fmt _ a => flat_map arg_integers a
  | _ => []
  end.
Definition printed_integers (frag : list psline) : list Z :=
  flat_map (flat_map item_integers) frag.

(** ** Reference notions for the fill loop *)

(** The puzzle of cell [(y, x)], on a page that starts at descriptor
    [p], is in place: the cell holds the fragment of descriptor
    [p + y * xx + x], and the envelopes of its column and of its row,
    which are never negative, cover its bounding box. *)
Definition placed (fuel : nat) (fmt : formatter) (ids : list string)
    (xx p : Z) (st : page_state) (y x : Z) : Prop :=
  exists c0 c1 c2 c3 frag,
    fmt fuel (index ids (p + y * xx + x) EmptyString) = Ok (c0, c1, c2, c3, frag)
    /\ cell st y x = frag
    /\ Z.max 0 c0 <= fst (index (lrbound st) x (0, 0))
    /\ Z.max 0 c1 <= snd (index (lrbound st) x (0, 0))
    /\ Z.max 0 c2 <= fst (index (tbbound st) y (0, 0))
    /\ Z.max 0 c3 <= snd (index (tbbound st) y (0, 0)).

(** The page arrays have [yy] rows of [xx] cells, and one envelope per
    column and per row. *)
Definition shaped (xx yy : Z) (st : page_state) : Prop :=
  len (fragments st) = yy
  /\ (forall y, 0 <= y < yy -> len (index (fragments st) y []) = xx)
  /\ len (lrbound st) = xx
  /\ len (tbbound st) = yy.

Definition nonneg_bounds (st : page_state) : Prop :=
  (forall x, 0 <= fst (index (lrbound st) x (0, 0))
             /\ 0 <= snd (index (lrbound st) x (0, 0)))
  /\ (forall y, 0 <= fst (index (tbbound st) y (0, 0))
                /\ 0 <= snd (index (tbbound st) y (0, 0))).

(** The fill loop after [c] cells: every descriptor it has passed is in
    place. *)
Definition placing (fuel : nat) (fmt : formatter) (ids : list string)
    (xx yy p : Z) (st : page_state) (c : Z) : Prop :=
  shaped xx yy st
  /\ nonneg_bounds st
  /\ puzzle_index st <= p + c
  /\ (puzzle_index st = p + c \/ len ids <= puzzle_index st)
  /\ forall y x, 0 <= y < yy -> 0 <= x < xx ->
       p + y * xx + x < puzzle_index st ->
       placed fuel fmt ids xx p st y x.

(** The strings substituted for a [%s], in the order they appear in the
    fragment. *)
Definition arg_strings (a : arg) : list string :=
  match a with
  | St s => [s]
  | _ => []
  end.
Definition item_strings (it : item) : list string :=
  match it with
  | Fmt _ a => flat_map arg_strings a
  | _ => []
  end.
Definition printed_strings (frag : list psline) : list string :=
  flat_map (flat_map item_strings) frag.

(** *** Nesting of [gsave] and [grestore] *)

(** The number of saved graphics states after one token, [None] when a
    [grestore] finds none to restore. *)
Definition nest_token (t : token) (d : nat) : option nat :=
  match t with
  | TNum _ => Some d
  | TWord w =>
      if String.eqb w "gsave" then Some (S d)
      else if String.eqb w "grestore" then
        match d with
        | S d' => Some d'
        | O => None
        end
      else Some d
  end.

Fixpoint nest_tokens (ts : list token) (d : nat) : option nat :=
  match ts with
  | [] => Some d
  | t :: ts' =>
      match nest_token t d with
      | Some d' => nest_tokens ts' d'
      | None => None
      end
  end.

Definition nesting (ls : list psline) (d : nat) : option nat :=
  nest_tokens (flat_map line_tokens ls) d.

(** Lines that restore every graphics state they save, and no other. *)
Definition balanced (ls : list psline) : Prop :=
  forall d, nesting ls d = Some d.

(** ** Reference notions for the place of a puzzle on the page *)

(** A rectangle of the page. *)
Record box : Type := Box { x_min : Q; x_max : Q; y_min : Q; y_max : Q }.

(** The bounding box of the puzzle of cell [(y, x)] on the page: the
    extents [(left, right, top, bottom)] its formatter returned, taken
    from the origin that the positioning lines of the cell move to. *)
Definition puzzle_box (fuel : nat) (fmt : formatter) (ids : list string)
    (xx yy p : Z) (st : page_state) (clip : clip_rect) (y x : Z) : option box :=
  match fmt fuel (index ids (p + y * xx + x) EmptyString),
        origin_after clip (position_lines xx yy st y x) with
  | Ok (c0, c1, c2, c3, _), Some (ox, oy) =>
      Some (Box (ox - ZQ c0) (ox + ZQ c1) (oy - ZQ c3) (oy + ZQ c2))
  | _, _ => None
  end.

(** [b] lies within the clip rectangle. *)
Definition within (clip : clip_rect) (b : box) : Prop :=
  (llx clip <= x_min b)%Q /\ (x_max b <= urx clip)%Q
  /\ (lly clip <= y_min b)%Q /\ (y_max b <= ury clip)%Q.

(** The argument checks: fewer than two arguments, a game that is not
    in the table, or a layout that does not parse as two integers. *)
Definition wrong_arguments (argv : list string) : Prop :=
  len argv < 3
  \/ formatters (index argv 1 EmptyString) = None
  \/ len (parse_format (index argv 2 EmptyString)) <> 2.

(** ** Reference notions for what is drawn *)




(** The arms of a tile of code [v], each by the end point of its radial
    line: bit 0 is the arm to the right, bit 1 the arm upwards, bit 2
    the arm to the left, bit 3 the arm downwards. *)
Definition arms (v : Z) : list Z :=
  (if Z.testbit v 0 then [1; 0] else [])
  ++ (if Z.testbit v 1 then [0; 1] else [])
  ++ (if Z.testbit v 2 then [-1; 0] else [])
  ++ (if Z.testbit v 3 then [0; -1] else []).

(** The marks of a tile of code [v]: one for each arm, and for an end
    point (code [1]) the three sides that close each of its two
    squares. *)
Definition tile_marks (v : Z) : nat :=
  (List.length (arms v) / 2 + (if (v =? 1)%Z then 6 else 0))%nat.

(** * Properties *)

(** ** The outcome monad *)

Lemma bind_Ok {A B : Type} (m : outcome A) (k : A -> outcome B) (b : B) :
  bind m k = Ok b -> exists a, m = Ok a /\ k a = Ok b.
Proof.
  destruct m as [a | e | ]; simpl; intro H; try discriminate.
  exists a. split; [reflexivity | exact H].
Qed.

Lemma py_assert_Ok (c : bool) (u : unit) : py_assert c = Ok u -> c = true.
Proof. destruct c; simpl; [reflexivity | discriminate]. Qed.

Lemma py_assert_false (c : bool) : c = false -> py_assert c = Raise AssertionError.
Proof. intros ->. reflexivity. Qed.

(** Peels the successive steps off a computation known to return. *)
Ltac bind_inv H :=
  repeat match type of H with
  | bind _ _ = Ok _ =>
      let a := fresh "a" in
      let Ha := fresh "Ha" in
      apply bind_Ok in H; destruct H as [a [Ha H]]
  | (let '(_, _) := ?p in _) = Ok _ => destruct p
  end.

(** ** Canonical orientation codes *)

Lemma canonical_form_zero : canonical_form 0 = 0.
Proof. reflexivity. Qed.

Lemma canonical_form_idem (v : Z) :
  canonical_form (canonical_form v) = canonical_form v.
Proof.
  unfold canonical_form at 2 3. simpl existsb.
  repeat match goal with
  | |- context [Z.eqb v ?k] => destruct (Z.eqb_spec v k); [subst; reflexivity | ]
  end.
  simpl. unfold canonical_form. simpl existsb.
  repeat match goal with
  | H : v <> ?k |- context [Z.eqb v ?k] =>
      destruct (Z.eqb_spec v k); [contradiction | clear H]
  end.
  reflexivity.
Qed.

Lemma index_map_default {A B : Type} (f : A -> B) (l : list A) (i : Z) (d : A) :
  index (map f l) i (f d) = f (index l i d).
Proof.
  unfold index. destruct (i <? 0); [reflexivity | apply map_nth].
Qed.

Lemma net_symbol_canonical (w h : Z) (grid : list Z) (i : Z) :
  net_symbol w h (map canonical_form grid) i = net_symbol w h grid i.
Proof.
  assert (E : index (map canonical_form grid) i 0
              = canonical_form (index grid i 0)).
  { rewrite <- canonical_form_zero at 1. apply index_map_default. }
  unfold net_symbol. rewrite E, canonical_form_idem. reflexivity.
Qed.

(** ** The seed loops *)

Lemma rect_seed_loop_acc (fuel : nat) :
  forall seed g0 g,
    rect_seed_loop fuel seed (g0 ++ g)
    = (r <- rect_seed_loop fuel seed g ;; Ok (g0 ++ r)).
Proof.
  induction fuel as [| fuel IH]; intros seed g0 g;
    cbn [rect_seed_loop]; [reflexivity | ].
  destruct seed as [| c rest]; [reflexivity | ].
  destruct (in_str c (String "_" lowercase)).
  - destruct (in_str c lowercase).
    + rewrite <- app_assoc. apply IH.
    + apply IH.
  - destruct (in_str c digits).
    + destruct (take_digits (String c rest)) as [ns seed'].
      destruct (atoi ns) as [n | ]; cbn [raise_none bind]; [ | reflexivity].
      rewrite <- app_assoc. apply IH.
    + apply IH.
Qed.

Lemma rect_seed_loop_prepend (fuel : nat) (seed : string) (g0 g : list Z) :
  rect_seed_loop fuel seed [] = Ok g ->
  rect_seed_loop fuel seed g0 = Ok (g0 ++ g).
Proof.
  intro H. rewrite <- (app_nil_r g0) at 1.
  rewrite rect_seed_loop_acc, H. reflexivity.
Qed.

Lemma lowercase_ord (c : ascii) :
  in_str c lowercase = true -> 1 <= ord c - ord "a"%char + 1 <= 26.
Proof.
  unfold lowercase. simpl in_str. intro H.
  repeat match type of H with
  | (Ascii.eqb c ?d || _)%bool = true =>
      apply orb_true_iff in H; destruct H as [H | H];
      [apply Ascii.eqb_eq in H; subst c; vm_compute; split; discriminate | ]
  end.
  discriminate H.
Qed.

Lemma lowercase_in_skip (c : ascii) :
  in_str c lowercase = true -> in_str c (String "_" lowercase) = true.
Proof. intro H. cbn [in_str]. rewrite H. apply orb_true_r. Qed.

(** C4 (as the code has it).  In the seed loop shared by the rect and
    solo decoders, a lowercase letter [c] contributes
    [ord(c) - ord('a') + 1] placeholder cells (between 1 and 26) in front
    of what the rest of the seed decodes to, and an underscore contributes
    no cell: it only separates two numbers. *)
Theorem skip_run_cells (fuel : nat) (c : ascii) (rest : string) (g : list Z) :
  rect_seed_loop fuel rest [] = Ok g ->
  (in_str c lowercase = true ->
     rect_seed_loop (S fuel) (String c rest) []
     = Ok (list_mul (-1) (ord c - ord "a"%char + 1) ++ g)
     /\ 1 <= len (list_mul (-1) (ord c - ord "a"%char + 1)) <= 26)
  /\ rect_seed_loop (S fuel) (String "_" rest) [] = Ok g.
Proof.
  intro Hrest. split.
  - intro Hc. split.
    + cbn [rect_seed_loop]. rewrite (lowercase_in_skip c Hc), Hc.
      apply rect_seed_loop_prepend. exact Hrest.
    + unfold len, list_mul. rewrite repeat_length.
      pose proof (lowercase_ord c Hc). lia.
  - simpl. exact Hrest.
Qed.

Lemma skip_run_cells_witness :
  (rect_seed_loop 3 "c12" [] = Ok ([-1; -1; -1] ++ [12])
   /\ 1 <= len [-1; -1; -1] <= 26)
  /\ rect_seed_loop 3 "_12" [] = Ok [12].
Proof.
  destruct (skip_run_cells 2 "c" "12" [12] eq_refl) as [H1 H2].
  split; [apply H1; reflexivity | exact H2].
Defined.

(** C4, as stated, fails for the underscore: a seed made of one
    underscore decodes to no cell at all, so a 1x1 descriptor with that
    seed is rejected for having 0 cells instead of 1. *)
Lemma underscore_appends_nothing :
  rect_seed_loop 2 "_" [] = Ok []
  /\ rect_decode 2 "1x1:_" = Raise AssertionError
  /\ solo_decode 2 "1x1:_" = Raise AssertionError.
Proof. repeat split; reflexivity. Qed.

(** *** Characters no branch of a seed loop takes *)

Lemma rect_seed_loop_stuck (c : ascii) (rest : string) :
  in_str c (String "_" lowercase) = false ->
  in_str c digits = false ->
  forall fuel grid, rect_seed_loop fuel (String c rest) grid = OutOfFuel.
Proof.
  intros H1 H2 fuel. induction fuel as [| fuel IH]; intro grid;
    cbn [rect_seed_loop]; [reflexivity | ].
  rewrite H1, H2. apply IH.
Qed.

Lemma slant_seed_loop_stuck (c : ascii) (rest : string) :
  in_str c lowercase = false ->
  in_str c "01234" = false ->
  forall fuel grid, slant_seed_loop fuel (String c rest) grid = OutOfFuel.
Proof.
  intros H1 H2 fuel. induction fuel as [| fuel IH]; intro grid;
    cbn [slant_seed_loop]; [reflexivity | ].
  rewrite H1, H2. apply IH.
Qed.

Lemma lightup_seed_loop_stuck (c : ascii) (rest : string) :
  in_str c lowercase = false ->
  Ascii.eqb c "B" = false ->
  in_str c "01234" = false ->
  forall fuel grid, lightup_seed_loop fuel (String c rest) grid = OutOfFuel.
Proof.
  intros H1 H2 H3 fuel. induction fuel as [| fuel IH]; intro grid;
    cbn [lightup_seed_loop]; [reflexivity | ].
  rewrite H1, H2, H3. apply IH.
Qed.

(** Replaces a closed subterm by its value. *)
Ltac eval_closed t :=
  let v := eval vm_compute in t in change t with v.

(** The program past its argument checks. *)
Lemma main_valid (fuel : nat) (prog name layout stdin : string)
    (fmt : formatter) (xx yy : Z) (ids : list string) :
  formatters name = Some fmt ->
  parse_format layout = [xx; yy] ->
  read_ids stdin = Ok ids ->
  xx * yy <> 0 ->
  main fuel [prog; name; layout] stdin
  = page_loop fuel fmt ids xx yy
      (xrange 1 ((len ids + xx * yy - 1) / (xx * yy) + 1)) 0
      (preamble ((len ids + xx * yy - 1) / (xx * yy))).
Proof.
  intros Hf Hl Hr Hp. unfold main.
  change (len [prog; name; layout] <? 3) with false. cbv iota.
  change (index [prog; name; layout] 1 EmptyString) with name.
  change (index [prog; name; layout] 2 EmptyString) with layout.
  rewrite Hf, Hl, Hr.
  change (negb (len [xx; yy] =? 2)) with false. cbv iota.
  change (index [xx; yy] 0 0) with xx.
  change (index [xx; yy] 1 0) with yy.
  destruct (Z.eqb_spec (xx * yy) 0) as [E | _]; [contradiction | reflexivity].
Qed.

(** C5.  On a seed with a character that no branch of the loop takes,
    the rect, solo, slant and lightup decoders do not fail: whatever the
    number of turns allowed, the loop is still running, and the whole
    program with it.  For the slant seed [5] and the rect seed [A]: *)
Theorem unrecognised_token_never_returns (fuel : nat) :
  rect_format fuel "1x1:A" = OutOfFuel
  /\ solo_format fuel "1x1:A" = OutOfFuel
  /\ slant_format fuel "1x1:5" = OutOfFuel
  /\ lightup_format fuel "1x1:5" = OutOfFuel
  /\ status (main fuel ["print.py"; "slant"; "1x1"] "1x1:5") = Hang.
Proof.
  assert (Hr : forall g, rect_seed_loop fuel "A" g = OutOfFuel)
    by (intro g; apply rect_seed_loop_stuck; reflexivity).
  assert (Hs : forall g, slant_seed_loop fuel "5" g = OutOfFuel)
    by (intro g; apply slant_seed_loop_stuck; reflexivity).
  assert (Hl : forall g, lightup_seed_loop fuel "5" g = OutOfFuel)
    by (intro g; apply lightup_seed_loop_stuck; reflexivity).
  assert (Hslant : slant_format fuel "1x1:5" = OutOfFuel).
  { unfold slant_format, slant_decode.
    eval_closed (split_id "1x1:5"). cbn [bind].
    eval_closed (parse_dims "1x1"). cbn [bind].
    rewrite Hs. reflexivity. }
  repeat split.
  - unfold rect_format, rect_decode.
    eval_closed (split_id "1x1:A"). cbn [bind].
    eval_closed (parse_dims "1x1"). cbn [bind].
    rewrite Hr. reflexivity.
  - unfold solo_format, solo_decode.
    eval_closed (split_id "1x1:A"). cbn [bind].
    eval_closed (parse_dims "1x1"). cbn [bind].
    rewrite Hr. reflexivity.
  - exact Hslant.
  - unfold lightup_format, lightup_decode.
    eval_closed (split_id "1x1:5"). cbn [bind].
    eval_closed (parse_dims "1x1"). cbn [bind].
    rewrite Hl. reflexivity.
  - rewrite (main_valid fuel "print.py" "slant" "1x1" "1x1:5"
               slant_format 1 1 ["1x1:5"]); try reflexivity; [ | discriminate].
    replace (xrange 1 ((len ["1x1:5"] + 1 * 1 - 1) / (1 * 1) + 1)) with [1]
      by reflexivity.
    cbn [page_loop]. unfold fill_page.
    replace (xrange 0 1) with [0] by reflexivity.
    cbn [fill_rows].
    replace (xrange 0 1) with [0] by reflexivity.
    cbn [fill_row].
    replace (len ["1x1:5"] <=? puzzle_index (new_page 1 1 0)) with false
      by reflexivity.
    replace (index ["1x1:5"] (puzzle_index (new_page 1 1 0)) EmptyString)
      with "1x1:5" by reflexivity.
    rewrite Hslant. reflexivity.
Qed.

(** The two other seed loops do fail on a character they do not know:
    net at [string.atoi(seed[0], 16)], dominosa at its assertion. *)
Lemma sibling_decoders_reject :
  net_format 3 "1x1:g" = Raise ValueError
  /\ dominosa_format 3 "1:0A" = Raise AssertionError.
Proof. split; reflexivity. Qed.

(** ** Decoded grids *)

Lemma rect_decode_steps (fuel : nat) (s params seed : string) (w h : Z) :
  split_id s = Ok (params, seed) ->
  parse_dims params = Ok (w, h) ->
  rect_decode fuel s
  = (grid <- rect_seed_loop fuel seed [] ;;
     _ <- py_assert (w * h =? len grid) ;;
     Ok (w, h, grid)).
Proof. intros H1 H2. unfold rect_decode. rewrite H1. cbn [bind]. rewrite H2. reflexivity. Qed.

Lemma solo_decode_steps (fuel : nat) (s params seed : string) (c r : Z) :
  split_id s = Ok (params, seed) ->
  parse_dims params = Ok (c, r) ->
  solo_decode fuel s
  = (grid <- rect_seed_loop fuel seed [] ;;
     _ <- py_assert (c * r * (c * r) =? len grid) ;;
     Ok (c, r, grid)).
Proof. intros H1 H2. unfold solo_decode. rewrite H1. cbn [bind]. rewrite H2. reflexivity. Qed.

Lemma slant_decode_steps (fuel : nat) (s params seed : string) (w h : Z) :
  split_id s = Ok (params, seed) ->
  parse_dims params = Ok (w, h) ->
  slant_decode fuel s
  = (grid <- slant_seed_loop fuel seed [] ;;
     _ <- py_assert ((w + 1) * (h + 1) =? len grid) ;;
     Ok (w, h, grid)).
Proof. intros H1 H2. unfold slant_decode. rewrite H1. cbn [bind]. rewrite H2. reflexivity. Qed.

Lemma rect_decode_length fuel s w h grid :
  rect_decode fuel s = Ok (w, h, grid) -> len grid = w * h.
Proof.
  unfold rect_decode. intro H. bind_inv H.
  apply py_assert_Ok, Z.eqb_eq in Ha2. inversion H; subst. symmetry. exact Ha2.
Qed.

Lemma net_decode_length fuel s g :
  net_decode fuel s = Ok g -> len (net_cells g) = net_w g * net_h g.
Proof.
  unfold net_decode. intro H. bind_inv H.
  apply py_assert_Ok, Z.eqb_eq in Ha2. inversion H; subst. simpl. symmetry. exact Ha2.
Qed.

Lemma lightup_decode_length fuel s w h grid :
  lightup_decode fuel s = Ok (w, h, grid) -> len grid = w * h.
Proof.
  unfold lightup_decode. intro H. bind_inv H.
  apply py_assert_Ok, Z.eqb_eq in Ha2. inversion H; subst. symmetry. exact Ha2.
Qed.

Lemma solo_decode_length fuel s c r grid :
  solo_decode fuel s = Ok (c, r, grid) -> len grid = (c * r) * (c * r).
Proof.
  unfold solo_decode. intro H. bind_inv H.
  apply py_assert_Ok, Z.eqb_eq in Ha2. inversion H; subst. symmetry. exact Ha2.
Qed.

Lemma slant_decode_length fuel s w h grid :
  slant_decode fuel s = Ok (w, h, grid) -> len grid = (w + 1) * (h + 1).
Proof.
  unfold slant_decode. intro H. bind_inv H.
  apply py_assert_Ok, Z.eqb_eq in Ha2. inversion H; subst. symmetry. exact Ha2.
Qed.

Lemma dominosa_decode_length fuel s w h grid :
  dominosa_decode fuel s = Ok (w, h, grid) -> len grid = w * h /\ w = h + 1.
Proof.
  unfold dominosa_decode. intro H. bind_inv H.
  apply py_assert_Ok, Z.eqb_eq in Ha2. inversion H; subst. split; [ | lia].
  symmetry. exact Ha2.
Qed.

Lemma pattern_decode_length s w h rowdata :
  pattern_decode s = Ok (w, h, rowdata) -> len rowdata = w + h.
Proof.
  unfold pattern_decode. intro H. bind_inv H.
  apply py_assert_Ok, Z.eqb_eq in Ha1. inversion H; subst. exact Ha1.
Qed.

Ltac settle_decode E :=
  split;
  [ let H := fresh "H" in
    intro H;
    first
      [ discriminate H
      | inversion H; subst; repeat split; try reflexivity;
        apply Z.eqb_eq in E; lia ]
  | let H1 := fresh "H" in
    let H2 := fresh "H" in
    let H3 := fresh "H" in
    intros (H1 & H2 & H3);
    first
      [ discriminate H1
      | discriminate H2
      | inversion H1; inversion H2; subst;
        first [ reflexivity
              | exfalso; apply Z.eqb_neq in E; lia ] ] ].

Ltac failed_assertion :=
  rewrite py_assert_false; [reflexivity | apply Z.eqb_neq; congruence].

(** C2 (as the code has it).  For a descriptor with one colon, what each
    decoder returns is settled by the number of cells its seed resolves
    to.  It decodes exactly when the parameter section parses, the seed
    loop returns, and the cells it returns are as many as the family's
    assertion asks for, the dimensions returned being the numbers of the
    parameter section: [w*h] cells for rect, net and lightup;
    [(c*r)*(c*r)] for solo, whose parameters are the block dimensions;
    [(w+1)*(h+1)] for slant, whose clues sit on the vertices;
    [(n+2)*(n+1)] for dominosa, whose one parameter [n] gives the width
    [n+2] and the height [n+1]; and pattern has no cell array but [w+h]
    clue lists.  When the parameter section parses and the seed
    resolves to any other number of cells, each decoder raises
    [AssertionError]. *)
Theorem decoded_cell_count (fuel : nat) (s params seed : string) :
  split_id s = Ok (params, seed) ->
  (forall w h grid,
     (rect_decode fuel s = Ok (w, h, grid) <->
        parse_dims params = Ok (w, h)
        /\ rect_seed_loop fuel seed [] = Ok grid
        /\ len grid = w * h)
     /\ (lightup_decode fuel s = Ok (w, h, grid) <->
           parse_dims params = Ok (w, h)
           /\ lightup_seed_loop fuel seed [] = Ok grid
           /\ len grid = w * h)
     /\ (solo_decode fuel s = Ok (w, h, grid) <->
           parse_dims params = Ok (w, h)
           /\ rect_seed_loop fuel seed [] = Ok grid
           /\ len grid = (w * h) * (w * h))
     /\ (slant_decode fuel s = Ok (w, h, grid) <->
           parse_dims params = Ok (w, h)
           /\ slant_seed_loop fuel seed [] = Ok grid
           /\ len grid = (w + 1) * (h + 1)))
  /\ (forall wrapping w h grid hb vb,
        net_decode fuel s = Ok (NetGrid wrapping w h grid hb vb) <->
          (wrapping = ends_in_w params
           /\ parse_dims (if ends_in_w params then drop_last params else params)
              = Ok (w, h))
          /\ net_seed_loop fuel w seed [] [] [] = Ok (grid, hb, vb)
          /\ len grid = w * h)
  /\ (forall w h grid,
        dominosa_decode fuel s = Ok (w, h, grid) <->
          (exists n, atoi params = Some n /\ w = n + 2 /\ h = n + 1)
          /\ dominosa_seed_loop fuel seed [] = Ok grid
          /\ len grid = w * h)
  /\ (forall w h rowdata,
        pattern_decode s = Ok (w, h, rowdata) <->
          parse_dims params = Ok (w, h)
          /\ rowdata = map (fun s => split s ".") (split seed "/")
          /\ len rowdata = w + h)
  /\ (forall w h,
        parse_dims params = Ok (w, h) ->
        (forall grid, rect_seed_loop fuel seed [] = Ok grid ->
           len grid <> w * h ->
           rect_decode fuel s = Raise AssertionError)
        /\ (forall grid, lightup_seed_loop fuel seed [] = Ok grid ->
              len grid <> w * h ->
              lightup_decode fuel s = Raise AssertionError)
        /\ (forall grid, rect_seed_loop fuel seed [] = Ok grid ->
              len grid <> (w * h) * (w * h) ->
              solo_decode fuel s = Raise AssertionError)
        /\ (forall grid, slant_seed_loop fuel seed [] = Ok grid ->
              len grid <> (w + 1) * (h + 1) ->
              slant_decode fuel s = Raise AssertionError)
        /\ (len (map (fun s => split s ".") (split seed "/")) <> w + h ->
            pattern_decode s = Raise AssertionError))
  /\ (forall w h grid hb vb,
        parse_dims (if ends_in_w params then drop_last params else params)
        = Ok (w, h) ->
        net_seed_loop fuel w seed [] [] [] = Ok (grid, hb, vb) ->
        len grid <> w * h ->
        net_decode fuel s = Raise AssertionError)
  /\ (forall n grid,
        atoi params = Some n ->
        dominosa_seed_loop fuel seed [] = Ok grid ->
        len grid <> (n + 2) * (n + 1) ->
        dominosa_decode fuel s = Raise AssertionError).
Proof.
  intro Hs.
  split; [ | split; [ | split; [ | split; [ | split; [ | split]]]]].
  - intros w h grid.
    unfold rect_decode, lightup_decode, solo_decode, slant_decode.
    rewrite Hs. cbn [bind]. cbv zeta.
    destruct (parse_dims params) as [[a b] | e | ]; cbn [bind].
    2,3: repeat split; try discriminate;
         intros (H1 & _); discriminate H1.
    split; [ | split; [ | split]].
    + destruct (rect_seed_loop fuel seed []) as [g | e | ]; cbn [bind];
        [destruct (a * b =? len g) eqn:E; cbn [py_assert bind] | | ];
        settle_decode E.
    + destruct (lightup_seed_loop fuel seed []) as [g | e | ]; cbn [bind];
        [destruct (a * b =? len g) eqn:E; cbn [py_assert bind] | | ];
        settle_decode E.
    + destruct (rect_seed_loop fuel seed []) as [g | e | ]; cbn [bind];
        [destruct (a * b * (a * b) =? len g) eqn:E; cbn [py_assert bind] | | ];
        settle_decode E.
    + destruct (slant_seed_loop fuel seed []) as [g | e | ]; cbn [bind];
        [destruct ((a + 1) * (b + 1) =? len g) eqn:E; cbn [py_assert bind] | | ];
        settle_decode E.
  - intros wrapping w h grid hb vb. unfold net_decode.
    rewrite Hs. cbn [bind]. cbv zeta.
    destruct (parse_dims (if ends_in_w params then drop_last params else params))
      as [[a b] | e | ]; cbn [bind].
    2,3: split; [discriminate | intros ((_ & H1) & _); discriminate H1].
    destruct (net_seed_loop fuel a seed [] [] []) as [[[g hb'] vb'] | e | ] eqn:El;
      cbn [bind].
    + destruct (a * b =? len g) eqn:E; cbn [py_assert bind]; split.
      * intro H. inversion H; subst. apply Z.eqb_eq in E.
        repeat split; try reflexivity; [exact El | lia].
      * intros ((H0 & H1) & H2 & H3). inversion H1; subst.
        rewrite El in H2. inversion H2; subst. reflexivity.
      * discriminate.
      * intros ((H0 & H1) & H2 & H3). inversion H1; subst.
        rewrite El in H2. inversion H2; subst.
        apply Z.eqb_neq in E. exfalso. lia.
    + split; [discriminate | ].
      intros ((H0 & H1) & H2 & H3). inversion H1; subst.
      rewrite El in H2. discriminate H2.
    + split; [discriminate | ].
      intros ((H0 & H1) & H2 & H3). inversion H1; subst.
      rewrite El in H2. discriminate H2.
  - intros w h grid. unfold dominosa_decode.
    rewrite Hs. cbn [bind]. cbv zeta.
    destruct (atoi params) as [n | ]; cbn [raise_none bind].
    2: split; [discriminate | intros ((n & H1 & _) & _); discriminate H1].
    destruct (dominosa_seed_loop fuel seed []) as [g | e | ]; cbn [bind].
    + destruct ((n + 2) * (n + 1) =? len g) eqn:E; cbn [py_assert bind]; split.
      * intro H. inversion H; subst. apply Z.eqb_eq in E.
        split; [exists n; repeat split | split; [reflexivity | lia]].
      * intros ((n' & H1 & -> & ->) & H2 & H3). inversion H1; inversion H2; subst.
        reflexivity.
      * discriminate.
      * intros ((n' & H1 & -> & ->) & H2 & H3). inversion H1; inversion H2; subst.
        apply Z.eqb_neq in E. exfalso. lia.
    + split; [discriminate | intros (_ & H2 & _); discriminate H2].
    + split; [discriminate | intros (_ & H2 & _); discriminate H2].
  - intros w h rowdata. unfold pattern_decode.
    rewrite Hs. cbn [bind]. cbv zeta.
    destruct (parse_dims params) as [[a b] | e | ]; cbn [bind].
    2,3: split; [discriminate | intros (H1 & _); discriminate H1].
    destruct (len (map (fun s0 => split s0 ".") (split seed "/")) =? a + b) eqn:E;
      cbn [py_assert bind]; split.
    + intro H. inversion H; subst. apply Z.eqb_eq in E.
      repeat split; try reflexivity. exact E.
    + intros (H1 & -> & H3). inversion H1; subst. reflexivity.
    + discriminate.
    + intros (H1 & -> & H3). inversion H1; subst.
      apply Z.eqb_neq in E. contradiction.
  - intros w h Hp.
    unfold rect_decode, lightup_decode, solo_decode, slant_decode, pattern_decode.
    rewrite Hs. cbn [bind]. rewrite Hp. cbn [bind]. cbv zeta.
    repeat split.
    + intros grid -> Hn. cbn [bind]. failed_assertion.
    + intros grid -> Hn. cbn [bind]. failed_assertion.
    + intros grid -> Hn. cbn [bind]. failed_assertion.
    + intros grid -> Hn. cbn [bind]. failed_assertion.
    + intro Hn. rewrite py_assert_false; [reflexivity | ].
      apply Z.eqb_neq. exact Hn.
  - intros w h grid hb vb Hp Hl Hn. unfold net_decode.
    rewrite Hs. cbn [bind]. cbv zeta. rewrite Hp. cbn [bind].
    rewrite Hl. cbn [bind]. failed_assertion.
  - intros n grid Hp Hl Hn. unfold dominosa_decode.
    rewrite Hs. cbn [bind]. rewrite Hp. cbn [raise_none bind]. cbv zeta.
    rewrite Hl. cbn [bind]. failed_assertion.
Qed.

Lemma decoded_cell_count_witness :
  ((exists n, atoi "1" = Some n /\ 3 = n + 2 /\ 2 = n + 1)
   /\ dominosa_seed_loop 7 "001122" [] = Ok [0; 0; 1; 1; 2; 2]
   /\ len [0; 0; 1; 1; 2; 2] = 3 * 2)
  /\ net_decode 3 "1x1:11" = Raise AssertionError
  /\ dominosa_decode 3 "0:0" = Raise AssertionError.
Proof.
  split; [ | split].
  - apply (proj1 (proj1 (proj2 (proj2
             (decoded_cell_count 7 "1:001122" "1" "001122" eq_refl)))
             3 2 [0; 0; 1; 1; 2; 2])).
    reflexivity.
  - apply (proj1 (proj2 (proj2 (proj2 (proj2 (proj2
             (decoded_cell_count 3 "1x1:11" "1x1" "11" eq_refl))))))
             1 1 [1; 1] [] []);
      [reflexivity | reflexivity | vm_compute; discriminate].
  - apply (proj2 (proj2 (proj2 (proj2 (proj2 (proj2
             (decoded_cell_count 3 "0:0" "0" "0" eq_refl))))))
             0 [0]);
      [reflexivity | reflexivity | vm_compute; discriminate].
Defined.

(** C2, as stated, fails for solo and slant: the decoded array does not
    have width*height cells for the width and height written in the
    descriptor. *)
Lemma cell_count_is_not_width_times_height :
  slant_decode 2 "1x1:d" = Ok (1, 1, [-1; -1; -1; -1])
  /\ len [-1; -1; -1; -1] <> 1 * 1
  /\ solo_decode 2 "1x2:d" = Ok (1, 2, [-1; -1; -1; -1])
  /\ len [-1; -1; -1; -1] <> 1 * 2.
Proof. repeat split; try reflexivity; vm_compute; discriminate. Qed.

(** ** Parameter sections *)

Lemma split_not_nil (s : string) (sep : ascii) : split s sep <> [].
Proof.
  destruct s as [| c s']; simpl; [discriminate | ].
  destruct (Ascii.eqb c sep); [discriminate | ].
  destruct (split s' sep); discriminate.
Qed.

Lemma split_one (sep : ascii) :
  forall s b, split s sep = [b] -> s = b /\ in_str sep s = false.
Proof.
  induction s as [| c s' IH]; intros b H; simpl in H.
  - inversion H. split; reflexivity.
  - destruct (Ascii.eqb c sep) eqn:E.
    + inversion H as [[Hb Hs]]. exfalso. exact (split_not_nil s' sep Hs).
    + destruct (split s' sep) as [| f fs] eqn:Es.
      * inversion H. exfalso. exact (split_not_nil s' sep Es).
      * injection H as Hb Hfs. subst b fs.
        destruct (IH f eq_refl) as [Hf Hn]. subst s'. split; [reflexivity | ].
        simpl. rewrite Ascii.eqb_sym, E. exact Hn.
Qed.

Lemma split_two (sep : ascii) :
  forall s a b, split s sep = [a; b] -> s = (a ++ String sep b)%string.
Proof.
  induction s as [| c s' IH]; intros a b H; simpl in H.
  - discriminate.
  - destruct (Ascii.eqb c sep) eqn:E.
    + inversion H as [[Ha Hs]]. apply Ascii.eqb_eq in E. subst c.
      destruct (split_one sep s' b Hs) as [-> _]. reflexivity.
    + destruct (split s' sep) as [| f fs] eqn:Es; [discriminate H | ].
      injection H as Ha Hfs. subst a fs.
      rewrite (IH f b eq_refl). reflexivity.
Qed.

Lemma split_lacking (sep : ascii) :
  forall s, in_str sep s = false -> split s sep = [s].
Proof.
  induction s as [| c s' IH]; intro H; simpl in *; [reflexivity | ].
  apply orb_false_iff in H. destruct H as [Hc Hs].
  rewrite Ascii.eqb_sym, Hc, (IH Hs). reflexivity.
Qed.

Lemma in_str_app (c : ascii) (a b : string) :
  in_str c (a ++ b)%string = in_str c a || in_str c b.
Proof.
  induction a as [| d a' IH]; simpl; [reflexivity | ].
  rewrite IH. apply orb_assoc.
Qed.

Lemma two_ints_has_x (params : string) :
  two_ints params -> in_str "x" params = true.
Proof.
  intros (a & b & wa & hb & -> & _ & _).
  rewrite in_str_app. simpl. apply orb_true_r.
Qed.

Lemma map_atoi_two (l : list string) (w h : Z) :
  map_atoi l = Ok [w; h] ->
  exists a b, l = [a; b] /\ atoi a = Some w /\ atoi b = Some h.
Proof.
  destruct l as [| a [| b [| c l']]]; simpl; try discriminate.
  - destruct (atoi a); simpl; discriminate.
  - destruct (atoi a) as [x | ] eqn:Ea; simpl; [ | discriminate].
    destruct (atoi b) as [y | ] eqn:Eb; simpl; [ | discriminate].
    intro H. inversion H; subst. exists a, b. repeat split; assumption.
  - destruct (atoi a) as [x | ]; simpl; [ | discriminate].
    destruct (atoi b) as [y | ]; simpl; [ | discriminate].
    destruct (atoi c) as [z | ]; simpl; [ | discriminate].
    destruct (map_atoi l'); simpl; discriminate.
Qed.

Lemma map_atoi_cases (l : list string) :
  (exists ns, map_atoi l = Ok ns) \/ map_atoi l = Raise ValueError.
Proof.
  induction l as [| s l' IH]; simpl.
  - left. exists []. reflexivity.
  - destruct (atoi s) as [n | ]; simpl; [ | right; reflexivity].
    destruct IH as [[ns ->] | ->]; simpl; [left; eauto | right; reflexivity].
Qed.

Lemma parse_dims_two_ints (params : string) (w h : Z) :
  parse_dims params = Ok (w, h) -> two_ints params.
Proof.
  unfold parse_dims. intro H. bind_inv H.
  destruct a as [| x [| y [| z a']]]; simpl in H; try discriminate.
  inversion H; subst.
  destruct (map_atoi_two _ _ _ Ha) as (sa & sb & Hsp & Hwa & Hhb).
  exists sa, sb, w, h. split; [ | split; assumption].
  apply split_two. exact Hsp.
Qed.

Lemma parse_dims_cases (params : string) :
  (exists w h, parse_dims params = Ok (w, h))
  \/ parse_dims params = Raise ValueError.
Proof.
  unfold parse_dims.
  destruct (map_atoi_cases (split params "x")) as [[ns ->] | ->];
    [ | right; reflexivity].
  simpl. destruct ns as [| x [| y [| z ns']]]; simpl;
    try (right; reflexivity).
  left. exists x, y. reflexivity.
Qed.

Lemma parse_dims_rejects (params : string) :
  ~ two_ints params -> parse_dims params = Raise ValueError.
Proof.
  intro Hn. destruct (parse_dims_cases params) as [(w & h & H) | H];
    [ | exact H].
  exfalso. apply Hn. exact (parse_dims_two_ints params w h H).
Qed.

(** C7 (as the code has it).  For every family but dominosa, a
    descriptor whose parameter section is not two integer literals around
    one [x] is a [ValueError], whatever the seed; net first drops a
    trailing [w].  Dominosa asks for one integer literal instead.  An
    integer literal is what [string.atoi] takes: zero and negative
    numbers pass. *)
Theorem malformed_dimensions_rejected (fuel : nat) (s params seed : string) :
  split_id s = Ok (params, seed) ->
  (~ two_ints params ->
     rect_format fuel s = Raise ValueError
     /\ pattern_format fuel s = Raise ValueError
     /\ solo_format fuel s = Raise ValueError
     /\ slant_format fuel s = Raise ValueError
     /\ lightup_format fuel s = Raise ValueError)
  /\ (~ two_ints (if ends_in_w params then drop_last params else params) ->
      net_format fuel s = Raise ValueError)
  /\ (atoi params = None -> dominosa_format fuel s = Raise ValueError).
Proof.
  intro Hs. split; [ | split].
  - intro Hn. apply parse_dims_rejects in Hn.
    unfold rect_format, rect_decode, pattern_format, pattern_decode,
      solo_format, solo_decode, slant_format, slant_decode,
      lightup_format, lightup_decode.
    rewrite Hs. cbn [bind]. rewrite Hn. repeat split; reflexivity.
  - intro Hn. apply parse_dims_rejects in Hn.
    unfold net_format, net_decode. rewrite Hs. cbn [bind]. rewrite Hn.
    reflexivity.
  - intro Hn. unfold dominosa_format, dominosa_decode.
    rewrite Hs. cbn [bind]. rewrite Hn. reflexivity.
Qed.

Lemma malformed_dimensions_rejected_witness :
  (rect_format 5 "2y3w:a" = Raise ValueError
   /\ pattern_format 5 "2y3w:a" = Raise ValueError
   /\ solo_format 5 "2y3w:a" = Raise ValueError
   /\ slant_format 5 "2y3w:a" = Raise ValueError
   /\ lightup_format 5 "2y3w:a" = Raise ValueError)
  /\ net_format 5 "2y3w:a" = Raise ValueError
  /\ dominosa_format 5 "2y3w:a" = Raise ValueError.
Proof.
  destruct (malformed_dimensions_rejected 5 "2y3w:a" "2y3w" "a" eq_refl)
    as [H1 [H2 H3]].
  split; [ | split].
  - apply H1. intro H. apply two_ints_has_x in H. discriminate H.
  - apply H2. intro H. apply two_ints_has_x in H. discriminate H.
  - apply H3. reflexivity.
Defined.

(** C7, as stated, fails: dimension tokens that are not positive are
    decoded without complaint, and dominosa decodes a parameter section
    that is a single integer with no [x]. *)
Lemma nonpositive_dimensions_accepted :
  rect_decode 1 "0x0:" = Ok (0, 0, [])
  /\ rect_decode 2 "-1x-1:a" = Ok (-1, -1, [-1])
  /\ dominosa_decode 7 "1:001122" = Ok (3, 2, [0; 0; 1; 1; 2; 2]).
Proof. repeat split; reflexivity. Qed.

(** ** Lists, ranges and slices *)

Lemma len_nonneg {A : Type} (l : list A) : 0 <= len l.
Proof. unfold len. lia. Qed.

Lemma len_app {A : Type} (a b : list A) : len (a ++ b) = len a + len b.
Proof. unfold len. rewrite length_app. lia. Qed.

Lemma len_cons {A : Type} (a : A) (l : list A) : len (a :: l) = 1 + len l.
Proof. unfold len. cbn [List.length]. lia. Qed.

Lemma xrange_empty (a b : Z) : b <= a -> xrange a b = [].
Proof.
  intro H. unfold xrange. replace (Z.to_nat (b - a)) with 0%nat by lia.
  reflexivity.
Qed.

Lemma xrange_cons (a b : Z) : a < b -> xrange a b = a :: xrange (a + 1) b.
Proof.
  intro H. unfold xrange.
  replace (Z.to_nat (b - a)) with (S (Z.to_nat (b - (a + 1)))) by lia.
  simpl seq. simpl map. f_equal; [lia | ].
  rewrite <- seq_shift, map_map. apply map_ext. intro i. lia.
Qed.

Lemma xrange_length (a b : Z) : List.length (xrange a b) = Z.to_nat (b - a).
Proof. unfold xrange. rewrite length_map, length_seq. reflexivity. Qed.

Lemma xrange_len (a b : Z) : a <= b -> len (xrange a b) = b - a.
Proof. intro H. unfold len. rewrite xrange_length. lia. Qed.

Lemma xrange_In (a b i : Z) : In i (xrange a b) <-> a <= i < b.
Proof.
  unfold xrange. rewrite in_map_iff. split.
  - intros [j [<- Hj]]. apply in_seq in Hj. lia.
  - intro H. exists (Z.to_nat (i - a)). split; [lia | ].
    apply in_seq. lia.
Qed.

Lemma skipn_index {A : Type} (l : list A) (p : Z) (d : A) :
  0 <= p < len l ->
  skipn (Z.to_nat p) l = index l p d :: skipn (S (Z.to_nat p)) l.
Proof.
  intro H. unfold index.
  destruct (Z.ltb_spec p 0) as [Hn | _]; [lia | ].
  assert (Hlt : (Z.to_nat p < List.length l)%nat) by (unfold len in H; lia).
  clear H. generalize dependent l. induction (Z.to_nat p) as [| n IH];
    intros l Hlt; destruct l as [| a l']; simpl in *; try lia.
  - reflexivity.
  - apply IH. lia.
Qed.

Lemma skipn_past {A : Type} (l : list A) (p : Z) :
  len l <= p -> skipn (Z.to_nat p) l = [].
Proof. intro H. apply skipn_all2. unfold len in H. lia. Qed.

Lemma firstn_plus {A : Type} (n m : nat) (l : list A) :
  firstn (n + m) l = firstn n l ++ firstn m (skipn n l).
Proof.
  revert l. induction n as [| n IH]; intro l; [reflexivity | ].
  destruct l as [| a l']; simpl.
  - rewrite firstn_nil. reflexivity.
  - f_equal. apply IH.
Qed.

(** ** The empty input *)

Lemma read_ids_empty : read_ids EmptyString = Ok [].
Proof. reflexivity. Qed.

(** C9 (as the code has it).  With a known family and a layout whose
    product of columns and rows is positive, an empty input stream gives
    the whole preamble, declaring 0 pages, the Helvetica font resource
    and the [ctshow] procedure, then the trailer and nothing else: no
    page section; the program ends normally, with exit status 0 and
    nothing on the error stream.  The layout matters: the argument
    checks let a layout of no cells and a negative one pass, and the
    lemma after the next shows what they give. *)
Theorem empty_input_document (fuel : nat) (prog name layout : string)
    (fmt : formatter) (xx yy : Z) :
  formatters name = Some fmt ->
  parse_format layout = [xx; yy] ->
  0 < xx * yy ->
  main fuel [prog; name; layout] EmptyString
  = Run (preamble 0 ++ [[Lit "%%EOF"]]) [] (Exit 0)
  /\ In [Lit "%%Pages:"; Str 0] (preamble 0)
  /\ In [Lit "%%+ font Helvetica"] (preamble 0)
  /\ In [Lit "%%IncludeResource: font Helvetica"] (preamble 0)
  /\ In [Lit "/ctshow {"] (preamble 0)
  /\ filter is_page_marker
       (stdout (main fuel [prog; name; layout] EmptyString)) = [].
Proof.
  intros Hf Hl Hp.
  assert (E : main fuel [prog; name; layout] EmptyString
              = Run (preamble 0 ++ [[Lit "%%EOF"]]) [] (Exit 0)).
  { rewrite (main_valid fuel prog name layout EmptyString fmt xx yy []
               Hf Hl read_ids_empty); [ | lia].
    change (len (@nil string)) with 0.
    replace ((0 + xx * yy - 1) / (xx * yy)) with 0
      by (symmetry; apply Z.div_small; lia).
    reflexivity. }
  rewrite E. split; [reflexivity | ].
  repeat split; try (cbv [preamble]; simpl; tauto).
Qed.

Lemma empty_input_document_witness :
  main 0 ["print.py"; "rect"; "2x3"] EmptyString
  = Run (preamble 0 ++ [[Lit "%%EOF"]]) [] (Exit 0)
  /\ In [Lit "%%Pages:"; Str 0] (preamble 0)
  /\ In [Lit "%%+ font Helvetica"] (preamble 0)
  /\ In [Lit "%%IncludeResource: font Helvetica"] (preamble 0)
  /\ In [Lit "/ctshow {"] (preamble 0)
  /\ filter is_page_marker
       (stdout (main 0 ["print.py"; "rect"; "2x3"] EmptyString)) = [].
Proof.
  apply (empty_input_document 0 "print.py" "rect" "2x3" rect_format 2 3);
    [reflexivity | reflexivity | lia].
Defined.

(** The claim of C9 without the condition on the layout fails.  The
    layout [0x3] passes the argument checks, and on the empty input the
    page count divides by zero: nothing is printed and the exit status
    is 1.  The layout [-1x1] passes as well, and the page count is
    [(0 + -1 - 1) / -1 = 2]: the document declares two pages and has
    two page sections, both empty. *)
Lemma empty_input_without_cells :
  main 0 ["print.py"; "rect"; "0x3"] EmptyString
  = Run [] [Uncaught ZeroDivisionError] (Exit 1)
  /\ main 0 ["print.py"; "rect"; "-1x1"] EmptyString
     = Run (preamble 2
            ++ [[Lit "%%Page:"; Str 1; Str 1]; [Lit "save"];
                [Lit "restore showpage"];
                [Lit "%%Page:"; Str 2; Str 2]; [Lit "save"];
                [Lit "restore showpage"]; [Lit "%%EOF"]]) [] (Exit 0)
  /\ filter is_page_marker
       (stdout (main 0 ["print.py"; "rect"; "-1x1"] EmptyString))
     = [[Lit "%%Page:"; Str 1; Str 1]; [Lit "%%Page:"; Str 2; Str 2]].
Proof. repeat split; reflexivity. Qed.

(** ** The fill loop takes the descriptors in order *)

Lemma place_puzzle_index (st : page_state) (y x : Z) (r : rendered) :
  puzzle_index (place st y x r) = puzzle_index st + 1.
Proof.
  unfold place. destruct r as [[[[c0 c1] c2] c3] frag].
  destruct (index (lrbound st) x (0, 0)), (index (tbbound st) y (0, 0)).
  reflexivity.
Qed.

Lemma format_all_app (fuel : nat) (fmt : formatter) (a b : list string) :
  format_all fuel fmt (a ++ b)
  = (ra <- format_all fuel fmt a ;;
     rb <- format_all fuel fmt b ;;
     Ok (ra ++ rb)).
Proof.
  induction a as [| s a' IH]; cbn [format_all app bind].
  - destruct (format_all fuel fmt b); reflexivity.
  - destruct (fmt fuel s); cbn [bind]; try reflexivity.
    rewrite IH. destruct (format_all fuel fmt a'); cbn [bind]; try reflexivity.
    destruct (format_all fuel fmt b); reflexivity.
Qed.

Section FillLoop.

Variable fuel : nat.
Variable fmt : formatter.
Variable ids : list string.

Lemma fill_row_spec (y : Z) :
  forall xs st,
    0 <= puzzle_index st <= len ids ->
    follows fuel fmt (firstn (List.length xs) (skipn (Z.to_nat (puzzle_index st)) ids))
      (fill_row fuel fmt ids y xs st)
      (Z.min (puzzle_index st + len xs) (len ids)).
Proof.
  unfold follows.
  induction xs as [| x xs' IH]; intros st Hp.
  - cbn. exists st. split; [reflexivity | ]. change (len (@nil Z)) with 0. lia.
  - cbn [fill_row].
    destruct (Z.leb_spec (len ids) (puzzle_index st)) as [Hge | Hlt].
    + rewrite skipn_past by lia. rewrite firstn_nil. cbn.
      exists st. split; [reflexivity | ].
      pose proof (len_nonneg (x :: xs')). lia.
    + rewrite (skipn_index ids (puzzle_index st) EmptyString) by lia.
      cbn [List.length firstn format_all].
      destruct (fmt fuel (index ids (puzzle_index st) EmptyString)) as [r | e | ];
        cbn [bind]; try reflexivity.
      specialize (IH (place st y x r)).
      rewrite place_puzzle_index in IH.
      replace (Z.to_nat (puzzle_index st + 1))
        with (S (Z.to_nat (puzzle_index st))) in IH by lia.
      specialize (IH ltac:(lia)).
      destruct (format_all fuel fmt
                  (firstn (List.length xs')
                     (skipn (S (Z.to_nat (puzzle_index st))) ids)));
        cbn [bind]; try exact IH.
      destruct IH as [st' [E Hi]]. exists st'. split; [exact E | ].
      rewrite Hi, len_cons. f_equal. lia.
Qed.

Lemma skipn_min (p n : Z) :
  0 <= p -> 0 <= n ->
  skipn (Z.to_nat (Z.min (p + n) (len ids))) ids
  = skipn (Z.to_nat n) (skipn (Z.to_nat p) ids).
Proof.
  intros Hp Hn. rewrite skipn_skipn.
  destruct (Z.le_ge_cases (p + n) (len ids)) as [H | H].
  - rewrite Z.min_l by lia. f_equal. lia.
  - rewrite Z.min_r by lia. rewrite skipn_past by lia.
    symmetry. apply skipn_all2. unfold len in H. lia.
Qed.

Lemma fill_rows_spec (xx : Z) :
  0 <= xx ->
  forall ys st,
    0 <= puzzle_index st <= len ids ->
    follows fuel fmt (firstn (List.length ys * Z.to_nat xx)
               (skipn (Z.to_nat (puzzle_index st)) ids))
      (fill_rows fuel fmt ids xx ys st)
      (Z.min (puzzle_index st + len ys * xx) (len ids)).
Proof.
  intro Hxx. unfold follows.
  induction ys as [| y ys' IH]; intros st Hp.
  - cbn. exists st. split; [reflexivity | ]. change (len (@nil Z)) with 0. lia.
  - cbn [fill_rows List.length Nat.mul].
    rewrite firstn_plus, format_all_app.
    pose proof (fill_row_spec y (xrange 0 xx) st Hp) as Hrow.
    unfold follows in Hrow.
    rewrite xrange_length, xrange_len in Hrow by lia.
    replace (xx - 0) with xx in Hrow by lia.
    destruct (format_all fuel fmt
                (firstn (Z.to_nat xx) (skipn (Z.to_nat (puzzle_index st)) ids)));
      cbn [bind]; try (rewrite Hrow; reflexivity).
    destruct Hrow as [st1 [E1 Hi1]]. rewrite E1. cbn [bind].
    specialize (IH st1). rewrite Hi1 in IH.
    rewrite skipn_min in IH by lia.
    specialize (IH ltac:(pose proof (len_nonneg ids); lia)).
    destruct (format_all fuel fmt
                (firstn (List.length ys' * Z.to_nat xx)
                   (skipn (Z.to_nat xx)
                      (skipn (Z.to_nat (puzzle_index st)) ids))));
      cbn [bind]; try exact IH.
    destruct IH as [st' [E Hi]]. exists st'. split; [exact E | ].
    rewrite Hi, len_cons.
    pose proof (len_nonneg ys'). nia.
Qed.

Lemma fill_page_spec (xx yy p : Z) :
  0 <= xx -> 0 <= yy -> 0 <= p <= len ids ->
  follows fuel fmt (firstn (Z.to_nat (xx * yy)) (skipn (Z.to_nat p) ids))
    (fill_page fuel fmt ids xx yy p)
    (Z.min (p + xx * yy) (len ids)).
Proof.
  intros Hxx Hyy Hp. unfold fill_page.
  pose proof (fill_rows_spec xx Hxx (xrange 0 yy) (new_page xx yy p) Hp) as H.
  rewrite xrange_length, xrange_len in H by lia.
  cbn [new_page puzzle_index] in H.
  replace (Z.to_nat (yy - 0) * Z.to_nat xx)%nat with (Z.to_nat (xx * yy)) in H
    by nia.
  replace ((yy - 0) * xx) with (xx * yy) in H by lia.
  exact H.
Qed.

End FillLoop.

(** ** The page loop *)

Lemma ceil_pages (k ppp : Z) :
  0 <= k -> 0 < ppp ->
  let pages := (k + ppp - 1) / ppp in
  0 <= pages /\ (pages - 1) * ppp < k <= pages * ppp.
Proof.
  intros Hk Hp pages.
  pose proof (Z.div_mod (k + ppp - 1) ppp ltac:(lia)) as Hdm.
  pose proof (Z.mod_pos_bound (k + ppp - 1) ppp Hp) as Hm.
  fold pages in Hdm. nia.
Qed.

Lemma page_loop_prefix (fuel : nat) (fmt : formatter) (ids : list string)
    (xx yy : Z) :
  forall nums pidx out,
    exists rest, stdout (page_loop fuel fmt ids xx yy nums pidx out) = out ++ rest.
Proof.
  induction nums as [| i nums' IH]; intros pidx out; cbn [page_loop].
  - eexists. reflexivity.
  - destruct (fill_page fuel fmt ids xx yy pidx) as [st | e | ].
    + destruct (IH (puzzle_index st)
                  ((out ++ [[Lit "%%Page:"; Str i; Str i]; [Lit "save"]])
                   ++ emit_page xx yy st ++ [[Lit "restore showpage"]]))
        as [rest E].
      rewrite E. rewrite <- !app_assoc. eexists. reflexivity.
    + eexists. reflexivity.
    + eexists. reflexivity.
Qed.

Section PageLoop.

Variable fuel : nat.
Variable fmt : formatter.
Variable ids : list string.
Variables xx yy : Z.
Hypothesis xx_pos : 0 < xx.
Hypothesis yy_pos : 0 < yy.

Let ppp := xx * yy.
Let k := len ids.

Lemma page_loop_spec :
  forall n a out,
    1 <= a ->
    (n = 0%nat \/ (a + Z.of_nat n - 2) * ppp < k) ->
    let r := page_loop fuel fmt ids xx yy (xrange a (a + Z.of_nat n))
               (Z.min ((a - 1) * ppp) k) out in
    let chunk := firstn (n * Z.to_nat ppp)
                   (skipn (Z.to_nat (Z.min ((a - 1) * ppp) k)) ids) in
    status r = status_of (format_all fuel fmt chunk)
    /\ stderr r = stderr_of (format_all fuel fmt chunk)
    /\ (forall rs, format_all fuel fmt chunk = Ok rs ->
        r = Run (out
                 ++ flat_map (fun i => page_section i (page_body fuel fmt ids xx yy i))
                      (xrange a (a + Z.of_nat n))
                 ++ [[Lit "%%EOF"]]) [] (Exit 0)).
Proof.
  assert (Hppp : 0 < ppp) by (unfold ppp; nia).
  assert (Hk : 0 <= k) by apply len_nonneg.
  induction n as [| n IH]; intros a out Ha Hlast; cbv zeta.
  - rewrite xrange_empty by lia. cbn. split; [reflexivity | ].
    split; [reflexivity | ]. intros _ _. reflexivity.
  - destruct Hlast as [Hlast | Hlast]; [discriminate | ].
    assert (Hstart : Z.min ((a - 1) * ppp) k = (a - 1) * ppp) by nia.
    rewrite Hstart.
    rewrite xrange_cons by lia. cbn [page_loop Nat.mul flat_map].
    rewrite firstn_plus, format_all_app.
    pose proof (fill_page_spec fuel fmt ids xx yy ((a - 1) * ppp)
                  ltac:(lia) ltac:(lia) ltac:(nia)) as Hpage.
    unfold follows in Hpage. fold ppp in Hpage.
    destruct (format_all fuel fmt
                (firstn (Z.to_nat ppp) (skipn (Z.to_nat ((a - 1) * ppp)) ids)));
      cbn [bind].
    + destruct Hpage as [st [Est Hidx]].
      unfold page_body. fold ppp. rewrite Est.
      specialize (IH (a + 1)
                    ((out ++ [[Lit "%%Page:"; Str a; Str a]; [Lit "save"]])
                     ++ emit_page xx yy st ++ [[Lit "restore showpage"]])
                    ltac:(lia)).
      cbv zeta in IH.
      assert (E1 : Z.min ((a + 1 - 1) * ppp) k = puzzle_index st).
      { rewrite Hidx. f_equal. lia. }
      assert (E2 : skipn (Z.to_nat (Z.min ((a + 1 - 1) * ppp) k)) ids
                   = skipn (Z.to_nat ppp) (skipn (Z.to_nat ((a - 1) * ppp)) ids)).
      { replace ((a + 1 - 1) * ppp) with ((a - 1) * ppp + ppp) by lia.
        apply skipn_min; nia. }
      rewrite E2, E1 in IH.
      replace (a + 1 + Z.of_nat n) with (a + Z.of_nat (S n)) in IH by lia.
      specialize (IH ltac:(right; lia)).
      destruct IH as [IHs [IHe IHo]].
      destruct (format_all fuel fmt
                  (firstn (n * Z.to_nat ppp)
                     (skipn (Z.to_nat ppp)
                        (skipn (Z.to_nat ((a - 1) * ppp)) ids)))) eqn:Erest;
        cbn [bind status_of stderr_of] in *.
      * split; [exact IHs | ]. split; [exact IHe | ]. intros rs _.
        rewrite (IHo _ eq_refl). f_equal. unfold page_section.
        rewrite <- !app_assoc. reflexivity.
      * split; [exact IHs | ]. split; [exact IHe | discriminate].
      * split; [exact IHs | ]. split; [exact IHe | discriminate].
    + rewrite Hpage. cbn. split; [reflexivity | ].
      split; [reflexivity | discriminate].
    + rewrite Hpage. cbn. split; [reflexivity | ].
      split; [reflexivity | discriminate].
Qed.

(** The whole run, past the argument checks: it ends as formatting the
    descriptors one after the other does, and when they all format the
    document is the preamble, one section per page and the trailer. *)
Lemma main_run (prog name layout stdin : string) :
  formatters name = Some fmt ->
  parse_format layout = [xx; yy] ->
  read_ids stdin = Ok ids ->
  let pages := (k + ppp - 1) / ppp in
  let r := main fuel [prog; name; layout] stdin in
  status r = status_of (format_all fuel fmt ids)
  /\ stderr r = stderr_of (format_all fuel fmt ids)
  /\ (forall rs, format_all fuel fmt ids = Ok rs ->
      r = Run (preamble pages
               ++ flat_map (fun i => page_section i (page_body fuel fmt ids xx yy i))
                    (xrange 1 (pages + 1))
               ++ [[Lit "%%EOF"]]) [] (Exit 0)).
Proof.
  intros Hf Hl Hr pages r.
  assert (Hppp : 0 < ppp) by (unfold ppp; nia).
  assert (Hk : 0 <= k) by apply len_nonneg.
  destruct (ceil_pages k ppp Hk Hppp) as [Hp0 [Hlo Hhi]]. fold pages in Hp0, Hlo, Hhi.
  unfold r. rewrite (main_valid fuel prog name layout stdin fmt xx yy ids Hf Hl Hr)
    by (fold ppp; lia).
  fold ppp k pages.
  pose proof (page_loop_spec (Z.to_nat pages) 1 (preamble pages) ltac:(lia)) as H.
  cbv zeta in H.
  replace (1 + Z.of_nat (Z.to_nat pages)) with (pages + 1) in H by lia.
  replace (Z.min ((1 - 1) * ppp) k) with 0 in H by lia.
  change (skipn (Z.to_nat 0) ids) with ids in H.
  rewrite (firstn_all2 (n := (Z.to_nat pages * Z.to_nat ppp)%nat) ids) in H
    by (unfold k, len in Hhi; nia).
  apply H. destruct (Z.eq_dec pages 0); [left; lia | right; lia].
Qed.

End PageLoop.

(** ** Reading the input *)

Lemma readline_cons (c : ascii) (s : string) :
  readline (String c s)
  = if Ascii.eqb c newline then (String c EmptyString, s)
    else let (l, rest) := readline s in (String c l, rest).
Proof. reflexivity. Qed.

Lemma lines_cons (c : ascii) (s : string) :
  lines (String c s)
  = if Ascii.eqb c newline then String c EmptyString :: lines s
    else match lines s with
         | [] => [String c EmptyString]
         | l :: ls => String c l :: ls
         end.
Proof. reflexivity. Qed.

Lemma readline_lines (c : ascii) (s : string) :
  let (l, rest) := readline (String c s) in
  lines (String c s) = l :: lines rest
  /\ l <> EmptyString
  /\ (String.length rest <= String.length s)%nat.
Proof.
  revert c. induction s as [| d s' IH]; intro c;
    rewrite readline_cons, lines_cons; destruct (Ascii.eqb c newline).
  - repeat split; [discriminate | cbn; lia].
  - cbn. repeat split; [discriminate | lia].
  - repeat split; [discriminate | cbn; lia].
  - specialize (IH d). destruct (readline (String d s')) as [l rest].
    destruct IH as [IH1 [IH2 IH3]]. rewrite IH1.
    repeat split; [discriminate | cbn in *; lia].
Qed.

Lemma read_loop_lines :
  forall fuel stdin ids,
    (String.length stdin < fuel)%nat ->
    read_loop fuel stdin ids = Ok (ids ++ map chomp (lines stdin)).
Proof.
  induction fuel as [| fuel IH]; intros stdin ids Hf; [lia | ].
  cbn [read_loop]. destruct stdin as [| c s].
  - cbn. rewrite app_nil_r. reflexivity.
  - pose proof (readline_lines c s) as H.
    destruct (readline (String c s)) as [l rest].
    destruct H as [H1 [H2 H3]]. rewrite H1.
    destruct l as [| c' l']; [contradiction | ].
    rewrite IH by (cbn in Hf; lia).
    rewrite <- app_assoc. reflexivity.
Qed.

Lemma read_ids_lines (stdin : string) :
  read_ids stdin = Ok (map chomp (lines stdin)).
Proof. unfold read_ids. rewrite read_loop_lines by lia. reflexivity. Qed.



(** ** Lines without a colon *)








(** ** Cells that stay empty *)

Lemma set_nth_other {A : Type} (l : list A) (i j : nat) (v d : A) :
  i <> j -> nth j (set_nth l i v) d = nth j l d.
Proof.
  revert i j. induction l as [| a l' IH]; intros i j H; [reflexivity | ].
  destruct i as [| i'], j as [| j']; cbn; try reflexivity; try lia.
  apply IH. lia.
Qed.

Lemma index_set_index_other {A : Type} (l : list A) (i j : Z) (v d : A) :
  i <> j -> index (set_index l i v) j d = index l j d.
Proof.
  intro H. unfold index, set_index.
  destruct (Z.ltb_spec j 0); [reflexivity | ].
  destruct (Z.ltb_spec i 0); [reflexivity | ].
  apply set_nth_other. lia.
Qed.

Lemma set_nth_same {A : Type} (l : list A) (i : nat) (v d : A) :
  nth i (set_nth l i v) d = if (i <? List.length l)%nat then v else d.
Proof.
  revert i. induction l as [| a l' IH]; intro i.
  - destruct i; reflexivity.
  - destruct i as [| i']; cbn; [reflexivity | ]. rewrite IH. reflexivity.
Qed.

Lemma index_all_default {A : Type} (l : list A) (i : Z) (d : A) :
  (forall a, In a l -> a = d) -> index l i d = d.
Proof.
  intro H. unfold index. destruct (i <? 0); [reflexivity | ].
  destruct (nth_in_or_default (Z.to_nat i) l d) as [Hin | E];
    [apply H; exact Hin | exact E].
Qed.

Lemma index_set_index_same {A : Type} (l : list A) (i : Z) (v d : A) :
  index (set_index l i v) i d = if (0 <=? i) && (i <? len l) then v else d.
Proof.
  unfold index, set_index, len.
  destruct (Z.ltb_spec i 0) as [Hn | Hp].
  - destruct (Z.leb_spec 0 i); [lia | reflexivity].
  - rewrite set_nth_same.
    destruct (Z.leb_spec 0 i); [ | lia]. cbn [andb].
    destruct (Nat.ltb_spec (Z.to_nat i) (List.length l)),
      (Z.ltb_spec i (Z.of_nat (List.length l))); try reflexivity; lia.
Qed.

Lemma index_out_of_range {A : Type} (l : list A) (i : Z) (d : A) :
  (0 <=? i) && (i <? len l) = false -> index l i d = d.
Proof.
  unfold index, len. intro H.
  destruct (Z.ltb_spec i 0) as [Hn | Hp]; [reflexivity | ].
  apply nth_overflow.
  destruct (Z.leb_spec 0 i); [ | lia]. cbn [andb] in H.
  apply Z.ltb_ge in H. lia.
Qed.

Lemma cell_place_other (st : page_state) (y x y' x' : Z) (r : rendered) :
  (y', x') <> (y, x) -> cell (place st y x r) y' x' = cell st y' x'.
Proof.
  intro H. unfold cell, place. destruct r as [[[[c0 c1] c2] c3] frag].
  destruct (index (lrbound st) x (0, 0)), (index (tbbound st) y (0, 0)).
  cbn [fragments].
  destruct (Z.eq_dec y y') as [-> | Hy].
  - assert (Hx : x <> x') by congruence.
    rewrite index_set_index_same.
    destruct ((0 <=? y') && (y' <? len (fragments st))) eqn:E.
    + apply index_set_index_other. exact Hx.
    + rewrite (index_out_of_range (fragments st) y' [] E). reflexivity.
  - rewrite index_set_index_other by exact Hy. reflexivity.
Qed.

Lemma index_nil {A : Type} (i : Z) (d : A) : index [] i d = d.
Proof. unfold index. destruct (i <? 0); [reflexivity | ]. destruct (Z.to_nat i); reflexivity. Qed.

Lemma cell_new_page (xx yy p y x : Z) : cell (new_page xx yy p) y x = [].
Proof.
  unfold cell, new_page. cbn [fragments].
  unfold index at 2. destruct (y <? 0); [apply index_nil | ].
  destruct (nth_in_or_default (Z.to_nat y)
              (map (fun _ : Z => map (fun _ : Z => @nil psline) (xrange 0 xx))
                 (xrange 0 yy)) []) as [Hin | E].
  - apply in_map_iff in Hin. destruct Hin as [_ [<- _]].
    apply index_all_default. intros a Ha.
    apply in_map_iff in Ha. destruct Ha as [_ [<- _]]. reflexivity.
  - rewrite E. apply index_nil.
Qed.

Section Unfilled.

Variable fuel : nat.
Variable fmt : formatter.
Variable ids : list string.
Variables xx p : Z.
Hypothesis xx_nonneg : 0 <= xx.

Let k := len ids.

Lemma fill_row_filling (y : Z) :
  0 <= y ->
  forall n x0 st st',
    0 <= x0 ->
    filling xx p k st (y * xx + x0) ->
    fill_row fuel fmt ids y (xrange x0 (x0 + Z.of_nat n)) st = Ok st' ->
    filling xx p k st' (y * xx + x0 + Z.of_nat n).
Proof.
  intro Hy. induction n as [| n IH]; intros x0 st st' Hx0 HJ Hrow.
  - rewrite xrange_empty in Hrow by lia. cbn in Hrow. inversion Hrow; subst.
    replace (y * xx + x0 + Z.of_nat 0) with (y * xx + x0) by lia. exact HJ.
  - rewrite xrange_cons in Hrow by lia. cbn [fill_row] in Hrow.
    destruct HJ as [Hmax [Hat Hclean]]. fold k in Hrow.
    destruct (Z.leb_spec k (puzzle_index st)) as [Hout | Hin].
    + inversion Hrow; subst. repeat split; [exact Hmax | right; exact Hout | ].
      exact Hclean.
    + bind_inv Hrow.
      destruct Hat as [Hat | Hat]; [ | lia].
      replace (x0 + Z.of_nat (S n)) with (x0 + 1 + Z.of_nat n) in Hrow by lia.
      replace (y * xx + x0 + Z.of_nat (S n))
        with (y * xx + (x0 + 1) + Z.of_nat n) by lia.
      apply (IH (x0 + 1) (place st y x0 a) st' ltac:(lia)); [ | exact Hrow].
      unfold filling. rewrite place_puzzle_index.
      split; [lia | ]. split; [left; lia | ].
      intros y' x' Hy' Hx' Hidx. rewrite place_puzzle_index in Hidx.
      rewrite cell_place_other.
      * apply Hclean; [exact Hy' | exact Hx' | lia].
      * intro E. inversion E; subst. lia.
Qed.

Lemma fill_rows_filling :
  forall m y0 st st',
    0 <= y0 ->
    filling xx p k st (y0 * xx) ->
    fill_rows fuel fmt ids xx (xrange y0 (y0 + Z.of_nat m)) st = Ok st' ->
    filling xx p k st' ((y0 + Z.of_nat m) * xx).
Proof.
  induction m as [| m IH]; intros y0 st st' Hy0 HJ Hrows.
  - rewrite xrange_empty in Hrows by lia. cbn in Hrows. inversion Hrows; subst.
    replace (y0 + Z.of_nat 0) with y0 by lia. exact HJ.
  - rewrite xrange_cons in Hrows by lia. cbn [fill_rows] in Hrows.
    bind_inv Hrows.
    replace (y0 + Z.of_nat (S m)) with (y0 + 1 + Z.of_nat m) in * by lia.
    apply (IH (y0 + 1) a st' ltac:(lia)); [ | exact Hrows].
    replace ((y0 + 1) * xx) with (y0 * xx + 0 + Z.of_nat (Z.to_nat xx)) by lia.
    apply (fill_row_filling y0 Hy0 (Z.to_nat xx) 0 st a ltac:(lia)).
    + replace (y0 * xx + 0) with (y0 * xx) by lia. exact HJ.
    + replace (0 + Z.of_nat (Z.to_nat xx)) with xx by lia. exact Ha.
Qed.

Lemma unfilled_cell_empty (yy : Z) (st : page_state) (y x : Z) :
  0 <= yy -> 0 <= p ->
  fill_page fuel fmt ids xx yy p = Ok st ->
  0 <= y -> 0 <= x < xx ->
  k <= p + y * xx + x ->
  cell st y x = [] /\ emit_cell xx yy st y x = [].
Proof.
  intros Hyy Hp Hfill Hy Hx Hk. unfold fill_page in Hfill.
  assert (HJ : filling xx p k st ((0 + Z.of_nat (Z.to_nat yy)) * xx)).
  { apply (fill_rows_filling (Z.to_nat yy) 0 (new_page xx yy p) st ltac:(lia)).
    - unfold filling. cbn [new_page puzzle_index].
      split; [lia | ]. split; [left; lia | ].
      intros y' x' _ _ _. apply cell_new_page.
    - replace (0 + Z.of_nat (Z.to_nat yy)) with yy by lia. exact Hfill. }
  destruct HJ as [Hmax [_ Hclean]].
  assert (E : cell st y x = []) by (apply Hclean; [exact Hy | exact Hx | nia]).
  split; [exact E | ]. unfold emit_cell. rewrite E. reflexivity.
Qed.

End Unfilled.

(** C3.  With a known family and a layout of [xx] columns by [yy]
    rows, both positive, and [k] descriptors on the input: the number of
    pages is the least [pages] with [k <= pages * xx * yy], that is
    [ceil(k / (xx*yy))]; the preamble that opens the output declares it,
    whatever happens later; when every descriptor formats, the output is
    that preamble, exactly one page section for each page number from 1
    to [pages], and the trailer; and on any page, the last one included,
    a cell whose turn comes after the last descriptor holds no fragment
    and prints no line at all. *)
Theorem pagination (fuel : nat) (prog name layout stdin : string)
    (fmt : formatter) (xx yy : Z) :
  formatters name = Some fmt ->
  parse_format layout = [xx; yy] ->
  0 < xx -> 0 < yy ->
  let ids := map chomp (lines stdin) in
  let k := len ids in
  let ppp := xx * yy in
  let pages := (k + ppp - 1) / ppp in
  let r := main fuel [prog; name; layout] stdin in
  (0 <= pages /\ (pages - 1) * ppp < k <= pages * ppp)
  /\ (exists rest, stdout r = preamble pages ++ rest)
  /\ In [Lit "%%Pages:"; Str pages] (preamble pages)
  /\ (forall rs, format_all fuel fmt ids = Ok rs ->
      r = Run (preamble pages
               ++ flat_map (fun i => page_section i (page_body fuel fmt ids xx yy i))
                    (xrange 1 (pages + 1))
               ++ [[Lit "%%EOF"]]) [] (Exit 0))
  /\ len (xrange 1 (pages + 1)) = pages
  /\ (forall i st y x,
        1 <= i ->
        fill_page fuel fmt ids xx yy ((i - 1) * ppp) = Ok st ->
        0 <= y < yy -> 0 <= x < xx ->
        k <= (i - 1) * ppp + y * xx + x ->
        emit_cell xx yy st y x = []).
Proof.
  intros Hf Hl Hx Hy ids k ppp pages r.
  assert (Hppp : 0 < ppp) by (unfold ppp; nia).
  pose proof (read_ids_lines stdin) as Hr. fold ids in Hr.
  destruct (ceil_pages k ppp (len_nonneg ids) Hppp) as [Hp0 Hceil].
  fold pages in Hp0, Hceil.
  split; [split; assumption | ].
  split.
  { unfold r.
    rewrite (main_valid fuel prog name layout stdin fmt xx yy ids Hf Hl Hr)
      by (fold ppp; lia).
    apply page_loop_prefix. }
  split; [cbv [preamble]; simpl; tauto | ].
  split.
  { exact (proj2 (proj2 (main_run fuel fmt ids xx yy Hx Hy prog name layout stdin
                           Hf Hl Hr))). }
  split; [rewrite xrange_len by lia; lia | ].
  intros i st y x Hi Hfill Hyr Hxr Hk.
  apply (unfilled_cell_empty fuel fmt ids xx ((i - 1) * ppp) ltac:(lia)
           yy st y x); try assumption; try lia; nia.
Qed.

Lemma pagination_witness :
  status (main 5 ["print.py"; "rect"; "2x1"]
            ("1x1:a" ++ String newline ("1x1:1" ++ String newline "1x1:a"))%string)
  = Exit 0
  /\ len (xrange 1 (2 + 1)) = 2
  /\ (exists st,
        fill_page 5 rect_format ["1x1:a"; "1x1:1"; "1x1:a"] 2 1 2 = Ok st
        /\ emit_cell 2 1 st 0 1 = []
        /\ emit_cell 2 1 st 0 0 <> []).
Proof.
  destruct (pagination 5 "print.py" "rect" "2x1"
              ("1x1:a" ++ String newline ("1x1:1" ++ String newline "1x1:a"))%string
              rect_format 2 1 eq_refl eq_refl ltac:(lia) ltac:(lia))
    as (_ & _ & _ & Hdoc & Hlen & Hempty).
  split; [ | split].
  - erewrite Hdoc; reflexivity.
  - exact Hlen.
  - eexists. split; [reflexivity | ]. split.
    + apply (Hempty 2); [lia | reflexivity | lia | lia | vm_compute; discriminate].
    + vm_compute. discriminate.
Defined.

(** ** Where a puzzle is put on the page *)

Lemma ZQ_nonzero (n : Z) : n <> 0 -> Qeq_bool (ZQ n) 0 = false.
Proof.
  intro H. destruct (Qeq_bool (ZQ n) 0) eqn:E; [ | reflexivity].
  apply Qeq_bool_iff in E. unfold Qeq, ZQ, inject_Z in E. simpl in E. lia.
Qed.

Lemma ZQ_neq0 (n : Z) : n <> 0 -> ~ (ZQ n == 0)%Q.
Proof. intros H E. unfold Qeq, ZQ, inject_Z in E. simpl in E. lia. Qed.

(** Running the positioning lines: the origin goes to the lower left
    corner of the clip rectangle, and from there by the two numbers the
    arithmetic lines leave on the stack. *)
Lemma positioning_origin (clip : clip_rect) (ht hb wt wl : Q) (a b c d : Z) :
  b <> 0 -> d <> 0 ->
  origin_after clip
    [[Lit "gsave"];
     [Lit "clippath flattenpath pathbbox pop pop translate"];
     [Lit "clippath flattenpath pathbbox 4 2 roll pop pop"];
     [Fmt "%g sub %d mul %d div %g add exch" [G ht; D a; D b; G hb]];
     [Fmt "%g sub %d mul %d div %g add exch" [G wt; D c; D d; G wl]];
     [Lit "translate"]]
  = Some
      ((0 + (llx clip - 0)
        + ((urx clip - (0 + (llx clip - 0)) - wt) * ZQ c / ZQ d + wl))%Q,
       (0 + (lly clip - 0)
        + ((ury clip - (0 + (lly clip - 0)) - ht) * ZQ a / ZQ b + hb))%Q).
Proof.
  intros Hb Hd. destruct clip as [x0 y0 x1 y1].
  cbv -[ZQ Qplus Qminus Qmult Qdiv Qopp Qeq_bool].
  rewrite (ZQ_nonzero b Hb).
  cbv -[ZQ Qplus Qminus Qmult Qdiv Qopp Qeq_bool].
  rewrite (ZQ_nonzero d Hd).
  reflexivity.
Qed.

(** *** Sums of envelopes *)

Lemma fold_left_add_acc (l : list Z) (acc : Z) :
  fold_left Z.add l acc = acc + fold_left Z.add l 0.
Proof.
  revert acc. induction l as [| a l' IH]; intro acc; cbn [fold_left]; [lia | ].
  rewrite IH, (IH (0 + a)). lia.
Qed.

Lemma total_nil : total [] = 0.
Proof. reflexivity. Qed.

Lemma total_cons (ab : Z * Z) (l : list (Z * Z)) :
  total (ab :: l) = fst ab + snd ab + total l.
Proof.
  unfold total. destruct ab as [a b]. cbn [map fold_left fst snd].
  rewrite fold_left_add_acc. lia.
Qed.

Lemma total_app (l1 l2 : list (Z * Z)) : total (l1 ++ l2) = total l1 + total l2.
Proof.
  induction l1 as [| ab l1' IH]; [reflexivity | ].
  cbn [app]. rewrite !total_cons, IH. lia.
Qed.

Lemma slice_from_skipn {A : Type} (l : list A) (i : Z) :
  0 <= i <= len l -> slice_from l i = skipn (Z.to_nat i) l.
Proof.
  intro H. unfold slice_from, slice_index.
  destruct (Z.ltb_spec i 0); [lia | ]. rewrite Z.min_l by lia. reflexivity.
Qed.

Lemma slice_to_firstn {A : Type} (l : list A) (i : Z) :
  0 <= i <= len l -> slice_to l i = firstn (Z.to_nat i) l.
Proof.
  intro H. unfold slice_to, slice_index.
  destruct (Z.ltb_spec i 0); [lia | ]. rewrite Z.min_l by lia. reflexivity.
Qed.

Lemma total_from_step (l : list (Z * Z)) (y : Z) :
  0 <= y < len l ->
  total (slice_from l y)
  = fst (index l y (0, 0)) + snd (index l y (0, 0)) + total (slice_from l (y + 1)).
Proof.
  intro H. rewrite !slice_from_skipn by lia.
  rewrite (skipn_index l y (0, 0)) by lia. rewrite total_cons.
  replace (Z.to_nat (y + 1)) with (S (Z.to_nat y)) by lia. reflexivity.
Qed.

Lemma total_to_step (l : list (Z * Z)) (x : Z) :
  0 <= x < len l ->
  total (slice_to l (x + 1))
  = total (slice_to l x) + (fst (index l x (0, 0)) + snd (index l x (0, 0))).
Proof.
  intro H. rewrite !slice_to_firstn by lia.
  replace (Z.to_nat (x + 1)) with (Z.to_nat x + 1)%nat by lia.
  rewrite firstn_plus, total_app.
  rewrite (skipn_index l x (0, 0)) by lia.
  cbn [firstn]. rewrite total_cons, total_nil. lia.
Qed.

Lemma total_from_0 (l : list (Z * Z)) : total (slice_from l 0) = total l.
Proof. rewrite slice_from_skipn by (pose proof (len_nonneg l); lia). reflexivity. Qed.

Lemma total_from_end (l : list (Z * Z)) : total (slice_from l (len l)) = 0.
Proof.
  rewrite slice_from_skipn by (pose proof (len_nonneg l); lia).
  rewrite skipn_past by lia. reflexivity.
Qed.

Lemma total_to_0 (l : list (Z * Z)) : total (slice_to l 0) = 0.
Proof. rewrite slice_to_firstn by (pose proof (len_nonneg l); lia). reflexivity. Qed.

Lemma total_to_end (l : list (Z * Z)) : total (slice_to l (len l)) = total l.
Proof.
  rewrite slice_to_firstn by (pose proof (len_nonneg l); lia).
  rewrite firstn_all2 by (unfold len; lia). reflexivity.
Qed.

(** *** The envelope arrays keep their length *)

Lemma set_nth_length {A : Type} (l : list A) (n : nat) (v : A) :
  List.length (set_nth l n v) = List.length l.
Proof.
  revert n. induction l as [| a l' IH]; intro n; [reflexivity | ].
  destruct n; cbn; [reflexivity | ]. rewrite IH. reflexivity.
Qed.

Lemma len_set_index {A : Type} (l : list A) (i : Z) (v : A) :
  len (set_index l i v) = len l.
Proof.
  unfold len, set_index. destruct (i <? 0); [reflexivity | ].
  rewrite set_nth_length. reflexivity.
Qed.

Lemma fill_row_preserves (P : page_state -> Prop) :
  (forall st y x r, P st -> P (place st y x r)) ->
  forall fuel fmt ids y xs st st',
    P st -> fill_row fuel fmt ids y xs st = Ok st' -> P st'.
Proof.
  intros Hplace fuel fmt ids y. induction xs as [| x xs' IH]; intros st st' HP H.
  - inversion H; subst. exact HP.
  - cbn [fill_row] in H. destruct (len ids <=? puzzle_index st).
    + inversion H; subst. exact HP.
    + bind_inv H. eapply IH; [ | exact H]. apply Hplace. exact HP.
Qed.

Lemma fill_rows_preserves (P : page_state -> Prop) :
  (forall st y x r, P st -> P (place st y x r)) ->
  forall fuel fmt ids xx ys st st',
    P st -> fill_rows fuel fmt ids xx ys st = Ok st' -> P st'.
Proof.
  intros Hplace fuel fmt ids xx. induction ys as [| y ys' IH]; intros st st' HP H.
  - inversion H; subst. exact HP.
  - cbn [fill_rows] in H. bind_inv H. eapply IH; [ | exact H].
    eapply fill_row_preserves; eauto.
Qed.

Lemma fill_page_bounds (fuel : nat) (fmt : formatter) (ids : list string)
    (xx yy p : Z) (st : page_state) :
  0 <= xx -> 0 <= yy ->
  fill_page fuel fmt ids xx yy p = Ok st ->
  len (lrbound st) = xx /\ len (tbbound st) = yy.
Proof.
  intros Hx Hy H. unfold fill_page in H.
  apply (fill_rows_preserves
           (fun st => len (lrbound st) = xx /\ len (tbbound st) = yy))
    in H; [exact H | | ].
  - intros st0 y x r [H1 H2]. unfold place.
    destruct r as [[[[c0 c1] c2] c3] frag].
    destruct (index (lrbound st0) x (0, 0)), (index (tbbound st0) y (0, 0)).
    cbn [lrbound tbbound]. rewrite !len_set_index. split; assumption.
  - cbn [new_page lrbound tbbound]. unfold len. rewrite !length_map, !xrange_length.
    lia.
Qed.

(** *** Gutters *)

Ltac push_ZQ :=
  unfold ZQ, Z.sub in *;
  rewrite ?inject_Z_plus, ?inject_Z_mult, ?inject_Z_opp in *;
  change (inject_Z 0) with 0%Q in *;
  change (inject_Z 1) with 1%Q in *.

Lemma gutter_eq (extent : Q) (bounds : list (Z * Z)) (n : Z) :
  0 <= n ->
  (gutter extent bounds n * ZQ (n + 1) + ZQ (total bounds) == extent)%Q.
Proof.
  intro H. unfold gutter. field. apply ZQ_neq0. lia.
Qed.

(** C1 (as the code has it).  On every page that is laid out, and on
    each axis: with [N] the number of rows (or columns) of the page
    shape, occupied or not, [P] the extent of the clip rectangle and [E]
    the sum of the row (or column) envelopes, an empty row or column
    counting for nothing, the gutter [g = (P - E) / (N + 1)] satisfies
    [g * (N + 1) + E == P]; the positioning lines printed for a cell put
    its origin at a place that depends on its column for [X] and on its
    row for [Y] only; and with those places the gap between the page
    edge and the envelope of the first row or column, between the
    envelopes of two adjacent rows or columns, and between the envelope
    of the last one and the opposite page edge is [g] each time. *)
Theorem uniform_gutters (fuel : nat) (fmt : formatter) (ids : list string)
    (xx yy p : Z) (st : page_state) (clip : clip_rect) :
  0 < xx -> 0 < yy -> fill_page fuel fmt ids xx yy p = Ok st ->
  let tb := tbbound st in
  let lr := lrbound st in
  let top y := ZQ (fst (index tb y (0, 0))) in
  let bottom y := ZQ (snd (index tb y (0, 0))) in
  let left x := ZQ (fst (index lr x (0, 0))) in
  let right x := ZQ (snd (index lr x (0, 0))) in
  let gh := gutter (ury clip - lly clip) tb yy in
  let gw := gutter (urx clip - llx clip) lr xx in
  (gh * ZQ (yy + 1) + ZQ (total tb) == ury clip - lly clip)%Q
  /\ (gw * ZQ (xx + 1) + ZQ (total lr) == urx clip - llx clip)%Q
  /\ exists X Y : Z -> Q,
       (forall y x, 0 <= y < yy -> 0 <= x < xx ->
          exists ox oy,
            origin_after clip (position_lines xx yy st y x) = Some (ox, oy)
            /\ (ox == X x)%Q /\ (oy == Y y)%Q)
       /\ (ury clip - (Y 0%Z + top 0%Z) == gh)%Q
       /\ (forall y, 0 <= y -> y + 1 < yy ->
           ((Y y - bottom y) - (Y (y + 1)%Z + top (y + 1)%Z) == gh)%Q)
       /\ ((Y (yy - 1)%Z - bottom (yy - 1)%Z) - lly clip == gh)%Q
       /\ ((X 0%Z - left 0%Z) - llx clip == gw)%Q
       /\ (forall x, 0 <= x -> x + 1 < xx ->
           ((X (x + 1)%Z - left (x + 1)%Z) - (X x + right x) == gw)%Q)
       /\ (urx clip - (X (xx - 1)%Z + right (xx - 1)%Z) == gw)%Q.
Proof.
  intros Hx Hy Hfill tb lr top bottom left right gh gw.
  destruct (fill_page_bounds fuel fmt ids xx yy p st ltac:(lia) ltac:(lia) Hfill)
    as [Hlr Htb].
  fold lr in Hlr. fold tb in Htb.
  pose proof (gutter_eq (ury clip - lly clip) tb yy ltac:(lia)) as Hgh.
  pose proof (gutter_eq (urx clip - llx clip) lr xx ltac:(lia)) as Hgw.
  fold gh in Hgh. fold gw in Hgw.
  split; [exact Hgh | ]. split; [exact Hgw | ].
  exists (fun x => llx clip + gw * ZQ (x + 1)
                   + ZQ (total (slice_to lr x) + fst (index lr x (0%Z, 0%Z))))%Q.
  exists (fun y => lly clip + gh * ZQ (yy - y)
                   + ZQ (total (slice_from tb (y + 1)) + snd (index tb y (0%Z, 0%Z))))%Q.
  split; [ | split; [ | split; [ | split; [ | split; [ | split]]]]].
  - intros y x Hyr Hxr. unfold position_lines. cbn [app].
    rewrite positioning_origin by lia.
    eexists. eexists. split; [reflexivity | ]. fold tb lr.
    split.
    + unfold gw, gutter. field. apply ZQ_neq0. lia.
    + unfold gh, gutter. field. apply ZQ_neq0. lia.
  - pose proof (total_from_step tb 0 ltac:(lia)) as E.
    rewrite total_from_0 in E. cbn [Z.add] in E.
    unfold top. revert Hgh. generalize gh. intros g Hg.
    rewrite E in Hg. change (0 + 1) with 1. push_ZQ. lra.
  - intros y Hy0 Hy1.
    pose proof (total_from_step tb (y + 1) ltac:(lia)) as E.
    unfold bottom, top. rewrite E. generalize gh. intro g.
    replace (yy - (y + 1)) with (yy - y - 1) by lia.
    push_ZQ. lra.
  - unfold bottom. replace (yy - 1 + 1) with (len tb) by lia.
    rewrite total_from_end. replace (yy - (yy - 1)) with 1 by lia.
    generalize gh. intro g. push_ZQ. lra.
  - unfold left. rewrite total_to_0. generalize gw. intro g. push_ZQ. lra.
  - intros x Hx0 Hx1.
    pose proof (total_to_step lr x ltac:(lia)) as E.
    unfold left, right. rewrite E. generalize gw. intro g.
    push_ZQ. lra.
  - pose proof (total_to_step lr (xx - 1) ltac:(lia)) as E.
    replace (xx - 1 + 1) with (len lr) in E by lia.
    rewrite total_to_end in E.
    unfold right. revert Hgw. generalize gw. intros g Hg.
    rewrite E in Hg. replace (xx - 1 + 1) with xx by lia.
    push_ZQ. lra.
Qed.

Lemma uniform_gutters_witness :
  exists st,
    fill_page 5 rect_format ["1x1:a"; "2x1:b"] 1 2 0 = Ok st
    /\ (gutter (842 - 0) (tbbound st) 2 * ZQ (2 + 1) + ZQ (total (tbbound st))
        == 842 - 0)%Q.
Proof.
  eexists. split; [reflexivity | ].
  exact (proj1 (uniform_gutters 5 rect_format ["1x1:a"; "2x1:b"] 1 2 0 _
                  (Clip 0 0 595 842) ltac:(lia) ltac:(lia) eq_refl)).
Defined.

(** C1, as stated, fails on a page that is not full.  One 1x1 rect
    puzzle on a page of one column and two rows, on A4: one row is
    occupied, the envelopes sum to 14, and the puzzle's origin goes to
    height 1677/3.  The gap above the puzzle is not the [g] of
    [g * (1 + 1) + 14 == 842], and the gap below it is not the gap above. *)
Lemma gutter_counts_empty_rows :
  exists st,
    fill_page 5 rect_format ["1x1:a"] 1 2 0 = Ok st
    /\ occupied_rows st = 1
    /\ tbbound st = [(7, 7); (0, 0)]
    /\ origin_after (Clip 0 0 595 842) (position_lines 1 2 st 0 0)
       = Some ((595 # 2)%Q, (1677 # 3)%Q)
    /\ (forall g : Q,
          (g * ZQ (1 + 1) + ZQ 14 == 842 - 0)%Q ->
          ~ (842 - ((1677 # 3) + ZQ 7) == g)%Q)
    /\ ~ ((1677 # 3) - ZQ 7 - 0 == 842 - ((1677 # 3) + ZQ 7))%Q.
Proof.
  eexists. split; [reflexivity | ].
  split; [reflexivity | ]. split; [reflexivity | ]. split; [reflexivity | ].
  split.
  - intros g Hg Hc. rewrite <- Hc in Hg. vm_compute in Hg. discriminate Hg.
  - intro Hc. vm_compute in Hc. discriminate Hc.
Qed.

(** ** What the fragments paint *)








(** *** Running the lines of a fragment *)









(** * Further properties of the decoders *)

(** ** Digits and numbers *)

Lemma digit_cases (c : ascii) :
  is_digit c = true ->
  In c ["0"; "1"; "2"; "3"; "4"; "5"; "6"; "7"; "8"; "9"]%char.
Proof.
  unfold is_digit, digits. cbn [in_str]. intro H.
  repeat match type of H with
  | (Ascii.eqb c ?d || _)%bool = true =>
      apply orb_true_iff in H; destruct H as [H | H];
      [apply Ascii.eqb_eq in H; subst c; simpl; tauto | ]
  end.
  discriminate H.
Qed.

(** Case analysis on which of the ten digits [c] is. *)
Ltac digit_split H :=
  apply digit_cases in H; simpl in H;
  repeat match type of H with
  | _ \/ _ => destruct H as [H | H]
  end; try contradiction; subst.

Lemma digit_value_range (c : ascii) :
  is_digit c = true -> exists d, digit_value c = Some d /\ 0 <= d <= 9.
Proof.
  intro H. digit_split H; eexists;
    (split; [reflexivity | vm_compute; split; discriminate]).
Qed.

Lemma digit_not_space (c : ascii) : is_digit c = true -> is_space c = false.
Proof. intro H. digit_split H; reflexivity. Qed.

Lemma digit_not_skip (c : ascii) :
  is_digit c = true -> in_str c (String "_" lowercase) = false.
Proof. intro H. digit_split H; reflexivity. Qed.

Lemma all_chars_app (p : ascii -> bool) (a b : string) :
  all_chars p (a ++ b)%string = all_chars p a && all_chars p b.
Proof.
  induction a as [| c a' IH]; cbn [append all_chars]; [reflexivity | ].
  rewrite IH. apply andb_assoc.
Qed.

Lemma lstrip_digits (s : string) : all_chars is_digit s = true -> lstrip s = s.
Proof.
  destruct s as [| c s']; cbn [all_chars lstrip]; [reflexivity | ].
  intro H. apply andb_true_iff in H. destruct H as [Hc _].
  rewrite (digit_not_space c Hc). reflexivity.
Qed.

Lemma rstrip_digits (s : string) : all_chars is_digit s = true -> rstrip s = s.
Proof.
  induction s as [| c s' IH]; cbn [all_chars rstrip]; [reflexivity | ].
  intro H. apply andb_true_iff in H. destruct H as [Hc Hs].
  rewrite (IH Hs). destruct s' as [| d s'']; [ | reflexivity].
  rewrite (digit_not_space c Hc). reflexivity.
Qed.

Lemma digits_value_some (s : string) :
  all_chars is_digit s = true ->
  forall acc, 0 <= acc -> exists n, digits_value acc s = Some n /\ acc <= n.
Proof.
  induction s as [| c s' IH]; cbn [all_chars digits_value]; intros H acc Hacc.
  - exists acc. split; [reflexivity | lia].
  - apply andb_true_iff in H. destruct H as [Hc Hs].
    destruct (digit_value_range c Hc) as (d & -> & Hd).
    destruct (IH Hs (10 * acc + d) ltac:(lia)) as (n & Hn & Hle).
    exists n. split; [exact Hn | lia].
Qed.

(** [string.atoi] on a run of digits is its decimal value. *)
Lemma atoi_digits (s : string) :
  all_chars is_digit s = true -> s <> EmptyString ->
  exists n, atoi s = Some n /\ digits_value 0 s = Some n /\ 0 <= n.
Proof.
  intros H Hne. unfold atoi. rewrite (lstrip_digits s H), (rstrip_digits s H).
  destruct (digits_value_some s H 0 ltac:(lia)) as (n & Hn & Hle).
  exists n. split; [ | split; assumption].
  destruct s as [| c s']; [contradiction | ].
  cbn [all_chars] in H. apply andb_true_iff in H. destruct H as [Hc _].
  digit_split Hc; exact Hn.
Qed.

Lemma take_digits_spec :
  forall s ns r,
    take_digits s = (ns, r) ->
    s = (ns ++ r)%string /\ all_chars is_digit ns = true /\ no_digit_ahead r.
Proof.
  induction s as [| c s' IH]; cbn [take_digits]; intros ns r H.
  - inversion H; subst. repeat split.
  - destruct (in_str c digits) eqn:Hc.
    + destruct (take_digits s') as [ns' r'] eqn:E. inversion H; subst.
      destruct (IH ns' r eq_refl) as (-> & Hns & Hr).
      split; [reflexivity | ]. split; [ | exact Hr].
      cbn [all_chars]. unfold is_digit at 1. rewrite Hc. exact Hns.
    + inversion H; subst. split; [reflexivity | ]. split; [reflexivity | ].
      exact Hc.
Qed.

Lemma take_digits_greedy (ds rest : string) :
  all_chars is_digit ds = true -> no_digit_ahead rest ->
  take_digits (ds ++ rest)%string = (ds, rest).
Proof.
  intros Hds Hrest. induction ds as [| c ds' IH]; cbn [append].
  - destruct rest as [| d rest']; [reflexivity | ].
    cbn [take_digits]. unfold no_digit_ahead, is_digit in Hrest.
    rewrite Hrest. reflexivity.
  - cbn [all_chars] in Hds. apply andb_true_iff in Hds. destruct Hds as [Hc Hs].
    cbn [take_digits]. unfold is_digit in Hc. rewrite Hc, (IH Hs). reflexivity.
Qed.

Lemma append_length (a b : string) :
  String.length (a ++ b)%string = (String.length a + String.length b)%nat.
Proof. induction a as [| c a' IH]; cbn; [reflexivity | ]. rewrite IH. reflexivity. Qed.

(** ** When the seed loops return *)

Lemma rect_token_cases (c : ascii) :
  rect_token c = true ->
  in_str c (String "_" lowercase) = true
  \/ (in_str c (String "_" lowercase) = false /\ is_digit c = true).
Proof.
  unfold rect_token, is_digit. destruct (in_str c (String "_" lowercase)).
  - left. reflexivity.
  - cbn [orb]. intro H. right. split; [reflexivity | exact H].
Qed.

Lemma rect_loop_total :
  forall n seed,
    (String.length seed <= n)%nat ->
    all_chars rect_token seed = true ->
    exists g,
      Forall (fun v => -1 <= v) g
      /\ forall fuel grid,
           (String.length seed < fuel)%nat ->
           rect_seed_loop fuel seed grid = Ok (grid ++ g).
Proof.
  induction n as [| n IH]; intros seed Hlen Hall.
  - destruct seed; [ | cbn in Hlen; lia].
    exists []. split; [constructor | ].
    intros fuel grid Hf. destruct fuel; [lia | ]. cbn. rewrite app_nil_r. reflexivity.
  - destruct seed as [| c rest].
    { exists []. split; [constructor | ].
      intros fuel grid Hf. destruct fuel; [lia | ]. cbn. rewrite app_nil_r.
      reflexivity. }
    cbn [all_chars] in Hall. apply andb_true_iff in Hall.
    destruct Hall as [Hc Hrest].
    destruct (rect_token_cases c Hc) as [Hskip | [Hskip Hdig]].
    + destruct (IH rest ltac:(cbn in Hlen; lia) Hrest) as (g & Hg & Hloop).
      exists ((if in_str c lowercase
               then list_mul (-1) (ord c - ord "a"%char + 1) else []) ++ g).
      split.
      * apply Forall_app. split; [ | exact Hg].
        destruct (in_str c lowercase); [ | constructor].
        unfold list_mul. apply Forall_forall. intros v Hv.
        apply repeat_spec in Hv. lia.
      * intros fuel grid Hf. destruct fuel as [| fuel]; [lia | ].
        cbn [rect_seed_loop]. rewrite Hskip.
        rewrite Hloop by (cbn in Hf; lia).
        destruct (in_str c lowercase); rewrite <- ?app_assoc; reflexivity.
    + destruct (take_digits (String c rest)) as [ns seed'] eqn:Et.
      destruct (take_digits_spec _ _ _ Et) as (Hs & Hns & _).
      assert (Hne : ns <> EmptyString).
      { cbn [take_digits] in Et. unfold is_digit in Hdig. rewrite Hdig in Et.
        destruct (take_digits rest). inversion Et. discriminate. }
      destruct (atoi_digits ns Hns Hne) as (v & Hv & _ & Hv0).
      assert (Hshort : (String.length seed' <= String.length rest)%nat).
      { apply (f_equal String.length) in Hs. rewrite append_length in Hs.
        destruct ns; [contradiction | ]. cbn in Hs. lia. }
      assert (Hlen' : (String.length seed' <= n)%nat) by (cbn in Hlen; lia).
      assert (Hall' : all_chars rect_token seed' = true).
      { assert (E : all_chars rect_token (String c rest) = true)
          by (cbn [all_chars]; rewrite Hc, Hrest; reflexivity).
        rewrite Hs, all_chars_app in E. apply andb_true_iff in E. tauto. }
      destruct (IH seed' Hlen' Hall') as (g & Hg & Hloop).
      exists (v :: g). split; [constructor; [lia | exact Hg] | ].
      intros fuel grid Hf. destruct fuel as [| fuel]; [lia | ].
      cbn [rect_seed_loop]. unfold is_digit in Hdig. rewrite Hskip, Hdig, Et, Hv.
      cbn [raise_none bind].
      rewrite Hloop by (cbn in Hf; lia).
      rewrite <- app_assoc. reflexivity.
Qed.

Lemma rect_loop_diverges :
  forall fuel seed grid,
    all_chars rect_token seed = false ->
    rect_seed_loop fuel seed grid = OutOfFuel.
Proof.
  induction fuel as [| fuel IH]; intros seed grid Hall; [reflexivity | ].
  cbn [rect_seed_loop]. destruct seed as [| c rest]; [discriminate Hall | ].
  destruct (in_str c (String "_" lowercase)) eqn:Hskip.
  - apply IH. cbn [all_chars] in Hall. unfold rect_token in Hall.
    rewrite Hskip in Hall. exact Hall.
  - destruct (in_str c digits) eqn:Hdig.
    + destruct (take_digits (String c rest)) as [ns seed'] eqn:Et.
      destruct (take_digits_spec _ _ _ Et) as (Hs & Hns & _).
      assert (Hne : ns <> EmptyString).
      { cbn [take_digits] in Et. rewrite Hdig in Et.
        destruct (take_digits rest). inversion Et. discriminate. }
      destruct (atoi_digits ns Hns Hne) as (v & Hv & _).
      rewrite Hv. cbn [raise_none bind]. apply IH.
      rewrite Hs, all_chars_app in Hall.
      assert (Hr : all_chars rect_token ns = true).
      { clear - Hns. induction ns as [| d ns' IHn]; [reflexivity | ].
        cbn [all_chars] in *. apply andb_true_iff in Hns. destruct Hns as [Hd Hn].
        unfold rect_token. unfold is_digit in Hd. rewrite Hd, orb_true_r.
        apply IHn. exact Hn. }
      rewrite Hr in Hall. exact Hall.
    + apply IH. exact Hall.
Qed.

(** The seed loop of rect and solo never raises.  A seed made of
    underscores, lowercase letters and digits decodes, to the same cells
    whatever the number of turns allowed beyond its length, and the
    cells are -1 or a number that is not negative; any other seed keeps
    the loop running for ever. *)
Theorem rect_seed_loop_returns (seed : string) :
  (all_chars rect_token seed = true ->
   exists g,
     Forall (fun v => -1 <= v) g
     /\ forall fuel grid,
          (String.length seed < fuel)%nat ->
          rect_seed_loop fuel seed grid = Ok (grid ++ g))
  /\ (all_chars rect_token seed = false ->
      forall fuel grid, rect_seed_loop fuel seed grid = OutOfFuel).
Proof.
  split.
  - intro H. exact (rect_loop_total (String.length seed) seed (le_n _) H).
  - intros H fuel grid. apply rect_loop_diverges. exact H.
Qed.

Lemma rect_seed_loop_returns_witness :
  (exists g,
     Forall (fun v => -1 <= v) g
     /\ forall fuel grid,
          (String.length "b12_3" < fuel)%nat ->
          rect_seed_loop fuel "b12_3" grid = Ok (grid ++ g))
  /\ (forall fuel grid, rect_seed_loop fuel "b1-2" grid = OutOfFuel).
Proof.
  split.
  - apply (proj1 (rect_seed_loop_returns "b12_3")). reflexivity.
  - apply (proj2 (rect_seed_loop_returns "b1-2")). reflexivity.
Defined.

(** In the rect and solo seeds, a run of digits that no digit follows is
    one clue, read in base ten: it adds the one cell holding its value. *)
Theorem numeric_literal_is_greedy (fuel : nat) (ds rest : string) (g : list Z) :
  all_chars is_digit ds = true -> ds <> EmptyString ->
  no_digit_ahead rest ->
  rect_seed_loop fuel rest [] = Ok g ->
  exists n,
    digits_value 0 ds = Some n /\ 0 <= n
    /\ rect_seed_loop (S fuel) (ds ++ rest)%string [] = Ok (n :: g).
Proof.
  intros Hds Hne Hrest Hloop.
  destruct (atoi_digits ds Hds Hne) as (n & Hn & Hv & Hn0).
  exists n. split; [exact Hv | ]. split; [exact Hn0 | ].
  destruct ds as [| c ds']; [contradiction | ].
  assert (Hc : is_digit c = true).
  { cbn [all_chars] in Hds. apply andb_true_iff in Hds. tauto. }
  change (String c ds' ++ rest)%string with (String c (ds' ++ rest)%string).
  cbn [rect_seed_loop]. rewrite (digit_not_skip c Hc).
  unfold is_digit in Hc. rewrite Hc.
  change (String c (ds' ++ rest)%string) with (String c ds' ++ rest)%string.
  rewrite (take_digits_greedy _ rest Hds Hrest), Hn. cbn [raise_none bind].
  apply (rect_seed_loop_prepend fuel rest [n] g Hloop).
Qed.

Lemma numeric_literal_is_greedy_witness :
  exists n,
    digits_value 0 "12" = Some n /\ 0 <= n
    /\ rect_seed_loop 5 "12_3a" [] = Ok (n :: [3; -1]).
Proof.
  apply (numeric_literal_is_greedy 4 "12" "_3a" [3; -1]);
    [reflexivity | discriminate | reflexivity | reflexivity].
Defined.

Lemma small_digit_value (c : ascii) :
  in_str c "01234" = true ->
  exists v, atoi (String c EmptyString) = Some v /\ 0 <= v <= 4.
Proof.
  cbn [in_str]. intro H.
  repeat match type of H with
  | (Ascii.eqb c ?d || _)%bool = true =>
      apply orb_true_iff in H; destruct H as [H | H];
      [apply Ascii.eqb_eq in H; subst c; eexists;
       (split; [reflexivity | vm_compute; split; discriminate]) | ]
  end.
  discriminate H.
Qed.

Lemma slant_loop_total :
  forall seed,
    all_chars slant_token seed = true ->
    exists g,
      Forall (fun v => -1 <= v <= 4) g
      /\ forall fuel grid,
           (String.length seed < fuel)%nat ->
           slant_seed_loop fuel seed grid = Ok (grid ++ g).
Proof.
  induction seed as [| c rest IH]; intro Hall.
  - exists []. split; [constructor | ].
    intros fuel grid Hf. destruct fuel; [lia | ]. cbn. rewrite app_nil_r. reflexivity.
  - cbn [all_chars] in Hall. apply andb_true_iff in Hall.
    destruct Hall as [Hc Hrest]. destruct (IH Hrest) as (g & Hg & Hloop).
    unfold slant_token in Hc. destruct (in_str c lowercase) eqn:Hlow.
    + exists (list_mul (-1) (ord c - ord "a"%char + 1) ++ g). split.
      * apply Forall_app. split; [ | exact Hg].
        unfold list_mul. apply Forall_forall. intros v Hv.
        apply repeat_spec in Hv. lia.
      * intros fuel grid Hf. destruct fuel as [| fuel]; [lia | ].
        cbn [slant_seed_loop]. rewrite Hlow, Hloop by (cbn in Hf; lia).
        rewrite <- app_assoc. reflexivity.
    + cbn [orb] in Hc. destruct (small_digit_value c Hc) as (v & Hv & Hr).
      exists (v :: g). split; [constructor; [lia | exact Hg] | ].
      intros fuel grid Hf. destruct fuel as [| fuel]; [lia | ].
      cbn [slant_seed_loop]. rewrite Hlow, Hc, Hv. cbn [raise_none bind].
      rewrite Hloop by (cbn in Hf; lia). rewrite <- app_assoc. reflexivity.
Qed.

Lemma slant_loop_diverges :
  forall fuel seed grid,
    all_chars slant_token seed = false ->
    slant_seed_loop fuel seed grid = OutOfFuel.
Proof.
  induction fuel as [| fuel IH]; intros seed grid Hall; [reflexivity | ].
  cbn [slant_seed_loop]. destruct seed as [| c rest]; [discriminate Hall | ].
  cbn [all_chars] in Hall. unfold slant_token in Hall.
  destruct (in_str c lowercase) eqn:Hlow.
  - apply IH. exact Hall.
  - destruct (in_str c "01234") eqn:Hd.
    + destruct (small_digit_value c Hd) as (v & Hv & _). rewrite Hv.
      cbn [raise_none bind]. apply IH. exact Hall.
    + apply IH. cbn [all_chars]. unfold slant_token. rewrite Hlow, Hd. reflexivity.
Qed.

Lemma lightup_loop_total :
  forall seed,
    all_chars lightup_token seed = true ->
    exists g,
      Forall (fun v => -2 <= v <= 4) g
      /\ forall fuel grid,
           (String.length seed < fuel)%nat ->
           lightup_seed_loop fuel seed grid = Ok (grid ++ g).
Proof.
  induction seed as [| c rest IH]; intro Hall.
  - exists []. split; [constructor | ].
    intros fuel grid Hf. destruct fuel; [lia | ]. cbn. rewrite app_nil_r. reflexivity.
  - cbn [all_chars] in Hall. apply andb_true_iff in Hall.
    destruct Hall as [Hc Hrest]. destruct (IH Hrest) as (g & Hg & Hloop).
    unfold lightup_token in Hc. destruct (in_str c lowercase) eqn:Hlow.
    + exists (list_mul (-2) (ord c - ord "a"%char + 1) ++ g). split.
      * apply Forall_app. split; [ | exact Hg].
        unfold list_mul. apply Forall_forall. intros v Hv.
        apply repeat_spec in Hv. lia.
      * intros fuel grid Hf. destruct fuel as [| fuel]; [lia | ].
        cbn [lightup_seed_loop]. rewrite Hlow, Hloop by (cbn in Hf; lia).
        rewrite <- app_assoc. reflexivity.
    + cbn [orb] in Hc. destruct (Ascii.eqb c "B") eqn:HB.
      * exists (-1 :: g). split; [constructor; [lia | exact Hg] | ].
        intros fuel grid Hf. destruct fuel as [| fuel]; [lia | ].
        cbn [lightup_seed_loop]. rewrite Hlow, HB, Hloop by (cbn in Hf; lia).
        rewrite <- app_assoc. reflexivity.
      * cbn [orb] in Hc. destruct (small_digit_value c Hc) as (v & Hv & Hr).
        exists (v :: g). split; [constructor; [lia | exact Hg] | ].
        intros fuel grid Hf. destruct fuel as [| fuel]; [lia | ].
        cbn [lightup_seed_loop]. rewrite Hlow, HB, Hc, Hv. cbn [raise_none bind].
        rewrite Hloop by (cbn in Hf; lia). rewrite <- app_assoc. reflexivity.
Qed.

Lemma lightup_loop_diverges :
  forall fuel seed grid,
    all_chars lightup_token seed = false ->
    lightup_seed_loop fuel seed grid = OutOfFuel.
Proof.
  induction fuel as [| fuel IH]; intros seed grid Hall; [reflexivity | ].
  cbn [lightup_seed_loop]. destruct seed as [| c rest]; [discriminate Hall | ].
  cbn [all_chars] in Hall. unfold lightup_token in Hall.
  destruct (in_str c lowercase) eqn:Hlow.
  - apply IH. exact Hall.
  - destruct (Ascii.eqb c "B") eqn:HB.
    + apply IH. exact Hall.
    + destruct (in_str c "01234") eqn:Hd.
      * destruct (small_digit_value c Hd) as (v & Hv & _). rewrite Hv.
        cbn [raise_none bind]. apply IH. exact Hall.
      * apply IH. cbn [all_chars]. unfold lightup_token.
        rewrite Hlow, HB, Hd. reflexivity.
Qed.

(** The seed loops of slant and lightup never raise.  A slant seed made
    of lowercase letters and the digits 0 to 4 decodes, whatever the
    number of turns allowed beyond its length, to cells between -1 and 4;
    a lightup seed made of lowercase letters, [B] and the digits 0 to 4
    decodes to cells between -2 and 4; any other seed keeps the loop
    running for ever. *)
Theorem slant_lightup_loops_return (seed : string) :
  (all_chars slant_token seed = true ->
   exists g,
     Forall (fun v => -1 <= v <= 4) g
     /\ forall fuel grid,
          (String.length seed < fuel)%nat ->
          slant_seed_loop fuel seed grid = Ok (grid ++ g))
  /\ (all_chars slant_token seed = false ->
      forall fuel grid, slant_seed_loop fuel seed grid = OutOfFuel)
  /\ (all_chars lightup_token seed = true ->
      exists g,
        Forall (fun v => -2 <= v <= 4) g
        /\ forall fuel grid,
             (String.length seed < fuel)%nat ->
             lightup_seed_loop fuel seed grid = Ok (grid ++ g))
  /\ (all_chars lightup_token seed = false ->
      forall fuel grid, lightup_seed_loop fuel seed grid = OutOfFuel).
Proof.
  split; [exact (slant_loop_total seed) | ].
  split; [intros H fuel grid; apply slant_loop_diverges; exact H | ].
  split; [exact (lightup_loop_total seed) | ].
  intros H fuel grid. apply lightup_loop_diverges. exact H.
Qed.

Lemma slant_lightup_loops_return_witness :
  (exists g,
     Forall (fun v => -1 <= v <= 4) g
     /\ forall fuel grid,
          (String.length "a1c4" < fuel)%nat ->
          slant_seed_loop fuel "a1c4" grid = Ok (grid ++ g))
  /\ (forall fuel grid, slant_seed_loop fuel "a1B4" grid = OutOfFuel)
  /\ (exists g,
        Forall (fun v => -2 <= v <= 4) g
        /\ forall fuel grid,
             (String.length "a1B4" < fuel)%nat ->
             lightup_seed_loop fuel "a1B4" grid = Ok (grid ++ g))
  /\ (forall fuel grid, lightup_seed_loop fuel "a1B7" grid = OutOfFuel).
Proof.
  split; [apply (proj1 (slant_lightup_loops_return "a1c4")); reflexivity | ].
  split; [apply (proj1 (proj2 (slant_lightup_loops_return "a1B4"))); reflexivity | ].
  split.
  - apply (proj1 (proj2 (proj2 (slant_lightup_loops_return "a1B4")))). reflexivity.
  - apply (proj2 (proj2 (proj2 (slant_lightup_loops_return "a1B7")))). reflexivity.
Defined.

(** ** Net and dominosa seeds *)

Lemma atoi16_range (c : ascii) (n : Z) : atoi16 c = Some n -> 0 <= n <= 15.
Proof.
  unfold atoi16. destruct (in_str c digits) eqn:Hd.
  - intro H. inversion H; subst n. clear H.
    change (is_digit c = true) in Hd. digit_split Hd; vm_compute; split; discriminate.
  - destruct (in_str c "abcdef") eqn:Hl.
    + intro H. inversion H; subst n. clear H Hd. cbn [in_str] in Hl.
      repeat match type of Hl with
      | (Ascii.eqb c ?d || _)%bool = true =>
          apply orb_true_iff in Hl; destruct Hl as [Hl | Hl];
          [apply Ascii.eqb_eq in Hl; subst c; vm_compute; split; discriminate | ]
      end.
      discriminate Hl.
    + destruct (in_str c "ABCDEF") eqn:Hu; [ | discriminate].
      intro H. inversion H; subst n. clear H Hd Hl. cbn [in_str] in Hu.
      repeat match type of Hu with
      | (Ascii.eqb c ?d || _)%bool = true =>
          apply orb_true_iff in Hu; destruct Hu as [Hu | Hu];
          [apply Ascii.eqb_eq in Hu; subst c; vm_compute; split; discriminate | ]
      end.
      discriminate Hu.
Qed.

Lemma barrier_at_mono (w L L' dx dy : Z) (b : Z * Z) :
  L <= L' -> barrier_at w L dx dy b -> barrier_at w L' dx dy b.
Proof. intros H (i & Hi & Hx & Hy). exists i. repeat split; try assumption; lia. Qed.

Lemma net_barriers_inv (w glen : Z) :
  0 <= glen ->
  forall seed hb vb seed' hb' vb',
    net_barriers w glen seed hb vb = Ok (seed', hb', vb') ->
    Forall (barrier_at w (glen + 1) 0 1) hb ->
    Forall (barrier_at w (glen + 1) 1 0) vb ->
    Forall (barrier_at w (glen + 1) 0 1) hb'
    /\ Forall (barrier_at w (glen + 1) 1 0) vb'
    /\ (String.length seed' <= String.length seed)%nat.
Proof.
  intro Hg. induction seed as [| c rest IH]; intros hb vb seed' hb' vb' H Hh Hv;
    cbn [net_barriers] in H.
  - inversion H; subst. repeat split; try assumption. lia.
  - destruct (in_str c "hv").
    + destruct (w =? 0); [discriminate | ].
      destruct (Ascii.eqb c "h").
      * apply IH in H; [ | | exact Hv].
        -- destruct H as (H1 & H2 & H3). repeat split; try assumption. cbn. lia.
        -- apply Forall_app. split; [exact Hh | ]. constructor; [ | constructor].
           exists glen. cbn [fst snd]. repeat split; lia.
      * apply IH in H; [ | exact Hh | ].
        -- destruct H as (H1 & H2 & H3). repeat split; try assumption. cbn. lia.
        -- apply Forall_app. split; [exact Hv | ]. constructor; [ | constructor].
           exists glen. cbn [fst snd]. repeat split; lia.
    + inversion H; subst. repeat split; try assumption. lia.
Qed.

Lemma net_barriers_returns (w glen : Z) :
  forall seed hb vb, net_barriers w glen seed hb vb <> OutOfFuel.
Proof.
  induction seed as [| c rest IH]; intros hb vb; cbn [net_barriers];
    [discriminate | ].
  destruct (in_str c "hv"); [ | discriminate].
  destruct (w =? 0); [discriminate | ].
  destruct (Ascii.eqb c "h"); apply IH.
Qed.

Lemma net_loop_inv (w : Z) :
  forall fuel seed grid hb vb grid' hb' vb',
    net_seed_loop fuel w seed grid hb vb = Ok (grid', hb', vb') ->
    Forall (fun v => 0 <= v <= 15) grid ->
    Forall (barrier_at w (len grid) 0 1) hb ->
    Forall (barrier_at w (len grid) 1 0) vb ->
    Forall (fun v => 0 <= v <= 15) grid'
    /\ Forall (barrier_at w (len grid') 0 1) hb'
    /\ Forall (barrier_at w (len grid') 1 0) vb'.
Proof.
  induction fuel as [| fuel IH]; intros seed grid hb vb grid' hb' vb' H Hg Hh Hv;
    cbn [net_seed_loop] in H; [discriminate | ].
  destruct seed as [| c rest].
  - inversion H; subst. repeat split; assumption.
  - destruct (atoi16 c) as [n | ] eqn:En; cbn [raise_none bind] in H;
      [ | discriminate].
    destruct (net_barriers w (len grid) rest hb vb) as [[[s1 hb1] vb1] | e | ] eqn:Eb;
      cbn [bind] in H; try discriminate.
    pose proof (len_nonneg grid) as Hlen.
    destruct (net_barriers_inv w (len grid) Hlen rest hb vb s1 hb1 vb1 Eb)
      as (Hh1 & Hv1 & _).
    { eapply Forall_impl; [ | exact Hh]. intro b. apply barrier_at_mono. lia. }
    { eapply Forall_impl; [ | exact Hv]. intro b. apply barrier_at_mono. lia. }
    apply IH in H; [exact H | | | ].
    + apply Forall_app. split; [exact Hg | ].
      constructor; [exact (atoi16_range c n En) | constructor].
    + rewrite len_app. exact Hh1.
    + rewrite len_app. exact Hv1.
Qed.

Lemma net_barriers_length (w glen : Z) :
  forall seed hb vb seed' hb' vb',
    net_barriers w glen seed hb vb = Ok (seed', hb', vb') ->
    (String.length seed' <= String.length seed)%nat.
Proof.
  induction seed as [| c rest IH]; intros hb vb seed' hb' vb' H;
    cbn [net_barriers] in H.
  - inversion H; subst. lia.
  - destruct (in_str c "hv").
    + destruct (w =? 0); [discriminate | ].
      destruct (Ascii.eqb c "h"); apply IH in H; cbn; lia.
    + inversion H; subst. lia.
Qed.

Lemma net_loop_returns (w : Z) :
  forall fuel seed grid hb vb,
    (String.length seed < fuel)%nat ->
    net_seed_loop fuel w seed grid hb vb <> OutOfFuel.
Proof.
  induction fuel as [| fuel IH]; intros seed grid hb vb Hf; [lia | ].
  cbn [net_seed_loop]. destruct seed as [| c rest]; [discriminate | ].
  destruct (atoi16 c) as [n | ]; cbn [raise_none bind]; [ | discriminate].
  destruct (net_barriers w (len grid) rest hb vb) as [[[s1 hb1] vb1] | e | ] eqn:Eb;
    cbn [bind]; try discriminate.
  - apply IH.
    pose proof (net_barriers_length w (len grid) rest hb vb s1 hb1 vb1 Eb).
    cbn in Hf. lia.
  - exfalso. exact (net_barriers_returns w (len grid) rest hb vb Eb).
Qed.

Lemma canonical_form_values (v : Z) :
  0 <= v <= 15 -> In (canonical_form v) [0; 1; 5; 9; 13; 15].
Proof.
  intro H.
  assert (E : v = 0 \/ v = 1 \/ v = 2 \/ v = 3 \/ v = 4 \/ v = 5 \/ v = 6
              \/ v = 7 \/ v = 8 \/ v = 9 \/ v = 10 \/ v = 11 \/ v = 12
              \/ v = 13 \/ v = 14 \/ v = 15) by lia.
  repeat (destruct E as [E | E]; [subst v; simpl; tauto | ]).
  subst v. simpl. tauto.
Qed.

(** A net descriptor that decodes gives cells that are 4-bit codes, whose
    canonical forms are among 0, 1, 5, 9, 13 and 15; and when the width is
    positive every barrier lies on an edge of a cell of the grid: an [h]
    barrier under it, a [v] barrier on its right. *)
Theorem net_grid_well_formed (fuel : nat) (s : string) (g : net_grid) :
  net_decode fuel s = Ok g ->
  Forall (fun v => 0 <= v <= 15) (net_cells g)
  /\ Forall (fun v => In (canonical_form v) [0; 1; 5; 9; 13; 15]) (net_cells g)
  /\ (0 < net_w g ->
      Forall (fun b => 0 <= fst b < net_w g /\ 1 <= snd b <= net_h g)
        (net_hbarriers g)
      /\ Forall (fun b => 1 <= fst b <= net_w g /\ 0 <= snd b < net_h g)
           (net_vbarriers g)).
Proof.
  unfold net_decode. intro H. bind_inv H.
  apply py_assert_Ok, Z.eqb_eq in Ha2. inversion H; subst g; clear H.
  cbn [net_cells net_w net_h net_hbarriers net_vbarriers].
  apply net_loop_inv in Ha1; [ | constructor | constructor | constructor].
  destruct Ha1 as (Hc & Hh & Hv).
  split; [exact Hc | ]. split.
  - eapply Forall_impl; [ | exact Hc]. exact canonical_form_values.
  - intro Hw. rewrite <- Ha2 in Hh, Hv. split.
    + eapply Forall_impl; [ | exact Hh].
      intros b (i & Hi & Hx & Hy).
      pose proof (Z.mod_pos_bound i z Hw).
      assert (0 <= i / z < z0).
      { split; [apply Z.div_pos; lia | apply Z.div_lt_upper_bound; lia]. }
      lia.
    + eapply Forall_impl; [ | exact Hv].
      intros b (i & Hi & Hx & Hy).
      pose proof (Z.mod_pos_bound i z Hw).
      assert (0 <= i / z < z0).
      { split; [apply Z.div_pos; lia | apply Z.div_lt_upper_bound; lia]. }
      lia.
Qed.

Lemma net_grid_well_formed_witness :
  Forall (fun v => 0 <= v <= 15) [1; 15; 10; 3]
  /\ Forall (fun v => In (canonical_form v) [0; 1; 5; 9; 13; 15]) [1; 15; 10; 3]
  /\ (0 < 2 ->
      Forall (fun b => 0 <= fst b < 2 /\ 1 <= snd b <= 2) [(0, 1)]
      /\ Forall (fun b => 1 <= fst b <= 2 /\ 0 <= snd b < 2) [(2, 0); (1, 1)]).
Proof.
  exact (net_grid_well_formed 5 "2x2:1hfvav3"
           (NetGrid false 2 2 [1; 15; 10; 3] [(0, 1)] [(2, 0); (1, 1)]) eq_refl).
Defined.

Lemma unpack2_Ok {A : Type} (l : list A) (a b : A) :
  unpack2 l = Ok (a, b) -> l = [a; b].
Proof.
  destruct l as [| x [| y [| z l']]]; cbn; intro H; try discriminate.
  inversion H. reflexivity.
Qed.

Lemma split_id_length (s params seed : string) :
  split_id s = Ok (params, seed) ->
  (String.length seed < String.length s)%nat.
Proof.
  unfold split_id. intro H. apply unpack2_Ok, split_two in H. subst s.
  rewrite append_length. cbn. lia.
Qed.

Lemma split_app (sep : ascii) (a b : string) :
  split (a ++ String sep b)%string sep = split a sep ++ split b sep.
Proof.
  induction a as [| c a' IH]; cbn [append split].
  - rewrite Ascii.eqb_refl. reflexivity.
  - destruct (Ascii.eqb c sep); rewrite IH; [reflexivity | ].
    destruct (split a' sep) as [| f fs] eqn:E; [ | reflexivity].
    exfalso. exact (split_not_nil a' sep E).
Qed.

Lemma dominosa_loop_returns :
  forall fuel seed grid,
    (String.length seed < fuel)%nat ->
    dominosa_seed_loop fuel seed grid <> OutOfFuel.
Proof.
  induction fuel as [| fuel IH]; intros seed grid Hf; [lia | ].
  cbn [dominosa_seed_loop]. destruct seed as [| c rest]; [discriminate | ].
  destruct (Ascii.eqb c "[").
  - destruct (unpack2 (split rest "]")) as [[d seed'] | e | ] eqn:Eu;
      cbn [bind]; try discriminate.
    + destruct (atoi d); cbn [raise_none bind]; [ | discriminate].
      apply IH. apply unpack2_Ok, split_two in Eu.
      apply (f_equal String.length) in Eu. rewrite append_length in Eu.
      cbn [String.length] in Eu, Hf. lia.
    + destruct (split rest "]") as [| x [| y [| z l']]]; discriminate Eu.
  - destruct (in_str c digits); cbn [py_assert bind]; [ | discriminate].
    destruct (atoi (String c EmptyString)); cbn [raise_none bind]; [ | discriminate].
    apply IH. cbn in Hf. lia.
Qed.

Lemma parse_dims_returns (params : string) : parse_dims params <> OutOfFuel.
Proof.
  destruct (parse_dims_cases params) as [(w & h & ->) | ->]; discriminate.
Qed.

Lemma split_id_returns (s : string) : split_id s <> OutOfFuel.
Proof.
  unfold split_id. destruct (split s ":") as [| x [| y [| z l']]]; discriminate.
Qed.

(** Decoding a net, dominosa or pattern descriptor always comes to an
    end: given more turns than the descriptor has characters, the seed
    loops of net and dominosa return or raise, and pattern has no loop
    that could go on. *)
Theorem net_dominosa_pattern_terminate (fuel : nat) (s : string) :
  (String.length s < fuel)%nat ->
  net_format fuel s <> OutOfFuel
  /\ dominosa_format fuel s <> OutOfFuel
  /\ pattern_format fuel s <> OutOfFuel.
Proof.
  intro Hf. split; [ | split].
  - unfold net_format, net_decode.
    destruct (split_id s) as [[params seed] | e | ] eqn:Es; cbn [bind];
      [ | discriminate | exfalso; exact (split_id_returns s Es) ].
    destruct (parse_dims (if ends_in_w params then drop_last params else params))
      as [[w h] | e | ] eqn:Ep; cbn [bind];
      [ | discriminate | exfalso; exact (parse_dims_returns _ Ep) ].
    pose proof (split_id_length s params seed Es) as Hl.
    destruct (net_seed_loop fuel w seed [] [] []) as [[[grid hb] vb] | e | ] eqn:El;
      cbn [bind]; [ | discriminate | ].
    + destruct (w * h =? len grid); cbn; discriminate.
    + exfalso. apply (net_loop_returns w fuel seed [] [] []); [lia | exact El].
  - unfold dominosa_format, dominosa_decode.
    destruct (split_id s) as [[params seed] | e | ] eqn:Es; cbn [bind];
      [ | discriminate | exfalso; exact (split_id_returns s Es) ].
    destruct (atoi params); cbn [raise_none bind]; [ | discriminate].
    pose proof (split_id_length s params seed Es) as Hl.
    destruct (dominosa_seed_loop fuel seed []) as [grid | e | ] eqn:El;
      cbn [bind]; [ | discriminate | ].
    + destruct ((z + 2) * (z + 1) =? len grid); cbn; discriminate.
    + exfalso. apply (dominosa_loop_returns fuel seed []); [lia | exact El].
  - unfold pattern_format, pattern_decode.
    destruct (split_id s) as [[params seed] | e | ] eqn:Es; cbn [bind];
      [ | discriminate | exfalso; exact (split_id_returns s Es) ].
    destruct (parse_dims params) as [[w h] | e | ] eqn:Ep; cbn [bind];
      [ | discriminate | exfalso; exact (parse_dims_returns _ Ep) ].
    destruct (len (map (fun s0 => split s0 ".") (split seed "/")) =? w + h);
      cbn [py_assert bind]; [ | discriminate].
    unfold pattern_draw. cbv zeta.
    destruct (reduce1 Z.max (map len (slice_from _ w))) as [xb | e | ] eqn:E1;
      cbn [bind];
      [ | discriminate | destruct (slice_from _ w); discriminate E1 ].
    destruct (reduce1 Z.max (map len (slice_to _ w))) as [yb | e | ] eqn:E2;
      cbn [bind]; [discriminate | discriminate | ].
    destruct (slice_to _ w); discriminate E2.
Qed.

Lemma net_dominosa_pattern_terminate_witness :
  net_format 8 "1x1:1hg" <> OutOfFuel
  /\ dominosa_format 8 "1:0[1" <> OutOfFuel
  /\ pattern_format 8 "1x1:1/1" <> OutOfFuel.
Proof.
  split; [ | split].
  - apply (net_dominosa_pattern_terminate 8 "1x1:1hg"). cbn. lia.
  - apply (net_dominosa_pattern_terminate 8 "1:0[1"). cbn. lia.
  - apply (net_dominosa_pattern_terminate 8 "1x1:1/1"). cbn. lia.
Defined.

(** The bracketed tag of a dominosa seed: what follows the opening
    bracket is split at every closing bracket and must give exactly two
    parts.  So a bracket that is never closed is a [ValueError], and so
    is any bracketed tag that another closing bracket follows, anywhere
    later in the seed: at most one tag of a seed can be bracketed. *)
Theorem dominosa_one_bracket_only (fuel : nat) (grid : list Z) :
  (forall rest,
     lacks "]" rest ->
     dominosa_seed_loop (S fuel) (String "[" rest) grid = Raise ValueError)
  /\ (forall d mid tail,
        dominosa_seed_loop (S fuel)
          (String "[" (d ++ String "]" (mid ++ String "]" tail)))%string grid
        = Raise ValueError).
Proof.
  split.
  - intros rest H. cbn [dominosa_seed_loop].
    change (Ascii.eqb "[" "[") with true. cbv iota.
    rewrite (split_lacking "]" rest H). reflexivity.
  - intros d mid tail. cbn [dominosa_seed_loop].
    change (Ascii.eqb "[" "[") with true. cbv iota.
    rewrite !split_app.
    destruct (split d "]") as [| d1 ds] eqn:E1;
      [exfalso; exact (split_not_nil _ _ E1) | ].
    destruct (split mid "]") as [| m1 ms] eqn:E2;
      [exfalso; exact (split_not_nil _ _ E2) | ].
    destruct (split tail "]") as [| t1 ts] eqn:E3;
      [exfalso; exact (split_not_nil _ _ E3) | ].
    destruct ds as [| d2 ds]; [ | destruct ds; reflexivity].
    destruct ms; reflexivity.
Qed.

Lemma dominosa_one_bracket_only_witness :
  dominosa_seed_loop 3 "[12" [] = Raise ValueError.
Proof.
  apply (proj1 (dominosa_one_bracket_only 2 []) "12"). reflexivity.
Defined.

(** * Further properties of the main program *)

(** ** How a run ends *)

Lemma page_loop_ends (fuel : nat) (fmt : formatter) (ids : list string)
    (xx yy : Z) :
  forall nums pidx out,
    let r := page_loop fuel fmt ids xx yy nums pidx out in
    (status r = Exit 0 /\ stderr r = []
     /\ exists body, stdout r = out ++ body ++ [[Lit "%%EOF"]])
    \/ (status r = Exit 1 /\ (exists e, stderr r = [Uncaught e])
        /\ exists body, stdout r = out ++ body ++ [[Lit "save"]])
    \/ (status r = Hang /\ stderr r = []
        /\ exists body, stdout r = out ++ body ++ [[Lit "save"]]).
Proof.
  induction nums as [| i nums IH]; intros pidx out; cbn [page_loop].
  - left. split; [reflexivity | ]. split; [reflexivity | ].
    exists []. reflexivity.
  - destruct (fill_page fuel fmt ids xx yy pidx) as [st | e | ].
    + specialize (IH (puzzle_index st)
        ((out ++ [[Lit "%%Page:"; Str i; Str i]; [Lit "save"]])
         ++ emit_page xx yy st ++ [[Lit "restore showpage"]])).
      cbv zeta in IH.
      destruct IH as [(Hs & He & body & Hb) | [(Hs & He & body & Hb)
                                              | (Hs & He & body & Hb)]];
        [left | right; left | right; right];
        (split; [exact Hs | ]); (split; [exact He | ]);
        exists ([[Lit "%%Page:"; Str i; Str i]; [Lit "save"]]
                ++ emit_page xx yy st ++ [[Lit "restore showpage"]] ++ body);
        rewrite Hb; repeat rewrite <- List.app_assoc; reflexivity.
    + right. left. unfold uncaught. cbn [status stdout stderr].
      split; [reflexivity | ]. split; [exists e; reflexivity | ].
      exists [[Lit "%%Page:"; Str i; Str i]]. reflexivity.
    + right. right. cbn [status stdout stderr].
      split; [reflexivity | ]. split; [reflexivity | ].
      exists [[Lit "%%Page:"; Str i; Str i]]. reflexivity.
Qed.

Lemma read_ids_returns (stdin : string) :
  exists ids, read_ids stdin = Ok ids.
Proof. eexists. apply read_ids_lines. Qed.

(** The ways a run of [main] can go. *)
Lemma main_cases (fuel : nat) (argv : list string) (stdin : string) :
  let r := main fuel argv stdin in
  (* a usage error *)
  (wrong_arguments argv
   /\ status r = Exit 1 /\ stdout r = []
   /\ (exists l, stderr r = [Message l])
   /\ forall fuel' stdin', main fuel' argv stdin' = r)
  (* a layout of no cells *)
  \/ (~ wrong_arguments argv
      /\ r = Run [] [Uncaught ZeroDivisionError] (Exit 1))
  (* the page loop *)
  \/ (~ wrong_arguments argv
      /\ ((status r = Exit 0 /\ stderr r = []
           /\ exists body, stdout r = body ++ [[Lit "%%EOF"]])
          \/ (status r = Exit 1 /\ (exists e, stderr r = [Uncaught e])
              /\ exists body, stdout r = body ++ [[Lit "save"]])
          \/ (status r = Hang /\ stderr r = []
              /\ exists body, stdout r = body ++ [[Lit "save"]]))).
Proof.
  cbv zeta. unfold wrong_arguments, main.
  destruct (len argv <? 3) eqn:E3.
  { left. apply Z.ltb_lt in E3. cbn [status stdout stderr].
    split; [left; exact E3 | ]. repeat split. eexists. reflexivity. }
  apply Z.ltb_ge in E3.
  destruct (formatters (index argv 1 EmptyString)) as [fmt | ] eqn:Ef.
  2:{ left. cbn [status stdout stderr].
      split; [right; left; reflexivity | ]. repeat split. eexists. reflexivity. }
  destruct (len (parse_format (index argv 2 EmptyString)) =? 2) eqn:El;
    cbn [negb].
  2:{ left. apply Z.eqb_neq in El. cbn [status stdout stderr].
      split; [right; right; exact El | ]. repeat split. eexists. reflexivity. }
  apply Z.eqb_eq in El.
  assert (Hok : ~ (len argv < 3 \/ Some fmt = None
                   \/ len (parse_format (index argv 2 EmptyString)) <> 2)).
  { intros [H | [H | H]]; [lia | discriminate | contradiction]. }
  destruct (read_ids_returns stdin) as [ids ->].
  destruct (_ =? 0) eqn:Ez.
  - right. left. split; [exact Hok | reflexivity].
  - right. right. split; [exact Hok | ].
    match goal with
    | |- context [page_loop ?f ?m ?i ?x ?y ?n ?p ?o] =>
        pose proof (page_loop_ends f m i x y n p o) as H
    end.
    cbv zeta in H.
    destruct H as [(Hs & He & body & Hb) | [(Hs & He & body & Hb)
                                           | (Hs & He & body & Hb)]];
      [left | right; left | right; right];
      (split; [exact Hs | ]); (split; [exact He | ]);
      eexists; rewrite Hb; rewrite app_assoc; reflexivity.
Qed.

(** The arguments are wrong when there are fewer than two, when the
    game is not in the table, or when the layout is not two integers
    around an [x].  A run with wrong arguments writes one line of its
    own on the error stream and ends with exit status 1, having printed
    nothing and without reading the input; no other run writes a line
    of its own there.  With arguments that pass, the error stream stays
    empty, or holds the traceback of an uncaught exception, and then
    the exit status is 1 as well: exit status 1 is the end of the runs
    with wrong arguments and of those that an exception ends, and of no
    other. *)
Theorem usage_errors (fuel : nat) (argv : list string) (stdin : string) :
  let r := main fuel argv stdin in
  (wrong_arguments argv <-> exists l, stderr r = [Message l])
  /\ (wrong_arguments argv ->
      status r = Exit 1 /\ stdout r = []
      /\ forall fuel' stdin', main fuel' argv stdin' = r)
  /\ (~ wrong_arguments argv ->
      (stderr r = [] /\ status r <> Exit 1)
      \/ (exists e, stderr r = [Uncaught e]) /\ status r = Exit 1)
  /\ (status r = Exit 1 <->
      wrong_arguments argv \/ exists e, stderr r = [Uncaught e]).
Proof.
  pose proof (main_cases fuel argv stdin) as H. cbv zeta in *.
  destruct H as [(Hbad & Hs & Ho & [l He] & Hi) | [[Hok Hr] | [Hok H]]].
  - split; [split; [intros _; exists l; exact He | intros _; exact Hbad] | ].
    split; [intros _; repeat split; assumption | ].
    split; [intro Hn; contradiction | ].
    split; [intros _; left; exact Hbad | intros _; exact Hs].
  - rewrite Hr. cbn [status stdout stderr].
    split; [split; [intro; contradiction | intros [l E]; discriminate E] | ].
    split; [intro; contradiction | ].
    split; [intros _; right; split; [eexists; reflexivity | reflexivity] | ].
    split; [intros _; right; eexists; reflexivity | reflexivity].
  - destruct H as [(Hs & He & _) | [(Hs & [e He] & _) | (Hs & He & _)]].
    + rewrite Hs, He.
      split; [split; [intro; contradiction | intros [l E]; discriminate E] | ].
      split; [intro; contradiction | ].
      split; [intros _; left; split; [reflexivity | discriminate] | ].
      split; [discriminate | ].
      intros [Hb | [e E]]; [contradiction | discriminate E].
    + rewrite Hs, He.
      split; [split; [intro; contradiction | intros [l E]; discriminate E] | ].
      split; [intro; contradiction | ].
      split; [intros _; right; split; [eexists; reflexivity | reflexivity] | ].
      split; [intros _; right; eexists; reflexivity | reflexivity].
    + rewrite Hs, He.
      split; [split; [intro; contradiction | intros [l E]; discriminate E] | ].
      split; [intro; contradiction | ].
      split; [intros _; left; split; [reflexivity | discriminate] | ].
      split; [discriminate | ].
      intros [Hb | [e E]]; [contradiction | discriminate E].
Qed.

Lemma usage_errors_witness :
  (status (main 0 ["print.py"; "rect"; "2by3"] "1x1:a") = Exit 1
   /\ stdout (main 0 ["print.py"; "rect"; "2by3"] "1x1:a") = []
   /\ forall fuel' stdin',
        main fuel' ["print.py"; "rect"; "2by3"] stdin'
        = main 0 ["print.py"; "rect"; "2by3"] "1x1:a")
  /\ ((exists e, stderr (main 3 ["print.py"; "rect"; "1x1"] "1x1:aa")
                 = [Uncaught e])
      /\ status (main 3 ["print.py"; "rect"; "1x1"] "1x1:aa") = Exit 1).
Proof.
  split.
  - apply (proj1 (proj2 (usage_errors 0 ["print.py"; "rect"; "2by3"] "1x1:a"))).
    right. right. vm_compute. discriminate.
  - assert (Hok : ~ wrong_arguments ["print.py"; "rect"; "1x1"]).
    { intros [H | [H | H]];
        [vm_compute in H; discriminate H | vm_compute in H; discriminate H
         | apply H; reflexivity]. }
    destruct (proj1 (proj2 (proj2
               (usage_errors 3 ["print.py"; "rect"; "1x1"] "1x1:aa"))) Hok)
      as [[He _] | H].
    + vm_compute in He. discriminate He.
    + exact H.
Defined.

(** The trailer is printed by the runs that end with exit status 0 and
    by no other: a run that does not end so has printed nothing at all,
    or stops right after the [save] that opens a page, with neither the
    [restore showpage] of that page nor the trailer. *)
Theorem trailer_only_on_success (fuel : nat) (argv : list string)
    (stdin : string) :
  let r := main fuel argv stdin in
  (status r = Exit 0 <-> exists body, stdout r = body ++ [[Lit "%%EOF"]])
  /\ (status r <> Exit 0 ->
      stdout r = [] \/ exists body, stdout r = body ++ [[Lit "save"]]).
Proof.
  pose proof (main_cases fuel argv stdin) as H. cbv zeta in *.
  assert (Hnil : forall body l, @nil psline = body ++ [l] -> False).
  { intros body l E. destruct body; discriminate E. }
  assert (Hlast : forall b1 b2 : list psline,
             b1 ++ [[Lit "save"]] = b2 ++ [[Lit "%%EOF"]] -> False).
  { intros b1 b2 E. apply app_inj_tail in E. destruct E as [_ E].
    discriminate E. }
  destruct H as [(Hbad & Hs & Ho & He & Hi) | [[Hok Hr] | [Hok H]]].
  - rewrite Hs, Ho. split; [split | ].
    + discriminate.
    + intros [body E]. exfalso. exact (Hnil _ _ E).
    + intros _. left. reflexivity.
  - rewrite Hr. cbn [status stdout]. split; [split | ].
    + discriminate.
    + intros [body E]. exfalso. exact (Hnil _ _ E).
    + intros _. left. reflexivity.
  - destruct H as [(Hs & _ & Hb) | [(Hs & _ & body & Hb) | (Hs & _ & body & Hb)]].
    + split; [tauto | ]. intro Hn. contradiction.
    + split; [split | ].
      * rewrite Hs. discriminate.
      * intros [b2 E]. rewrite Hb in E. exfalso. exact (Hlast _ _ E).
      * intros _. right. exists body. exact Hb.
    + split; [split | ].
      * rewrite Hs. discriminate.
      * intros [b2 E]. rewrite Hb in E. exfalso. exact (Hlast _ _ E).
      * intros _. right. exists body. exact Hb.
Qed.

Lemma trailer_only_on_success_witness :
  stdout (main 3 ["print.py"; "rect"; "1x1"] "1x1:aa") = []
  \/ exists body,
       stdout (main 3 ["print.py"; "rect"; "1x1"] "1x1:aa")
       = body ++ [[Lit "save"]].
Proof.
  apply (proj2 (trailer_only_on_success 3 ["print.py"; "rect"; "1x1"] "1x1:aa")).
  vm_compute. discriminate.
Defined.

(** ** Layouts without cells *)

Lemma fill_page_no_cells (fuel : nat) (fmt : formatter) (ids : list string)
    (xx yy pidx : Z) :
  xx <= 0 \/ yy <= 0 ->
  fill_page fuel fmt ids xx yy pidx = Ok (new_page xx yy pidx)
  /\ emit_page xx yy (new_page xx yy pidx) = [].
Proof.
  intro H. unfold fill_page, emit_page. destruct (Z_le_gt_dec yy 0) as [Hy | Hy].
  - rewrite (xrange_empty 0 yy) by lia. split; reflexivity.
  - assert (Hx : xx <= 0) by lia.
    generalize (new_page xx yy pidx) as st. generalize (xrange 0 yy) as ys.
    induction ys as [| y ys IH]; intro st; [split; reflexivity | ].
    cbn [fill_rows flat_map]. rewrite (xrange_empty 0 xx Hx).
    cbn [fill_row bind flat_map app]. rewrite (xrange_empty 0 xx Hx) in IH.
    exact (IH st).
Qed.

Lemma page_loop_no_cells (fuel : nat) (fmt : formatter) (ids : list string)
    (xx yy : Z) :
  xx <= 0 \/ yy <= 0 ->
  forall nums pidx out,
    page_loop fuel fmt ids xx yy nums pidx out
    = Run (out ++ empty_pages nums ++ [[Lit "%%EOF"]]) [] (Exit 0).
Proof.
  intro H. induction nums as [| i nums IH]; intros pidx out; cbn [page_loop].
  - reflexivity.
  - destruct (fill_page_no_cells fuel fmt ids xx yy pidx H) as [-> He].
    rewrite He, IH. unfold empty_pages, page_section. cbn [flat_map].
    repeat rewrite <- List.app_assoc. reflexivity.
Qed.

(** A layout that parses but has no cell.  When one of its numbers is
    zero the whole input is read and the page count then divides by
    zero: nothing is printed, the traceback of the [ZeroDivisionError]
    goes to the error stream and the exit status is 1.  When none is
    zero but one is negative, no descriptor is ever formatted: whatever
    the input holds, the run ends with exit status 0 on a document whose
    pages, as many as the page count comes to, are all empty. *)
Theorem layout_without_cells (fuel : nat) (prog name layout : string)
    (more : list string) (stdin : string) (fmt : formatter) (xx yy : Z) :
  formatters name = Some fmt ->
  parse_format layout = [xx; yy] ->
  xx <= 0 \/ yy <= 0 ->
  let r := main fuel (prog :: name :: layout :: more) stdin in
  let pages := (len (map chomp (lines stdin)) + xx * yy - 1) / (xx * yy) in
  (xx * yy = 0 -> r = Run [] [Uncaught ZeroDivisionError] (Exit 1))
  /\ (xx * yy <> 0 ->
      r = Run (preamble pages ++ empty_pages (xrange 1 (pages + 1))
               ++ [[Lit "%%EOF"]]) [] (Exit 0)).
Proof.
  intros Hf Hl Hc. cbv zeta. unfold main.
  assert (E3 : (len (prog :: name :: layout :: more) <? 3) = false).
  { apply Z.ltb_ge. rewrite !len_cons. pose proof (len_nonneg more). lia. }
  rewrite E3.
  change (index (prog :: name :: layout :: more) 1 EmptyString) with name.
  change (index (prog :: name :: layout :: more) 2 EmptyString) with layout.
  rewrite Hf, Hl. change (negb (len [xx; yy] =? 2)) with false. cbv iota.
  change (index [xx; yy] 0 0) with xx. change (index [xx; yy] 1 0) with yy.
  rewrite read_ids_lines. split; intro Hp.
  - rewrite Hp. reflexivity.
  - apply Z.eqb_neq in Hp. rewrite Hp.
    apply page_loop_no_cells. exact Hc.
Qed.

Lemma layout_without_cells_witness :
  main 0 ["print.py"; "rect"; "-1x-2"] "no descriptor"
  = Run (preamble 1 ++ empty_pages (xrange 1 2) ++ [[Lit "%%EOF"]]) [] (Exit 0).
Proof.
  refine (proj2 (layout_without_cells 0 "print.py" "rect" "-1x-2" []
                   "no descriptor" rect_format (-1) (-2)
                   eq_refl eq_refl _) _); [left | ]; lia.
Defined.

(** ** The read loop *)

Lemma lines_nil (s : string) : lines s = [] -> s = EmptyString.
Proof.
  destruct s as [| c s]; [reflexivity | ]. rewrite lines_cons.
  destruct (Ascii.eqb c newline); [discriminate | ].
  destruct (lines s); discriminate.
Qed.

Lemma lines_nonempty (s : string) : Forall (fun l => l <> EmptyString) (lines s).
Proof.
  induction s as [| c s IH]; [constructor | ]. rewrite lines_cons.
  destruct (Ascii.eqb c newline).
  - constructor; [discriminate | exact IH].
  - destruct (lines s) as [| l ls]; [repeat constructor; discriminate | ].
    inversion IH; subst. constructor; [discriminate | assumption].
Qed.

Lemma chomp_cons (c : ascii) (l : string) :
  l <> EmptyString -> chomp (String c l) = String c (chomp l).
Proof.
  intro H. destruct l as [| d l']; [contradiction | ].
  unfold chomp.
  change (last_char (String c (String d l'))) with (last_char (String d l')).
  destruct (last_char (String d l')) as [e | ]; [ | reflexivity].
  destruct (Ascii.eqb e newline); reflexivity.
Qed.

Lemma terminated_cons (c : ascii) (s : string) :
  s <> EmptyString -> terminated (String c s) = String c (terminated s).
Proof.
  intro H. destruct s as [| d s']; [contradiction | ].
  unfold terminated.
  change (last_char (String c (String d s'))) with (last_char (String d s')).
  destruct (last_char (String d s')) as [e | ] eqn:E.
  - destruct (Ascii.eqb e newline); reflexivity.
  - exfalso. clear H. revert d E. induction s' as [| d' s'' IH]; intros d E.
    + discriminate E.
    + cbn [last_char] in E. exact (IH d' E).
Qed.

Lemma unlines_lines (s : string) :
  unlines (map chomp (lines s)) = terminated s
  /\ Forall (lacks newline) (map chomp (lines s)).
Proof.
  induction s as [| c s [IH1 IH2]]; [split; [reflexivity | constructor] | ].
  rewrite lines_cons. destruct (Ascii.eqb c newline) eqn:Ec.
  - apply Ascii.eqb_eq in Ec. subst c. cbn [map].
    replace (chomp (String newline EmptyString)) with EmptyString by reflexivity.
    cbn [unlines append]. rewrite IH1. split.
    + destruct s as [| d s']; [reflexivity | ].
      rewrite (terminated_cons newline (String d s')) by discriminate.
      reflexivity.
    + constructor; [reflexivity | exact IH2].
  - destruct (lines s) as [| l ls] eqn:El.
    + apply lines_nil in El. subst s. cbn [map].
      assert (E : chomp (String c EmptyString) = String c EmptyString).
      { unfold chomp. cbn [last_char]. rewrite Ec. reflexivity. }
      rewrite E. split.
      * unfold terminated. cbn [last_char unlines]. rewrite Ec. reflexivity.
      * constructor; [ | constructor]. unfold lacks. cbn [in_str].
        rewrite Ascii.eqb_sym, Ec. reflexivity.
    + pose proof (lines_nonempty s) as Hn. rewrite El in Hn.
      inversion Hn as [| ? ? Hl Hls]; subst.
      cbn [map] in *. rewrite (chomp_cons c l Hl). cbn [unlines append] in *.
      rewrite IH1. split.
      * rewrite (terminated_cons c s); [reflexivity | ].
        intro E. subst s. discriminate El.
      * inversion IH2; subst. constructor; [ | assumption].
        unfold lacks in *. cbn [in_str]. rewrite Ascii.eqb_sym, Ec. assumption.
Qed.

(** The read loop always comes to an end, and loses nothing but line
    ends: no descriptor holds a newline, and writing the descriptors
    back one per line gives the input again, with a newline added after
    its last line when that line had none. *)
Theorem read_ids_round_trip (stdin : string) :
  exists ids,
    read_ids stdin = Ok ids
    /\ Forall (lacks newline) ids
    /\ unlines ids = terminated stdin.
Proof.
  exists (map chomp (lines stdin)). split; [apply read_ids_lines | ].
  destruct (unlines_lines stdin) as [H1 H2]. split; assumption.
Qed.

(** * Further properties of the drawing code *)

(** ** Loops over the cells of a grid *)

Lemma map_seq_from {B : Type} :
  forall (m n : nat) (f : nat -> B),
    map f (seq n m) = map (fun i => f (n + i)%nat) (seq 0 m).
Proof.
  induction m as [| m IH]; intros n f; [reflexivity | ].
  cbn [seq map]. rewrite Nat.add_0_r. f_equal.
  rewrite (IH (S n) f), (IH 1%nat (fun i => f (n + i)%nat)).
  apply map_ext. intro i. f_equal. lia.
Qed.

Lemma xrange_app (a b c : Z) :
  a <= b <= c -> xrange a c = xrange a b ++ xrange b c.
Proof.
  intro H. unfold xrange.
  replace (Z.to_nat (c - a)) with (Z.to_nat (b - a) + Z.to_nat (c - b))%nat by lia.
  rewrite seq_app, map_app. f_equal. cbn [Nat.add].
  rewrite map_seq_from. apply map_ext. intro i. lia.
Qed.

Lemma xrange_shift (a n : Z) :
  map (Z.add a) (xrange 0 n) = xrange a (a + n).
Proof.
  unfold xrange. rewrite map_map.
  replace (a + n - a) with (n - 0) by lia. apply map_ext. intro i. lia.
Qed.

Lemma flat_map_of_map {A B C : Type} (g : B -> list C) (f : A -> B) (l : list A) :
  flat_map g (map f l) = flat_map (fun x => g (f x)) l.
Proof.
  induction l as [| a l IH]; [reflexivity | ]. cbn [map flat_map].
  rewrite IH. reflexivity.
Qed.

(** The two nested loops over rows and columns visit the cell indices
    [y * w + x] in increasing order. *)
Lemma flat_map_rows {B : Type} (g : Z -> list B) (w : Z) :
  0 <= w ->
  forall h : nat,
    flat_map (fun y => flat_map (fun x => g (y * w + x)) (xrange 0 w))
      (xrange 0 (Z.of_nat h))
    = flat_map g (xrange 0 (w * Z.of_nat h)).
Proof.
  intros Hw. induction h as [| h IH].
  - rewrite Z.mul_0_r. reflexivity.
  - rewrite (xrange_app 0 (Z.of_nat h) (Z.of_nat (S h))) by lia.
    rewrite (xrange_app 0 (w * Z.of_nat h) (w * Z.of_nat (S h))) by nia.
    rewrite !flat_map_app, IH. f_equal.
    rewrite (xrange_cons (Z.of_nat h)) by lia.
    replace (Z.of_nat h + 1) with (Z.of_nat (S h)) by lia.
    rewrite (xrange_empty (Z.of_nat (S h)) (Z.of_nat (S h))) by lia.
    cbn [flat_map]. rewrite app_nil_r.
    replace (w * Z.of_nat (S h)) with (w * Z.of_nat h + w) by lia.
    rewrite <- xrange_shift, flat_map_of_map. apply flat_map_ext. intro x.
    f_equal. lia.
Qed.

Lemma index_middle {A : Type} (pre : list A) (a : A) (l : list A) (d : A) :
  index (pre ++ a :: l) (len pre) d = a.
Proof.
  unfold index, len. destruct (Z.of_nat (List.length pre) <? 0) eqn:E.
  - apply Z.ltb_lt in E. lia.
  - rewrite Nat2Z.id. apply nth_middle.
Qed.

Lemma flat_map_index_from {A B : Type} (k : A -> list B) (d : A) :
  forall (l pre : list A),
    flat_map (fun i => k (index (pre ++ l) i d))
      (xrange (len pre) (len pre + len l))
    = flat_map k l.
Proof.
  induction l as [| a l IH]; intro pre.
  - rewrite xrange_empty by (unfold len; cbn; lia). reflexivity.
  - rewrite xrange_cons by (pose proof (len_nonneg l); rewrite len_cons; lia).
    cbn [flat_map]. rewrite index_middle. f_equal.
    specialize (IH (pre ++ [a])). rewrite <- app_assoc in IH. cbn [app] in IH.
    rewrite len_app in IH. change (len [a]) with 1 in IH.
    rewrite len_cons. replace (len pre + (1 + len l)) with (len pre + 1 + len l) by lia.
    exact IH.
Qed.

(** Reading a grid of [w * h] cells by rows and columns is reading it
    from its first cell to its last. *)
Lemma flat_map_grid {A B : Type} (k : A -> list B) (d : A) (grid : list A)
    (w h : Z) :
  0 <= w -> len grid = w * h ->
  flat_map (fun y => flat_map (fun x => k (index grid (y * w + x) d)) (xrange 0 w))
    (xrange 0 h)
  = flat_map k grid.
Proof.
  intros Hw Hlen. destruct (Z.eq_dec w 0) as [-> | Hw0].
  - assert (grid = []) as ->.
    { destruct grid; [reflexivity | ]. rewrite len_cons in Hlen.
      pose proof (len_nonneg grid). lia. }
    cbn [flat_map]. induction (xrange 0 h) as [| y ys IH]; [reflexivity | exact IH].
  - assert (Hh : 0 <= h) by (pose proof (len_nonneg grid); nia).
    rewrite <- (Z2Nat.id h Hh).
    rewrite (flat_map_rows (fun i => k (index grid i d)) w Hw).
    rewrite Z2Nat.id by exact Hh. rewrite <- Hlen.
    exact (flat_map_index_from k d grid []).
Qed.

Lemma printed_integers_app (a b : list psline) :
  printed_integers (a ++ b) = printed_integers a ++ printed_integers b.
Proof. unfold printed_integers. apply flat_map_app. Qed.

Lemma printed_integers_flat_map {A : Type} (f : A -> list psline) (l : list A) :
  printed_integers (flat_map f l) = flat_map (fun a => printed_integers (f a)) l.
Proof.
  induction l as [| a l IH]; [reflexivity | ].
  cbn [flat_map]. rewrite printed_integers_app, IH. reflexivity.
Qed.

Lemma printed_integers_lines (f : Z -> psline) (l : list Z) :
  (forall x, flat_map item_integers (f x) = []) ->
  printed_integers (map f l) = [].
Proof.
  intro H. unfold printed_integers. rewrite flat_map_of_map.
  induction l as [| a l IH]; [reflexivity | ]. cbn [flat_map]. rewrite H. exact IH.
Qed.

Lemma filter_flat_map (p : Z -> bool) (l : list Z) :
  flat_map (fun n => if p n then [n] else []) l = filter p l.
Proof.
  induction l as [| a l IH]; [reflexivity | ].
  cbn [flat_map filter]. rewrite IH. destruct (p a); reflexivity.
Qed.

Lemma flat_map_unit {A : Type} (l : list A) : flat_map (fun n => [n]) l = l.
Proof.
  induction l as [| a l IH]; [reflexivity | ]. cbn [flat_map app].
  rewrite IH. reflexivity.
Qed.

(** The numbers a fragment shows are the clues of the decoded grid, in
    the order of the grid, none lost and none added: for rectangles the
    positive cells, for slant and light up the non-negative ones, for
    dominosa every cell.  So a clue [0] of a rectangles descriptor is
    decoded but not printed. *)
Theorem clues_are_printed_in_order (fuel : nat) (s : string) (w h : Z)
    (grid : list Z) :
  0 <= w ->
  (rect_decode fuel s = Ok (w, h, grid) ->
   exists c frag,
     rect_format fuel s = Ok (c, frag)
     /\ printed_integers frag = filter (fun n => 0 <? n) grid)
  /\ (slant_decode fuel s = Ok (w, h, grid) ->
      exists c frag,
        slant_format fuel s = Ok (c, frag)
        /\ printed_integers frag = filter (fun n => 0 <=? n) grid)
  /\ (lightup_decode fuel s = Ok (w, h, grid) ->
      exists c frag,
        lightup_format fuel s = Ok (c, frag)
        /\ printed_integers frag = filter (fun n => 0 <=? n) grid)
  /\ (dominosa_decode fuel s = Ok (w, h, grid) ->
      exists c frag,
        dominosa_format fuel s = Ok (c, frag)
        /\ printed_integers frag = grid).
Proof.
  intro Hw. repeat split.
  - intro Hd. pose proof (rect_decode_length _ _ _ _ _ Hd) as Hlen.
    unfold rect_format. rewrite Hd. cbn [bind]. unfold rect_draw. cbv zeta.
    eexists. eexists. split; [reflexivity | ].
    rewrite !printed_integers_app.
    rewrite !printed_integers_lines by reflexivity.
    rewrite printed_integers_flat_map.
    erewrite flat_map_ext;
      [ | intro y; rewrite printed_integers_flat_map; reflexivity].
    cbn [app].
    rewrite <- (filter_flat_map (fun n => 0 <? n)).
    rewrite <- (flat_map_grid (fun n => if 0 <? n then [n] else []) 0 grid w h Hw Hlen).
    apply flat_map_ext. intro y. apply flat_map_ext. intro x.
    destruct (0 <? index grid (y * w + x) 0); reflexivity.
  - intro Hd. pose proof (slant_decode_length _ _ _ _ _ Hd) as Hlen.
    unfold slant_format. rewrite Hd. cbn [bind]. unfold slant_draw. cbv zeta.
    eexists. eexists. split; [reflexivity | ].
    rewrite !printed_integers_app.
    rewrite !printed_integers_lines by reflexivity.
    rewrite printed_integers_flat_map.
    erewrite flat_map_ext;
      [ | intro y; rewrite printed_integers_flat_map; reflexivity].
    cbn [app].
    rewrite <- (filter_flat_map (fun n => 0 <=? n)).
    rewrite <- (flat_map_grid (fun n => if 0 <=? n then [n] else []) 0 grid
                  (w + 1) (h + 1) ltac:(lia) Hlen).
    apply flat_map_ext. intro y. apply flat_map_ext. intro x.
    destruct (0 <=? index grid (y * (w + 1) + x) 0); reflexivity.
  - intro Hd. pose proof (lightup_decode_length _ _ _ _ _ Hd) as Hlen.
    unfold lightup_format. rewrite Hd. cbn [bind]. unfold lightup_draw. cbv zeta.
    eexists. eexists. split; [reflexivity | ].
    rewrite !printed_integers_app.
    rewrite !printed_integers_lines by reflexivity.
    rewrite printed_integers_flat_map.
    erewrite flat_map_ext;
      [ | intro y; rewrite printed_integers_flat_map; reflexivity].
    cbn [app].
    rewrite <- (filter_flat_map (fun n => 0 <=? n)).
    rewrite <- (flat_map_grid (fun n => if 0 <=? n then [n] else []) 0 grid w h Hw Hlen).
    apply flat_map_ext. intro y. apply flat_map_ext. intro x.
    destruct (-1 <=? index grid (y * w + x) 0) eqn:E1;
      destruct (0 <=? index grid (y * w + x) 0) eqn:E2; try reflexivity.
    apply Z.leb_le in E2. apply Z.leb_gt in E1. lia.
  - intro Hd. destruct (dominosa_decode_length _ _ _ _ _ Hd) as [Hlen _].
    unfold dominosa_format. rewrite Hd. cbn [bind]. unfold dominosa_draw. cbv zeta.
    eexists. eexists. split; [reflexivity | ].
    rewrite !printed_integers_app.
    rewrite printed_integers_flat_map.
    cbn [app printed_integers flat_map item_integers arg_integers].
    transitivity (flat_map (fun n => [n]) grid); [ | apply flat_map_unit].
    rewrite <- (flat_map_grid (fun n => [n]) 0 grid w h Hw Hlen).
    apply flat_map_ext. intro y.
    unfold printed_integers. rewrite flat_map_of_map.
    apply flat_map_ext. intro x. reflexivity.
Qed.

Lemma clues_are_printed_in_order_witness :
  exists c frag,
    rect_format 5 "2x2:3a0a" = Ok (c, frag)
    /\ printed_integers frag = filter (fun n => 0 <? n) [3; -1; 0; -1].
Proof.
  refine (proj1 (clues_are_printed_in_order 5 "2x2:3a0a" 2 2 [3; -1; 0; -1] _) _).
  - lia.
  - vm_compute. reflexivity.
Defined.

(** ** Solo: block sizes and glyphs *)

Lemma forallb_xrange (p : Z -> bool) (a b : Z) :
  forallb p (xrange a b) = true -> forall n, a <= n < b -> p n = true.
Proof.
  intros H n Hn. rewrite forallb_forall in H. apply H. apply xrange_In. exact Hn.
Qed.

Lemma solo_glyph_range (n : Z) :
  0 < n ->
  (n < 169 -> exists c, solo_glyph n = Ok (String c EmptyString))
  /\ (169 <= n -> solo_glyph n = Raise ValueError).
Proof.
  intro Hn. unfold solo_glyph, chr.
  change (ord "a") with 97. change (ord "0") with 48.
  destruct (9 <? n) eqn:E9; [apply Z.ltb_lt in E9 | apply Z.ltb_ge in E9].
  - split; intro H.
    + replace ((0 <=? 97 + n - 10) && (97 + n - 10 <? 256)) with true
        by (symmetry; apply andb_true_iff; split;
            [apply Z.leb_le | apply Z.ltb_lt]; lia).
      eexists. reflexivity.
    + replace ((0 <=? 97 + n - 10) && (97 + n - 10 <? 256)) with false
        by (symmetry; apply andb_false_iff; right; apply Z.ltb_ge; lia).
      reflexivity.
  - split; intro H; [ | lia].
    replace ((0 <=? 48 + n) && (48 + n <? 256)) with true
      by (symmetry; apply andb_true_iff; split;
          [apply Z.leb_le | apply Z.ltb_lt]; lia).
    eexists. reflexivity.
Qed.

(** The glyph of a solo cell: the digit itself up to 9, then the
    lowercase letters, [a] for 10 up to [z] for 35; beyond that whatever
    character follows in the code table, and from 169 on no character at
    all but a [ValueError]. *)
Theorem solo_glyphs (n : Z) :
  0 < n ->
  (n <= 9 ->
   exists c, solo_glyph n = Ok (String c EmptyString)
             /\ digit_value c = Some n)
  /\ (10 <= n <= 35 ->
      exists c, solo_glyph n = Ok (String c EmptyString)
                /\ in_str c lowercase = true
                /\ ord c - ord "a"%char + 10 = n)
  /\ (n < 169 <-> exists g, solo_glyph n = Ok g)
  /\ (169 <= n -> solo_glyph n = Raise ValueError).
Proof.
  intro Hn. split; [ | split; [ | split]].
  - intro H.
    pose proof (forallb_xrange
      (fun n => match solo_glyph n with
                | Ok (String c EmptyString) =>
                    match digit_value c with
                    | Some m => m =? n
                    | None => false
                    end
                | _ => false
                end) 1 10 eq_refl n ltac:(lia)) as Hc.
    cbv beta in Hc.
    destruct (solo_glyph n) as [[| c [| ? ?]] | | ]; try discriminate Hc.
    exists c. split; [reflexivity | ].
    destruct (digit_value c) as [m | ]; [ | discriminate Hc].
    apply Z.eqb_eq in Hc. subst m. reflexivity.
  - intro H.
    pose proof (forallb_xrange
      (fun n => match solo_glyph n with
                | Ok (String c EmptyString) =>
                    in_str c lowercase && (ord c - ord "a"%char + 10 =? n)
                | _ => false
                end) 10 36 eq_refl n ltac:(lia)) as Hc.
    cbv beta in Hc.
    destruct (solo_glyph n) as [[| c [| ? ?]] | | ]; try discriminate Hc.
    exists c. apply andb_true_iff in Hc. destruct Hc as [H1 H2].
    apply Z.eqb_eq in H2. repeat split; assumption.
  - destruct (solo_glyph_range n Hn) as [H1 H2]. split.
    + intro H. destruct (H1 H) as [c Hc]. eexists. exact Hc.
    + intros [g Hg]. destruct (Z_lt_ge_dec n 169) as [Hlt | Hge]; [exact Hlt | ].
      rewrite (H2 ltac:(lia)) in Hg. discriminate Hg.
  - exact (proj2 (solo_glyph_range n Hn)).
Qed.

Lemma solo_glyphs_witness :
  exists c, solo_glyph 12 = Ok (String c EmptyString)
            /\ in_str c lowercase = true
            /\ ord c - ord "a"%char + 10 = 12.
Proof.
  refine (proj1 (proj2 (solo_glyphs 12 _)) _); lia.
Defined.

(** *** Loops that may raise *)

Lemma flat_mapM_Ok {A B : Type} (f : A -> outcome (list B)) (l : list A) :
  (forall a, In a l -> exists b, f a = Ok b) ->
  exists bs, flat_mapM f l = Ok bs.
Proof.
  induction l as [| a l IH]; intro H; [eexists; reflexivity | ].
  cbn [flat_mapM]. destruct (H a (or_introl eq_refl)) as [b ->].
  destruct IH as [bs ->]; [intros x Hx; apply H; right; exact Hx | ].
  eexists. reflexivity.
Qed.

Lemma flat_mapM_Raise {A B : Type} (f : A -> outcome (list B)) (e : exn)
    (l : list A) :
  (forall a, In a l -> (exists b, f a = Ok b) \/ f a = Raise e) ->
  (exists a, In a l /\ f a = Raise e) ->
  flat_mapM f l = Raise e.
Proof.
  induction l as [| a l IH]; intros H [x [Hx Hfx]]; [contradiction | ].
  cbn [flat_mapM]. destruct (H a (or_introl eq_refl)) as [[b Hb] | Hb];
    rewrite Hb; cbn [bind]; [ | reflexivity].
  rewrite IH; [reflexivity | | ].
  - intros y Hy. apply H. right. exact Hy.
  - destruct Hx as [<- | Hx]; [congruence | ]. exists x. split; assumption.
Qed.

Lemma flat_mapM_cases {A B : Type} (f : A -> outcome (list B)) (e : exn)
    (l : list A) :
  (forall a, In a l -> (exists b, f a = Ok b) \/ f a = Raise e) ->
  (exists bs, flat_mapM f l = Ok bs) \/ flat_mapM f l = Raise e.
Proof.
  induction l as [| a l IH]; intro H; [left; eexists; reflexivity | ].
  cbn [flat_mapM]. destruct (H a (or_introl eq_refl)) as [[b Hb] | Hb];
    rewrite Hb; cbn [bind]; [ | right; reflexivity].
  destruct IH as [[bs ->] | ->]; [intros y Hy; apply H; right; exact Hy | | ].
  - left. eexists. reflexivity.
  - right. reflexivity.
Qed.

Lemma index_In {A : Type} (l : list A) (i : Z) (d : A) :
  0 <= i < len l -> In (index l i d) l.
Proof.
  intro H. unfold index, len in *.
  replace (i <? 0) with false by (symmetry; apply Z.ltb_ge; lia).
  apply nth_In. lia.
Qed.

Lemma In_index {A : Type} (l : list A) (a d : A) :
  In a l -> exists i, 0 <= i < len l /\ index l i d = a.
Proof.
  intro H. destruct (In_nth l a d H) as [n [Hn Ha]].
  exists (Z.of_nat n). unfold index, len. split; [lia | ].
  replace (Z.of_nat n <? 0) with false by (symmetry; apply Z.ltb_ge; lia).
  rewrite Nat2Z.id. exact Ha.
Qed.

Lemma solo_cell_cases (grid : list Z) (cr y x : Z) :
  let n := index grid (y * cr + x) 0 in
  let cell :=
    if 0 <? n then
      s <- solo_glyph n ;;
      Ok [[Fmt "%g %g (%s) ctshow"
             [G ((ZQ x + 0.5) * ZQ 16); G ((ZQ cr - ZQ y - 0.5) * ZQ 16); St s]]]
    else Ok [] in
  (index grid (y * cr + x) 0 < 169 -> exists b, cell = Ok b)
  /\ (169 <= index grid (y * cr + x) 0 -> cell = Raise ValueError).
Proof.
  cbv zeta. destruct (0 <? index grid (y * cr + x) 0) eqn:E.
  - apply Z.ltb_lt in E. destruct (solo_glyph_range _ E) as [H1 H2]. split; intro H.
    + destruct (H1 H) as [c ->]. eexists. reflexivity.
    + rewrite (H2 H). reflexivity.
  - apply Z.ltb_ge in E. split; intro H; [eexists; reflexivity | lia].
Qed.

(** A solo descriptor that decodes still fails to draw in two cases.
    A block dimension of 0 is the step of an [xrange] and gives a
    [ValueError]; so does, on a grid with cells to draw, a cell holding
    169 or more, for which there is no character.  Otherwise, with cells
    below 169 and block dimensions that are not 0, the puzzle is drawn. *)
Theorem solo_draws_or_raises (fuel : nat) (s : string) (c r : Z)
    (grid : list Z) :
  solo_decode fuel s = Ok (c, r, grid) ->
  (c = 0 \/ r = 0 -> solo_format fuel s = Raise ValueError)
  /\ (0 < c * r -> (exists n, In n grid /\ 169 <= n) ->
      solo_format fuel s = Raise ValueError)
  /\ (c <> 0 -> r <> 0 -> Forall (fun n => n < 169) grid ->
      exists rd, solo_format fuel s = Ok rd).
Proof.
  intro Hd. pose proof (solo_decode_length _ _ _ _ _ Hd) as Hlen.
  unfold solo_format. rewrite Hd. cbn [bind]. unfold solo_draw. cbv zeta.
  unfold xrange_step. split; [ | split].
  - intros [-> | ->].
    + destruct (r =? 0); [reflexivity | ]. cbn [bind]. reflexivity.
    + reflexivity.
  - intros Hcr [n [Hin Hn]].
    assert (Hc : c <> 0) by nia. assert (Hr : r <> 0) by nia.
    apply Z.eqb_neq in Hc, Hr. rewrite Hc, Hr. cbn [bind].
    destruct (In_index grid n 0 Hin) as [i [Hi Hidx]].
    assert (Hrow : forall y, In y (xrange 0 (c * r)) ->
              (exists b, flat_mapM (fun x =>
                 if 0 <? index grid (y * (c * r) + x) 0 then
                   s0 <- solo_glyph (index grid (y * (c * r) + x) 0) ;;
                   Ok [[Fmt "%g %g (%s) ctshow"
                          [G ((ZQ x + 0.5) * ZQ 16);
                           G ((ZQ (c * r) - ZQ y - 0.5) * ZQ 16); St s0]]]
                 else Ok []) (xrange 0 (c * r)) = Ok b)
              \/ flat_mapM (fun x =>
                 if 0 <? index grid (y * (c * r) + x) 0 then
                   s0 <- solo_glyph (index grid (y * (c * r) + x) 0) ;;
                   Ok [[Fmt "%g %g (%s) ctshow"
                          [G ((ZQ x + 0.5) * ZQ 16);
                           G ((ZQ (c * r) - ZQ y - 0.5) * ZQ 16); St s0]]]
                 else Ok []) (xrange 0 (c * r)) = Raise ValueError).
    { intros y _. apply flat_mapM_cases. intros x _.
      destruct (solo_cell_cases grid (c * r) y x) as [H1 H2].
      destruct (Z_lt_ge_dec (index grid (y * (c * r) + x) 0) 169) as [Hlt | Hge].
      - left. exact (H1 Hlt).
      - right. apply H2. lia. }
    rewrite (flat_mapM_Raise _ ValueError _ Hrow); [reflexivity | ].
    exists (i / (c * r)). split.
    + apply xrange_In. split; [apply Z.div_pos; lia | ].
      apply Z.div_lt_upper_bound; lia.
    + apply flat_mapM_Raise.
      * intros x _.
        destruct (solo_cell_cases grid (c * r) (i / (c * r)) x) as [H1 H2].
        destruct (Z_lt_ge_dec (index grid (i / (c * r) * (c * r) + x) 0) 169)
          as [Hlt | Hge].
        -- left. exact (H1 Hlt).
        -- right. apply H2. lia.
      * exists (i mod (c * r)). split.
        -- apply xrange_In. apply Z.mod_pos_bound. exact Hcr.
        -- assert (E : i / (c * r) * (c * r) + i mod (c * r) = i).
           { rewrite (Z.div_mod i (c * r)) at 3 by lia. lia. }
           destruct (solo_cell_cases grid (c * r) (i / (c * r)) (i mod (c * r)))
             as [_ H2].
           apply H2. rewrite E, Hidx. exact Hn.
  - intros Hc Hr Hall.
    apply Z.eqb_neq in Hc, Hr. rewrite Hc, Hr. cbn [bind].
    match goal with
    | |- exists rd, bind ?m _ = Ok rd =>
        assert (Hm : exists numbers, m = Ok numbers)
    end.
    { apply flat_mapM_Ok. intros y _. apply flat_mapM_Ok. intros x _.
      destruct (solo_cell_cases grid (c * r) y x) as [H1 _]. apply H1.
      destruct (Z_lt_ge_dec (y * (c * r) + x) 0) as [Hneg | Hpos].
      - unfold index. replace (y * (c * r) + x <? 0) with true
          by (symmetry; apply Z.ltb_lt; lia). lia.
      - destruct (Z_lt_ge_dec (y * (c * r) + x) (len grid)) as [Hin | Hout].
        + rewrite Forall_forall in Hall. apply Hall. apply index_In. lia.
        + rewrite index_out_of_range by lia. lia. }
    destruct Hm as [numbers ->]. cbn [bind]. eexists. reflexivity.
Qed.

Lemma solo_draws_or_raises_witness :
  solo_format 3 "0x3:" = Raise ValueError.
Proof.
  refine (proj1 (solo_draws_or_raises 3 "0x3:" 0 3 [] _) _).
  - reflexivity.
  - left. reflexivity.
Defined.

(** ** Pattern: clue lists on both sides *)

Lemma reduce1_Ok {A : Type} (f : A -> A -> A) (l : list A) :
  l <> [] -> exists a, reduce1 f l = Ok a.
Proof. destruct l; [contradiction | ]. intros _. eexists. reflexivity. Qed.

Lemma len_zero_nil {A : Type} (l : list A) : len l = 0 -> l = [].
Proof. destruct l; [reflexivity | ]. rewrite len_cons. pose proof (len_nonneg l). lia. Qed.

(** A pattern descriptor that decodes is drawn when both dimensions are
    positive.  With a width or a height of 0 one side has no clue list
    to take the longest of, and the maximum over nothing is a
    [TypeError]. *)
Theorem pattern_needs_both_sides (fuel : nat) (s : string) (w h : Z)
    (rowdata : list (list string)) :
  pattern_decode s = Ok (w, h, rowdata) ->
  (w = 0 \/ h = 0 -> pattern_format fuel s = Raise TypeError)
  /\ (0 < w -> 0 < h -> exists rd, pattern_format fuel s = Ok rd).
Proof.
  intro Hd. pose proof (pattern_decode_length _ _ _ _ Hd) as Hlen.
  unfold pattern_format. rewrite Hd. cbn [bind]. unfold pattern_draw. cbv zeta.
  assert (Hfrom : len (slice_from rowdata w) = len rowdata - Z.of_nat (slice_index (len rowdata) w)).
  { unfold slice_from, len. rewrite length_skipn.
    assert (slice_index (Z.of_nat (List.length rowdata)) w <= List.length rowdata)%nat.
    { unfold slice_index. destruct (w <? 0) eqn:E; [apply Z.ltb_lt in E | ]; lia. }
    lia. }
  assert (Hto : len (slice_to rowdata w) = Z.of_nat (slice_index (len rowdata) w)).
  { unfold slice_to, len. rewrite length_firstn.
    assert (slice_index (Z.of_nat (List.length rowdata)) w <= List.length rowdata)%nat.
    { unfold slice_index. destruct (w <? 0) eqn:E; [apply Z.ltb_lt in E | ]; lia. }
    lia. }
  assert (Hne : 0 < len rowdata).
  { apply bind_Ok in Hd. destruct Hd as [[params seed] [_ Hd]].
    apply bind_Ok in Hd. destruct Hd as [[w' h'] [_ Hd]].
    apply bind_Ok in Hd. destruct Hd as [u [_ Hd]].
    inversion Hd; subst. unfold len. rewrite length_map.
    pose proof (split_not_nil seed "/") as Hs.
    destruct (split seed "/"); [contradiction | cbn; lia]. }
  split.
  - intros [-> | ->].
    + assert (E0 : slice_index (len rowdata) 0 = 0%nat).
      { unfold slice_index. cbn. lia. }
      rewrite E0 in Hfrom, Hto.
      destruct (reduce1_Ok Z.max (map len (slice_from rowdata 0))) as [a ->].
      { intro E. apply map_eq_nil in E. rewrite E in Hfrom.
        change (len (@nil (list string))) with 0 in Hfrom. lia. }
      cbn [bind]. rewrite (len_zero_nil _ Hto). reflexivity.
    + assert (E0 : slice_index (len rowdata) w = Z.to_nat (len rowdata)).
      { unfold slice_index. replace (w <? 0) with false
          by (symmetry; apply Z.ltb_ge; lia). f_equal. lia. }
      rewrite E0 in Hfrom. rewrite (len_zero_nil (slice_from rowdata w)) by lia.
      reflexivity.
  - intros Hw Hh.
    assert (E0 : slice_index (len rowdata) w = Z.to_nat w).
    { unfold slice_index. replace (w <? 0) with false
        by (symmetry; apply Z.ltb_ge; lia). f_equal. lia. }
    rewrite E0 in Hfrom, Hto.
    destruct (reduce1_Ok Z.max (map len (slice_from rowdata w))) as [a ->].
    { intro E. apply map_eq_nil in E. rewrite E in Hfrom.
      change (len (@nil (list string))) with 0 in Hfrom. lia. }
    cbn [bind].
    destruct (reduce1_Ok Z.max (map len (slice_to rowdata w))) as [b ->].
    { intro E. apply map_eq_nil in E. rewrite E in Hto.
      change (len (@nil (list string))) with 0 in Hto. lia. }
    cbn [bind]. eexists. reflexivity.
Qed.

Lemma pattern_needs_both_sides_witness :
  pattern_format 0 "0x1:2" = Raise TypeError.
Proof.
  refine (proj1 (pattern_needs_both_sides 0 "0x1:2" 0 1 [["2"]] _) _).
  - reflexivity.
  - left. reflexivity.
Defined.

(** * Further properties of the page loop *)

(** ** The fill loop puts the descriptors in reading order *)

Lemma index_map_const {A B : Type} (b : B) (l : list A) (i : Z) :
  index (map (fun _ => b) l) i b = b.
Proof.
  apply index_all_default. intros a Ha. apply in_map_iff in Ha.
  destruct Ha as [_ [<- _]]. reflexivity.
Qed.

Lemma index_map_const_in {A B : Type} (b d : B) (l : list A) (i : Z) :
  0 <= i < len l -> index (map (fun _ => b) l) i d = b.
Proof.
  intro H.
  assert (Hin : In (index (map (fun _ : A => b) l) i d) (map (fun _ : A => b) l)).
  { unfold index, len in *.
    replace (i <? 0) with false by (symmetry; apply Z.ltb_ge; lia).
    apply nth_In. rewrite length_map. lia. }
  apply in_map_iff in Hin. destruct Hin as [_ [E _]]. symmetry. exact E.
Qed.

Lemma len_map {A B : Type} (f : A -> B) (l : list A) : len (map f l) = len l.
Proof. unfold len. rewrite length_map. reflexivity. Qed.

Lemma new_page_shaped (xx yy p : Z) :
  0 <= xx -> 0 <= yy -> shaped xx yy (new_page xx yy p).
Proof.
  intros Hx Hy. unfold shaped, new_page. cbn [fragments lrbound tbbound].
  rewrite !len_map, !xrange_len by lia.
  repeat split; try lia.
  intros y H. rewrite index_map_const_in by (rewrite xrange_len; lia).
  rewrite len_map, xrange_len; lia.
Qed.

Lemma new_page_nonneg (xx yy p : Z) : nonneg_bounds (new_page xx yy p).
Proof.
  unfold nonneg_bounds, new_page. cbn [lrbound tbbound].
  split; intro i; rewrite index_map_const; cbn; lia.
Qed.

Lemma place_fragments (st : page_state) (y x : Z) (r : rendered) :
  fragments (place st y x r)
  = set_index (fragments st) y (set_index (index (fragments st) y []) x (snd r)).
Proof.
  unfold place. destruct r as [[[[c0 c1] c2] c3] frag].
  destruct (index (lrbound st) x (0, 0)), (index (tbbound st) y (0, 0)).
  reflexivity.
Qed.

Lemma place_lrbound (st : page_state) (y x : Z) (c0 c1 c2 c3 : Z)
    (frag : list psline) :
  lrbound (place st y x (c0, c1, c2, c3, frag))
  = set_index (lrbound st) x
      (Z.max (fst (index (lrbound st) x (0, 0))) c0,
       Z.max (snd (index (lrbound st) x (0, 0))) c1).
Proof.
  unfold place.
  destruct (index (lrbound st) x (0, 0)), (index (tbbound st) y (0, 0)).
  reflexivity.
Qed.

Lemma place_tbbound (st : page_state) (y x : Z) (c0 c1 c2 c3 : Z)
    (frag : list psline) :
  tbbound (place st y x (c0, c1, c2, c3, frag))
  = set_index (tbbound st) y
      (Z.max (fst (index (tbbound st) y (0, 0))) c2,
       Z.max (snd (index (tbbound st) y (0, 0))) c3).
Proof.
  unfold place.
  destruct (index (lrbound st) x (0, 0)), (index (tbbound st) y (0, 0)).
  reflexivity.
Qed.

Lemma place_shaped (xx yy : Z) (st : page_state) (y x : Z) (r : rendered) :
  shaped xx yy st -> shaped xx yy (place st y x r).
Proof.
  intros [H1 [H2 [H3 H4]]]. destruct r as [[[[c0 c1] c2] c3] frag].
  unfold shaped. rewrite place_fragments, place_lrbound, place_tbbound.
  rewrite !len_set_index. repeat split; try assumption.
  intros y' Hy'. destruct (Z.eq_dec y y') as [-> | Hne].
  - rewrite index_set_index_same.
    destruct ((0 <=? y') && (y' <? len (fragments st))) eqn:E.
    + rewrite len_set_index. apply H2. exact Hy'.
    + exfalso. apply andb_false_iff in E. rewrite H1 in E.
      destruct E as [E | E]; [apply Z.leb_gt in E | apply Z.ltb_ge in E]; lia.
  - rewrite index_set_index_other by exact Hne. apply H2. exact Hy'.
Qed.

(** An envelope only grows when a puzzle is placed. *)
Lemma set_index_max_grows (l : list (Z * Z)) (i j a b : Z) :
  let l' := set_index l i (Z.max (fst (index l i (0, 0))) a,
                           Z.max (snd (index l i (0, 0))) b) in
  fst (index l j (0, 0)) <= fst (index l' j (0, 0))
  /\ snd (index l j (0, 0)) <= snd (index l' j (0, 0)).
Proof.
  cbv zeta. destruct (Z.eq_dec i j) as [-> | Hne].
  - rewrite index_set_index_same.
    destruct ((0 <=? j) && (j <? len l)) eqn:E.
    + cbn [fst snd]. lia.
    + rewrite (index_out_of_range l j (0, 0) E). cbn. lia.
  - rewrite index_set_index_other by exact Hne. lia.
Qed.

Lemma set_index_max_covers (l : list (Z * Z)) (i a b : Z) :
  0 <= i < len l ->
  let l' := set_index l i (Z.max (fst (index l i (0, 0))) a,
                           Z.max (snd (index l i (0, 0))) b) in
  a <= fst (index l' i (0, 0)) /\ b <= snd (index l' i (0, 0)).
Proof.
  intro H. cbv zeta. rewrite index_set_index_same.
  replace ((0 <=? i) && (i <? len l)) with true
    by (symmetry; apply andb_true_iff; split;
        [apply Z.leb_le | apply Z.ltb_lt]; lia).
  cbn [fst snd]. lia.
Qed.

Lemma place_nonneg (st : page_state) (y x : Z) (r : rendered) :
  nonneg_bounds st -> nonneg_bounds (place st y x r).
Proof.
  intros [H1 H2]. destruct r as [[[[c0 c1] c2] c3] frag].
  unfold nonneg_bounds. rewrite place_lrbound, place_tbbound. split; intro i.
  - pose proof (set_index_max_grows (lrbound st) x i c0 c1) as G.
    cbv zeta in G. specialize (H1 i). lia.
  - pose proof (set_index_max_grows (tbbound st) y i c2 c3) as G.
    cbv zeta in G. specialize (H2 i). lia.
Qed.

Lemma cell_place_same (xx yy : Z) (st : page_state) (y x : Z) (r : rendered) :
  shaped xx yy st -> 0 <= y < yy -> 0 <= x < xx ->
  cell (place st y x r) y x = snd r.
Proof.
  intros [H1 [H2 _]] Hy Hx. unfold cell. rewrite place_fragments.
  rewrite index_set_index_same.
  replace ((0 <=? y) && (y <? len (fragments st))) with true
    by (symmetry; apply andb_true_iff; split;
        [apply Z.leb_le | apply Z.ltb_lt]; lia).
  rewrite index_set_index_same. rewrite (H2 y Hy).
  replace ((0 <=? x) && (x <? xx)) with true
    by (symmetry; apply andb_true_iff; split;
        [apply Z.leb_le | apply Z.ltb_lt]; lia).
  reflexivity.
Qed.

Section Placing.

Variable fuel : nat.
Variable fmt : formatter.
Variable ids : list string.
Variables xx yy p : Z.

Lemma placed_place_other (st : page_state) (y x y' x' : Z) (r : rendered) :
  (y', x') <> (y, x) ->
  placed fuel fmt ids xx p st y' x' ->
  placed fuel fmt ids xx p (place st y x r) y' x'.
Proof.
  intros Hne (c0 & c1 & c2 & c3 & frag & Hf & Hc & B0 & B1 & B2 & B3).
  exists c0, c1, c2, c3, frag. split; [exact Hf | ].
  split; [rewrite cell_place_other by exact Hne; exact Hc | ].
  destruct r as [[[[d0 d1] d2] d3] frag'].
  rewrite place_lrbound, place_tbbound.
  pose proof (set_index_max_grows (lrbound st) x x' d0 d1) as G1.
  pose proof (set_index_max_grows (tbbound st) y y' d2 d3) as G2.
  cbv zeta in G1, G2. repeat split; lia.
Qed.

Lemma place_step (st : page_state) (y x : Z) (r : rendered) :
  0 <= y < yy -> 0 <= x < xx ->
  placing fuel fmt ids xx yy p st (y * xx + x) ->
  puzzle_index st < len ids ->
  fmt fuel (index ids (puzzle_index st) EmptyString) = Ok r ->
  placing fuel fmt ids xx yy p (place st y x r) (y * xx + x + 1).
Proof.
  intros Hy Hx (Hs & Hn & Hle & Hat & Hpl) Hk Hr.
  destruct Hat as [Hat | Hat]; [ | lia].
  unfold placing. rewrite place_puzzle_index.
  split; [apply place_shaped; exact Hs | ].
  split; [apply place_nonneg; exact Hn | ].
  split; [lia | ]. split; [left; lia | ].
  intros y' x' Hy' Hx' Hidx.
  destruct (Z.eq_dec (y' * xx + x') (y * xx + x)) as [E | Hne].
  - assert (y' = y) by nia. subst y'. assert (x' = x) by lia. subst x'.
    destruct r as [[[[c0 c1] c2] c3] frag].
    exists c0, c1, c2, c3, frag.
    split; [rewrite Hat in Hr;
            replace (p + y * xx + x) with (p + (y * xx + x)) by lia; exact Hr | ].
    split; [exact (cell_place_same xx yy st y x _ Hs Hy Hx) | ].
    rewrite place_lrbound, place_tbbound.
    destruct Hs as [_ [_ [Hlr Htb]]]. destruct Hn as [N1 N2].
    pose proof (set_index_max_covers (lrbound st) x c0 c1 ltac:(lia)) as C1.
    pose proof (set_index_max_covers (tbbound st) y c2 c3 ltac:(lia)) as C2.
    pose proof (set_index_max_grows (lrbound st) x x c0 c1) as G1.
    pose proof (set_index_max_grows (tbbound st) y y c2 c3) as G2.
    cbv zeta in C1, C2, G1, G2. specialize (N1 x). specialize (N2 y).
    repeat split; lia.
  - apply placed_place_other.
    + intro E. inversion E; subst. contradiction.
    + apply Hpl; [exact Hy' | exact Hx' | lia].
Qed.

Lemma fill_row_placing (y : Z) :
  0 <= y < yy ->
  forall n x0 st st',
    0 <= x0 -> x0 + Z.of_nat n <= xx ->
    placing fuel fmt ids xx yy p st (y * xx + x0) ->
    fill_row fuel fmt ids y (xrange x0 (x0 + Z.of_nat n)) st = Ok st' ->
    placing fuel fmt ids xx yy p st' (y * xx + x0 + Z.of_nat n).
Proof.
  intro Hy. induction n as [| n IH]; intros x0 st st' Hx0 Hxx HJ Hrow.
  - rewrite xrange_empty in Hrow by lia. cbn in Hrow. inversion Hrow; subst.
    replace (y * xx + x0 + Z.of_nat 0) with (y * xx + x0) by lia. exact HJ.
  - rewrite xrange_cons in Hrow by lia. cbn [fill_row] in Hrow.
    destruct (Z.leb_spec (len ids) (puzzle_index st)) as [Hout | Hin].
    + inversion Hrow; subst.
      destruct HJ as (Hs & Hn & Hle & Hat & Hpl).
      split; [exact Hs | ]. split; [exact Hn | ]. split; [lia | ].
      split; [right; exact Hout | exact Hpl].
    + bind_inv Hrow.
      replace (x0 + Z.of_nat (S n)) with (x0 + 1 + Z.of_nat n) in Hrow by lia.
      replace (y * xx + x0 + Z.of_nat (S n))
        with (y * xx + (x0 + 1) + Z.of_nat n) by lia.
      apply (IH (x0 + 1) (place st y x0 a) st' ltac:(lia) ltac:(lia));
        [ | exact Hrow].
      replace (y * xx + (x0 + 1)) with (y * xx + x0 + 1) by lia.
      apply place_step; [exact Hy | lia | exact HJ | exact Hin | exact Ha].
Qed.

Lemma fill_rows_placing :
  0 <= xx ->
  forall m y0 st st',
    0 <= y0 -> y0 + Z.of_nat m <= yy ->
    placing fuel fmt ids xx yy p st (y0 * xx) ->
    fill_rows fuel fmt ids xx (xrange y0 (y0 + Z.of_nat m)) st = Ok st' ->
    placing fuel fmt ids xx yy p st' ((y0 + Z.of_nat m) * xx).
Proof.
  intro Hxx. induction m as [| m IH]; intros y0 st st' Hy0 Hyy HJ Hrows.
  - rewrite xrange_empty in Hrows by lia. cbn in Hrows. inversion Hrows; subst.
    replace (y0 + Z.of_nat 0) with y0 by lia. exact HJ.
  - rewrite xrange_cons in Hrows by lia. cbn [fill_rows] in Hrows.
    bind_inv Hrows.
    replace (y0 + Z.of_nat (S m)) with (y0 + 1 + Z.of_nat m) in * by lia.
    apply (IH (y0 + 1) a st' ltac:(lia) ltac:(lia)); [ | exact Hrows].
    replace ((y0 + 1) * xx) with (y0 * xx + 0 + Z.of_nat (Z.to_nat xx)) by lia.
    apply (fill_row_placing y0 ltac:(lia) (Z.to_nat xx) 0 st a ltac:(lia) ltac:(lia)).
    + replace (y0 * xx + 0) with (y0 * xx) by lia. exact HJ.
    + replace (0 + Z.of_nat (Z.to_nat xx)) with xx by lia. exact Ha.
Qed.

End Placing.

(** The fill loop lays the descriptors out in reading order: on a page
    that starts at descriptor [p], cell [(y, x)] receives the fragment
    of descriptor [p + y * xx + x] whenever there is such a descriptor,
    and the envelope of column [x] and that of row [y] cover the
    bounding box of that puzzle; no envelope is negative. *)
Theorem fill_is_row_major (fuel : nat) (fmt : formatter) (ids : list string)
    (xx yy p : Z) (st : page_state) (y x : Z) :
  0 <= p ->
  fill_page fuel fmt ids xx yy p = Ok st ->
  0 <= y < yy -> 0 <= x < xx ->
  p + y * xx + x < len ids ->
  placed fuel fmt ids xx p st y x.
Proof.
  intros Hp Hfill Hy Hx Hk. unfold fill_page in Hfill.
  assert (HJ : placing fuel fmt ids xx yy p st ((0 + Z.of_nat (Z.to_nat yy)) * xx)).
  { apply (fill_rows_placing fuel fmt ids xx yy p ltac:(lia)
             (Z.to_nat yy) 0 (new_page xx yy p) st ltac:(lia) ltac:(lia)).
    - unfold placing. cbn [new_page puzzle_index].
      split; [apply new_page_shaped; lia | ].
      split; [apply new_page_nonneg | ].
      split; [lia | ]. split; [left; lia | ].
      intros y' x' Hy' Hx' Hlt. nia.
    - replace (0 + Z.of_nat (Z.to_nat yy)) with yy by lia. exact Hfill. }
  destruct HJ as (_ & _ & Hle & Hat & Hpl).
  apply Hpl; [exact Hy | exact Hx | ].
  destruct Hat as [Hat | Hat]; [ | lia]. rewrite Hat. nia.
Qed.

Lemma fill_is_row_major_witness :
  exists st,
    fill_page 3 rect_format ["1x1:a"; "2x1:a5"; "1x1:7"] 2 2 0 = Ok st
    /\ placed 3 rect_format ["1x1:a"; "2x1:a5"; "1x1:7"] 2 0 st 1 0.
Proof.
  eexists. split; [reflexivity | ].
  apply (fill_is_row_major 3 rect_format ["1x1:a"; "2x1:a5"; "1x1:7"] 2 2 0);
    [lia | reflexivity | lia | lia | vm_compute; reflexivity].
Defined.

(** ** Fragments leave the graphics state as they find it *)

Lemma nest_tokens_app (a b : list token) (d : nat) :
  nest_tokens (a ++ b) d
  = match nest_tokens a d with
    | Some d' => nest_tokens b d'
    | None => None
    end.
Proof.
  revert d. induction a as [| t a IH]; intro d; [reflexivity | ].
  cbn [app nest_tokens]. destruct (nest_token t d); [apply IH | reflexivity].
Qed.

Lemma nesting_app (a b : list psline) (d : nat) :
  nesting (a ++ b) d
  = match nesting a d with
    | Some d' => nesting b d'
    | None => None
    end.
Proof. unfold nesting. rewrite flat_map_app. apply nest_tokens_app. Qed.

Lemma balanced_nil : balanced [].
Proof. intro d. reflexivity. Qed.

Lemma balanced_app (a b : list psline) :
  balanced a -> balanced b -> balanced (a ++ b).
Proof. intros Ha Hb d. rewrite nesting_app, Ha. apply Hb. Qed.

Lemma balanced_flat_map {A : Type} (f : A -> list psline) (l : list A) :
  (forall a, balanced (f a)) -> balanced (flat_map f l).
Proof.
  intro H. induction l as [| a l IH]; [exact balanced_nil | ].
  cbn [flat_map]. apply balanced_app; [apply H | exact IH].
Qed.

Lemma balanced_map {A : Type} (f : A -> psline) (l : list A) :
  (forall a, balanced [f a]) -> balanced (map f l).
Proof.
  intro H. induction l as [| a l IH]; [exact balanced_nil | ].
  cbn [map]. change (f a :: map f l) with ([f a] ++ map f l).
  apply balanced_app; [apply H | exact IH].
Qed.

Lemma balanced_flat_mapM {A : Type} (f : A -> outcome (list psline)) :
  (forall a b, f a = Ok b -> balanced b) ->
  forall l bs, flat_mapM f l = Ok bs -> balanced bs.
Proof.
  intro H. induction l as [| a l IH]; intros bs Hbs; cbn [flat_mapM] in Hbs.
  - inversion Hbs. exact balanced_nil.
  - bind_inv Hbs. inversion Hbs; subst.
    apply balanced_app; [exact (H a a0 Ha) | exact (IH a1 Ha0)].
Qed.

Lemma balanced_vline (x l : Q) : balanced [vline x l].
Proof. intro d. reflexivity. Qed.

Lemma balanced_hline (y l : Q) : balanced [hline y l].
Proof. intro d. reflexivity. Qed.

Lemma balanced_outline (a b c : Q) : balanced [outline a b c].
Proof. intro d. reflexivity. Qed.

Ltac balanced_parts :=
  repeat first
    [ apply balanced_app
    | apply balanced_map; intro
    | apply balanced_flat_map; intro
    | apply balanced_vline
    | apply balanced_hline
    | apply balanced_outline
    | exact balanced_nil ].

Lemma rect_draw_balanced (w h : Z) (grid : list Z) :
  balanced (snd (rect_draw w h grid)).
Proof.
  unfold rect_draw. cbv zeta. cbn [snd]. balanced_parts;
    try (intro d; reflexivity).
  destruct (0 <? index grid (a * w + a0) 0); intro d; reflexivity.
Qed.

Lemma slant_draw_balanced (w h : Z) (grid : list Z) :
  balanced (snd (slant_draw w h grid)).
Proof.
  unfold slant_draw. cbv zeta. cbn [snd]. balanced_parts;
    try (intro d; reflexivity).
  destruct (0 <=? index grid (a * (w + 1) + a0) 0); intro d; reflexivity.
Qed.

Lemma lightup_draw_balanced (w h : Z) (grid : list Z) :
  balanced (snd (lightup_draw w h grid)).
Proof.
  unfold lightup_draw. cbv zeta. cbn [snd]. balanced_parts;
    try (intro d; reflexivity).
  destruct (-1 <=? index grid (a * w + a0) 0);
    destruct (0 <=? index grid (a * w + a0) 0); intro d; reflexivity.
Qed.

Lemma dominosa_draw_balanced (w h : Z) (grid : list Z) :
  balanced (snd (dominosa_draw w h grid)).
Proof.
  unfold dominosa_draw. cbv zeta. cbn [snd]. balanced_parts;
    intro d; reflexivity.
Qed.

Lemma net_symbol_balanced (w h : Z) (grid : list Z) (i : Z) :
  balanced (net_symbol w h grid i).
Proof.
  unfold net_symbol. cbv zeta. cbn [flat_map].
  destruct (has_bit (canonical_form (index grid i 0)) 1),
    (has_bit (canonical_form (index grid i 0)) 2),
    (has_bit (canonical_form (index grid i 0)) 4),
    (has_bit (canonical_form (index grid i 0)) 8),
    (canonical_form (index grid i 0) =? 1); intro d; reflexivity.
Qed.

Lemma net_draw_balanced (g : net_grid) : balanced (snd (net_draw g)).
Proof.
  unfold net_draw. cbv zeta. cbn [snd].
  repeat first
    [ apply balanced_app
    | apply balanced_map; intro
    | apply balanced_flat_map; intro; apply net_symbol_balanced
    | apply balanced_vline
    | apply balanced_hline
    | apply balanced_outline
    | exact balanced_nil ];
    try (intro d; reflexivity).
  - destruct (net_wrapping g); intro d; reflexivity.
  - destruct a as [x y]. intro d. reflexivity.
  - destruct a as [x y]. intro d. reflexivity.
Qed.

Lemma solo_draw_balanced (c r : Z) (grid : list Z) (rd : rendered) :
  solo_draw c r grid = Ok rd -> balanced (snd rd).
Proof.
  unfold solo_draw. cbv zeta. intro H. bind_inv H. inversion H; subst.
  cbn [snd].
  assert (Hnum : balanced a1).
  { revert Ha1. apply balanced_flat_mapM. intros y row Hrow.
    revert Hrow. apply balanced_flat_mapM. intros x b Hb.
    destruct (0 <? index grid (y * (c * r) + x) 0).
    - bind_inv Hb. inversion Hb; subst. intro d. reflexivity.
    - inversion Hb; subst. exact balanced_nil. }
  balanced_parts; try exact Hnum; try (intro d; reflexivity).
  - destruct (negb (a2 mod r =? 0)); [apply balanced_vline | exact balanced_nil].
  - destruct (negb (a2 mod c =? 0)); [apply balanced_hline | exact balanced_nil].
Qed.

Lemma position_lines_nesting (xx yy : Z) (st : page_state) (y x : Z) (d : nat) :
  nesting (position_lines xx yy st y x) d = Some (S d).
Proof. reflexivity. Qed.

(** A fragment of rect, net, solo, dominosa, slant or lightup restores
    every graphics state it saves and none that it has not saved: its
    [gsave] and [grestore] nest.  So does then what is printed for a
    page cell, where the fragment sits between a [gsave] and a
    [grestore], and so does the body of a page whose cells hold such
    fragments. *)
Theorem fragments_keep_the_graphics_state (fuel : nat) (s : string)
    (c : coords_t) (frag : list psline) :
  (rect_format fuel s = Ok (c, frag)
   \/ net_format fuel s = Ok (c, frag)
   \/ solo_format fuel s = Ok (c, frag)
   \/ dominosa_format fuel s = Ok (c, frag)
   \/ slant_format fuel s = Ok (c, frag)
   \/ lightup_format fuel s = Ok (c, frag)) ->
  balanced frag
  /\ (forall xx yy st y x, cell st y x = frag ->
        balanced (emit_cell xx yy st y x))
  /\ (forall xx yy st,
        (forall y x, balanced (cell st y x)) -> balanced (emit_page xx yy st)).
Proof.
  intro H.
  assert (Hcell : forall xx yy st y x,
            balanced (cell st y x) -> balanced (emit_cell xx yy st y x)).
  { intros xx yy st y x Hb. unfold emit_cell. cbv zeta.
    destruct (0 <? len (cell st y x)); [ | exact balanced_nil].
    intro d. rewrite nesting_app, position_lines_nesting.
    rewrite nesting_app, Hb. reflexivity. }
  assert (Hfrag : balanced frag).
  { destruct H as [H | [H | [H | [H | [H | H]]]]].
    - unfold rect_format in H. bind_inv H. inversion H.
      apply rect_draw_balanced.
    - unfold net_format in H. bind_inv H. inversion H.
      apply net_draw_balanced.
    - unfold solo_format in H. bind_inv H.
      exact (solo_draw_balanced _ _ _ _ H).
    - unfold dominosa_format in H. bind_inv H. inversion H.
      apply dominosa_draw_balanced.
    - unfold slant_format in H. bind_inv H. inversion H.
      apply slant_draw_balanced.
    - unfold lightup_format in H. bind_inv H. inversion H.
      apply lightup_draw_balanced. }
  split; [exact Hfrag | ]. split.
  - intros xx yy st y x E. apply Hcell. rewrite E. exact Hfrag.
  - intros xx yy st Hall. unfold emit_page.
    apply balanced_flat_map. intro y. apply balanced_flat_map. intro x.
    apply Hcell. apply Hall.
Qed.

Lemma fragments_keep_the_graphics_state_witness :
  balanced (snd (net_draw (NetGrid false 1 1 [1] [] []))).
Proof.
  refine (proj1 (fragments_keep_the_graphics_state 2 "1x1:1"
                   (fst (net_draw (NetGrid false 1 1 [1] [] [])))
                   (snd (net_draw (NetGrid false 1 1 [1] [] []))) _)).
  right. left. reflexivity.
Defined.

(** ** Pattern: the clues that are printed *)

Lemma printed_strings_app (a b : list psline) :
  printed_strings (a ++ b) = printed_strings a ++ printed_strings b.
Proof. unfold printed_strings. apply flat_map_app. Qed.

Lemma printed_strings_cons (l : psline) (r : list psline) :
  printed_strings (l :: r) = flat_map item_strings l ++ printed_strings r.
Proof. reflexivity. Qed.

Lemma printed_strings_flat_map {A : Type} (f : A -> list psline) (l : list A) :
  printed_strings (flat_map f l) = flat_map (fun a => printed_strings (f a)) l.
Proof.
  induction l as [| a l IH]; [reflexivity | ].
  cbn [flat_map]. rewrite printed_strings_app, IH. reflexivity.
Qed.

Lemma printed_strings_none {A : Type} (f : A -> list psline) (l : list A) :
  (forall a, printed_strings (f a) = []) ->
  printed_strings (flat_map f l) = [].
Proof.
  intro H. rewrite printed_strings_flat_map.
  induction l as [| a l IH]; [reflexivity | ]. cbn [flat_map]. rewrite H. exact IH.
Qed.

Lemma printed_strings_lines {A : Type} (f : A -> psline) (l : list A) :
  (forall a, flat_map item_strings (f a) = []) ->
  printed_strings (map f l) = [].
Proof.
  intro H. unfold printed_strings. rewrite flat_map_of_map.
  induction l as [| a l IH]; [reflexivity | ]. cbn [flat_map]. rewrite H. exact IH.
Qed.

Lemma pattern_clues_strings (column : bool) (gridpitch : Q) :
  forall ns xo yo,
    printed_strings (pattern_clues column gridpitch ns xo yo) = ns.
Proof.
  induction ns as [| n ns IH]; intros xo yo; [reflexivity | ].
  cbn [pattern_clues]. destruct column;
    change (printed_strings (?l :: ?r)) with (printed_strings ([l] ++ r));
    rewrite printed_strings_app, IH; reflexivity.
Qed.

(** The strings a pattern fragment shows are the clues of the
    descriptor, none lost and none added: the clue lists in the order of
    the descriptor, each list from its last clue to its first. *)
Theorem pattern_prints_every_clue (fuel : nat) (s : string) (w h : Z)
    (rowdata : list (list string)) (c : coords_t) (frag : list psline) :
  pattern_decode s = Ok (w, h, rowdata) ->
  pattern_format fuel s = Ok (c, frag) ->
  printed_strings frag = flat_map (fun ns => rev ns) rowdata.
Proof.
  intros Hd Hf. pose proof (pattern_decode_length _ _ _ _ Hd) as Hlen.
  unfold pattern_format in Hf. rewrite Hd in Hf. cbn [bind] in Hf.
  unfold pattern_draw in Hf. cbv zeta in Hf.
  destruct (reduce1 Z.max (map len (slice_from rowdata w))) as [xb | e | ];
    cbn [bind] in Hf; try discriminate Hf.
  destruct (reduce1 Z.max (map len (slice_to rowdata w))) as [yb | e | ];
    cbn [bind] in Hf; try discriminate Hf.
  injection Hf as <- <-.
  repeat first [rewrite printed_strings_cons | rewrite printed_strings_app].
  rewrite !printed_strings_lines by reflexivity.
  rewrite !printed_strings_none
    by (intro x; match goal with
                 | |- context [if ?b then _ else _] => destruct b
                 end; reflexivity).
  unfold outline. cbn [flat_map item_strings app].
  rewrite printed_strings_flat_map.
  erewrite flat_map_ext; [ | intro i; apply pattern_clues_strings].
  rewrite <- Hlen.
  exact (flat_map_index_from (fun ns => rev ns) [] rowdata []).
Qed.

Lemma pattern_prints_every_clue_witness :
  exists c frag,
    pattern_format 0 "1x1:1.2/3" = Ok (c, frag)
    /\ printed_strings frag = ["2"; "1"; "3"].
Proof.
  eexists. eexists. split; [reflexivity | ].
  eapply (pattern_prints_every_clue 0 "1x1:1.2/3" 1 1 [["1"; "2"]; ["3"]]);
    reflexivity.
Defined.

(** ** Puzzles on a page do not overlap *)

Lemma fill_page_placing (fuel : nat) (fmt : formatter) (ids : list string)
    (xx yy p : Z) (st : page_state) :
  0 <= xx -> 0 <= yy -> 0 <= p ->
  fill_page fuel fmt ids xx yy p = Ok st ->
  placing fuel fmt ids xx yy p st (yy * xx).
Proof.
  intros Hx Hy Hp Hfill. unfold fill_page in Hfill.
  replace (yy * xx) with ((0 + Z.of_nat (Z.to_nat yy)) * xx) by lia.
  apply (fill_rows_placing fuel fmt ids xx yy p Hx
           (Z.to_nat yy) 0 (new_page xx yy p) st ltac:(lia) ltac:(lia)).
  - unfold placing. cbn [new_page puzzle_index].
    split; [apply new_page_shaped; lia | ].
    split; [apply new_page_nonneg | ].
    split; [lia | ]. split; [left; lia | ].
    intros y' x' Hy' Hx' Hlt. nia.
  - replace (0 + Z.of_nat (Z.to_nat yy)) with yy by lia. exact Hfill.
Qed.

Lemma total_to_mono (l : list (Z * Z)) :
  (forall i, 0 <= fst (index l i (0, 0)) /\ 0 <= snd (index l i (0, 0))) ->
  forall (n : nat) (a : Z),
    0 <= a -> a + Z.of_nat n <= len l ->
    total (slice_to l a) <= total (slice_to l (a + Z.of_nat n)).
Proof.
  intro H. induction n as [| n IH]; intros a Ha Hb.
  - replace (a + Z.of_nat 0) with a by lia. lia.
  - replace (a + Z.of_nat (S n)) with (a + Z.of_nat n + 1) by lia.
    rewrite (total_to_step l (a + Z.of_nat n)) by lia.
    specialize (IH a Ha ltac:(lia)). specialize (H (a + Z.of_nat n)). lia.
Qed.

Lemma total_from_mono (l : list (Z * Z)) :
  (forall i, 0 <= fst (index l i (0, 0)) /\ 0 <= snd (index l i (0, 0))) ->
  forall (n : nat) (a : Z),
    0 <= a -> a + Z.of_nat n <= len l ->
    total (slice_from l (a + Z.of_nat n)) <= total (slice_from l a).
Proof.
  intro H. induction n as [| n IH]; intros a Ha Hb.
  - replace (a + Z.of_nat 0) with a by lia. lia.
  - replace (a + Z.of_nat (S n)) with (a + 1 + Z.of_nat n) by lia.
    specialize (IH (a + 1) ltac:(lia) ltac:(lia)).
    rewrite (total_from_step l a) by lia. specialize (H a). lia.
Qed.

Lemma gutter_nonneg (extent : Q) (bounds : list (Z * Z)) (n : Z) :
  0 <= n -> (ZQ (total bounds) <= extent)%Q -> (0 <= gutter extent bounds n)%Q.
Proof.
  intros Hn H. unfold gutter, Qdiv. apply Qmult_le_0_compat; [lra | ].
  apply Qinv_le_0_compat. unfold ZQ. rewrite <- (Zle_Qle 0). lia.
Qed.

Lemma scaled_le (g : Q) (a b : Z) :
  (0 <= g)%Q -> a <= b -> (g * ZQ a <= g * ZQ b)%Q.
Proof.
  intros Hg Hab. rewrite (Qmult_comm g (ZQ a)), (Qmult_comm g (ZQ b)).
  apply Qmult_le_compat_r; [ | exact Hg]. unfold ZQ. rewrite <- Zle_Qle. exact Hab.
Qed.

Lemma ZQ_le (a b : Z) : a <= b -> (ZQ a <= ZQ b)%Q.
Proof. intro H. unfold ZQ. rewrite <- Zle_Qle. exact H. Qed.

(** Where the positioning lines of a cell put the origin. *)
Lemma cell_origin (xx yy : Z) (st : page_state) (clip : clip_rect) (y x : Z) :
  0 < xx -> 0 < yy ->
  exists ox oy,
    origin_after clip (position_lines xx yy st y x) = Some (ox, oy)
    /\ (ox == llx clip
              + gutter (urx clip - llx clip) (lrbound st) xx * ZQ (x + 1)%Z
              + ZQ (total (slice_to (lrbound st) x)
                    + fst (index (lrbound st) x (0, 0)))%Z)%Q
    /\ (oy == lly clip
              + gutter (ury clip - lly clip) (tbbound st) yy * ZQ (yy - y)%Z
              + ZQ (total (slice_from (tbbound st) (y + 1))
                    + snd (index (tbbound st) y (0, 0)))%Z)%Q.
Proof.
  intros Hx Hy. unfold position_lines. cbn [app].
  rewrite positioning_origin by lia.
  eexists. eexists. split; [reflexivity | ]. split.
  - unfold gutter. field. apply ZQ_neq0. lia.
  - unfold gutter. field. apply ZQ_neq0. lia.
Qed.

(** On a page whose clip rectangle is at least as wide and as high as
    the envelopes add up to, every puzzle of the page has its bounding
    box within the clip rectangle, and the boxes of two puzzles do not
    overlap: one in a column further right begins where the other has
    ended, one in a row further down ends where the other has not
    begun. *)
Theorem puzzles_do_not_overlap (fuel : nat) (fmt : formatter)
    (ids : list string) (xx yy p : Z) (st : page_state) (clip : clip_rect)
    (y1 x1 y2 x2 : Z) :
  0 < xx -> 0 < yy -> 0 <= p ->
  fill_page fuel fmt ids xx yy p = Ok st ->
  (ZQ (total (lrbound st)) <= urx clip - llx clip)%Q ->
  (ZQ (total (tbbound st)) <= ury clip - lly clip)%Q ->
  0 <= y1 < yy -> 0 <= x1 < xx -> p + y1 * xx + x1 < len ids ->
  0 <= y2 < yy -> 0 <= x2 < xx -> p + y2 * xx + x2 < len ids ->
  exists b1 b2,
    puzzle_box fuel fmt ids xx yy p st clip y1 x1 = Some b1
    /\ puzzle_box fuel fmt ids xx yy p st clip y2 x2 = Some b2
    /\ within clip b1 /\ within clip b2
    /\ (x1 < x2 -> (x_max b1 <= x_min b2)%Q)
    /\ (y1 < y2 -> (y_max b2 <= y_min b1)%Q).
Proof.
  intros Hxx Hyy Hp Hfill Hwide Hhigh Hy1 Hx1 Hk1 Hy2 Hx2 Hk2.
  pose proof (fill_page_placing fuel fmt ids xx yy p st
                ltac:(lia) ltac:(lia) Hp Hfill) as (Hs & [Nlr Ntb] & Hle & Hat & Hpl).
  destruct Hs as (_ & _ & Hlr & Htb).
  assert (Hpi : forall y x, 0 <= y < yy -> 0 <= x < xx ->
            p + y * xx + x < len ids -> p + y * xx + x < puzzle_index st).
  { intros y x Hy Hx Hk. destruct Hat as [Hat | Hat]; [rewrite Hat; nia | lia]. }
  destruct (Hpl y1 x1 Hy1 Hx1 (Hpi y1 x1 Hy1 Hx1 Hk1))
    as (c0 & c1 & c2 & c3 & frag1 & Hf1 & _ & C0 & C1 & C2 & C3).
  destruct (Hpl y2 x2 Hy2 Hx2 (Hpi y2 x2 Hy2 Hx2 Hk2))
    as (d0 & d1 & d2 & d3 & frag2 & Hf2 & _ & D0 & D1 & D2 & D3).
  destruct (cell_origin xx yy st clip y1 x1 Hxx Hyy) as (ox1 & oy1 & Ho1 & Ex1 & Ey1).
  destruct (cell_origin xx yy st clip y2 x2 Hxx Hyy) as (ox2 & oy2 & Ho2 & Ex2 & Ey2).
  unfold puzzle_box. rewrite Hf1, Hf2, Ho1, Ho2.
  eexists. eexists. split; [reflexivity | ]. split; [reflexivity | ].
  set (gw := gutter (urx clip - llx clip) (lrbound st) xx) in *.
  set (gh := gutter (ury clip - lly clip) (tbbound st) yy) in *.
  assert (Hgw : (0 <= gw)%Q) by (apply gutter_nonneg; [lia | exact Hwide]).
  assert (Hgh : (0 <= gh)%Q) by (apply gutter_nonneg; [lia | exact Hhigh]).
  pose proof (gutter_eq (urx clip - llx clip) (lrbound st) xx ltac:(lia)) as Egw.
  pose proof (gutter_eq (ury clip - lly clip) (tbbound st) yy ltac:(lia)) as Egh.
  fold gw in Egw. fold gh in Egh.
  (* sums of envelopes to the left and below *)
  assert (Sto : forall x, 0 <= x < xx ->
            0 <= total (slice_to (lrbound st) x)
            /\ total (slice_to (lrbound st) (x + 1)) <= total (lrbound st)
            /\ total (slice_to (lrbound st) (x + 1))
               = total (slice_to (lrbound st) x)
                 + (fst (index (lrbound st) x (0, 0))
                    + snd (index (lrbound st) x (0, 0)))).
  { intros x Hx. split; [ | split].
    - pose proof (total_to_mono (lrbound st) Nlr (Z.to_nat x) 0
                    ltac:(lia) ltac:(lia)) as M.
      rewrite total_to_0 in M. replace (0 + Z.of_nat (Z.to_nat x)) with x in M by lia.
      exact M.
    - pose proof (total_to_mono (lrbound st) Nlr (Z.to_nat (xx - (x + 1))) (x + 1)
                    ltac:(lia) ltac:(lia)) as M.
      replace (x + 1 + Z.of_nat (Z.to_nat (xx - (x + 1)))) with (len (lrbound st)) in M
        by lia.
      rewrite total_to_end in M. exact M.
    - apply total_to_step. lia. }
  assert (Sfrom : forall y, 0 <= y < yy ->
            0 <= total (slice_from (tbbound st) (y + 1))
            /\ total (slice_from (tbbound st) y) <= total (tbbound st)
            /\ total (slice_from (tbbound st) y)
               = fst (index (tbbound st) y (0, 0))
                 + snd (index (tbbound st) y (0, 0))
                 + total (slice_from (tbbound st) (y + 1))).
  { intros y Hy. split; [ | split].
    - pose proof (total_from_mono (tbbound st) Ntb (Z.to_nat (yy - (y + 1))) (y + 1)
                    ltac:(lia) ltac:(lia)) as M.
      replace (y + 1 + Z.of_nat (Z.to_nat (yy - (y + 1)))) with (len (tbbound st)) in M
        by lia.
      rewrite total_from_end in M. exact M.
    - pose proof (total_from_mono (tbbound st) Ntb (Z.to_nat y) 0
                    ltac:(lia) ltac:(lia)) as M.
      rewrite total_from_0 in M. replace (0 + Z.of_nat (Z.to_nat y)) with y in M by lia.
      exact M.
    - apply total_from_step. lia. }
  assert (Hin : forall y x c0 c1 c2 c3 ox oy,
            0 <= y < yy -> 0 <= x < xx ->
            Z.max 0 c0 <= fst (index (lrbound st) x (0, 0)) ->
            Z.max 0 c1 <= snd (index (lrbound st) x (0, 0)) ->
            Z.max 0 c2 <= fst (index (tbbound st) y (0, 0)) ->
            Z.max 0 c3 <= snd (index (tbbound st) y (0, 0)) ->
            (ox == llx clip + gw * ZQ (x + 1)%Z
                   + ZQ (total (slice_to (lrbound st) x)
                         + fst (index (lrbound st) x (0, 0)))%Z)%Q ->
            (oy == lly clip + gh * ZQ (yy - y)%Z
                   + ZQ (total (slice_from (tbbound st) (y + 1))
                         + snd (index (tbbound st) y (0, 0)))%Z)%Q ->
            within clip (Box (ox - ZQ c0) (ox + ZQ c1) (oy - ZQ c3) (oy + ZQ c2))).
  { intros y x e0 e1 e2 e3 ox oy Hy Hx B0 B1 B2 B3 Ex Ey.
    destruct (Sto x Hx) as (S1 & S2 & S3). destruct (Sfrom y Hy) as (T1 & T2 & T3).
    pose proof (scaled_le gw 0 (x + 1) Hgw ltac:(lia)) as G1.
    pose proof (scaled_le gw (x + 1) (xx + 1) Hgw ltac:(lia)) as G2.
    pose proof (scaled_le gh 0 (yy - y) Hgh ltac:(lia)) as G3.
    pose proof (scaled_le gh (yy - y) (yy + 1) Hgh ltac:(lia)) as G4.
    pose proof (ZQ_le _ _ S1) as QS1. pose proof (ZQ_le _ _ S2) as QS2.
    pose proof (ZQ_le _ _ T1) as QT1. pose proof (ZQ_le _ _ T2) as QT2.
    pose proof (ZQ_le _ _ (Z.le_trans _ _ _ (Z.le_max_r 0 e0) B0)) as Q0.
    pose proof (ZQ_le _ _ (Z.le_trans _ _ _ (Z.le_max_r 0 e1) B1)) as Q1.
    pose proof (ZQ_le _ _ (Z.le_trans _ _ _ (Z.le_max_r 0 e2) B2)) as Q2.
    pose proof (ZQ_le _ _ (Z.le_trans _ _ _ (Z.le_max_r 0 e3) B3)) as Q3.
    rewrite S3 in QS2. rewrite T3 in QT2.
    unfold within. cbn [x_min x_max y_min y_max].
    rewrite Ex, Ey. revert G1 G2 G3 G4 QS1 QS2 QT1 QT2 Q0 Q1 Q2 Q3 Egw Egh.
    generalize gw gh. intros g g'. push_ZQ. intros. repeat split; lra. }
  split; [exact (Hin y1 x1 c0 c1 c2 c3 ox1 oy1 Hy1 Hx1 C0 C1 C2 C3 Ex1 Ey1) | ].
  split; [exact (Hin y2 x2 d0 d1 d2 d3 ox2 oy2 Hy2 Hx2 D0 D1 D2 D3 Ex2 Ey2) | ].
  cbn [x_min x_max y_min y_max]. split.
  - intro Hlt.
    destruct (Sto x1 Hx1) as (_ & _ & S3).
    pose proof (total_to_mono (lrbound st) Nlr (Z.to_nat (x2 - (x1 + 1))) (x1 + 1)
                  ltac:(lia) ltac:(lia)) as M.
    replace (x1 + 1 + Z.of_nat (Z.to_nat (x2 - (x1 + 1)))) with x2 in M by lia.
    rewrite S3 in M.
    pose proof (scaled_le gw (x1 + 1) (x2 + 1) Hgw ltac:(lia)) as G.
    pose proof (ZQ_le _ _ M) as QM.
    pose proof (ZQ_le _ _ (Z.le_trans _ _ _ (Z.le_max_r 0 c1) C1)) as Q1.
    pose proof (ZQ_le _ _ (Z.le_trans _ _ _ (Z.le_max_r 0 d0) D0)) as Q0.
    rewrite Ex1, Ex2. revert G QM Q1 Q0. generalize gw. intro g.
    push_ZQ. intros. lra.
  - intro Hlt.
    destruct (Sfrom y2 Hy2) as (_ & _ & T3).
    pose proof (total_from_mono (tbbound st) Ntb (Z.to_nat (y2 - (y1 + 1))) (y1 + 1)
                  ltac:(lia) ltac:(lia)) as M.
    replace (y1 + 1 + Z.of_nat (Z.to_nat (y2 - (y1 + 1)))) with y2 in M by lia.
    rewrite T3 in M.
    pose proof (scaled_le gh (yy - y2) (yy - y1) Hgh ltac:(lia)) as G.
    pose proof (ZQ_le _ _ M) as QM.
    pose proof (ZQ_le _ _ (Z.le_trans _ _ _ (Z.le_max_r 0 d2) D2)) as Q2.
    pose proof (ZQ_le _ _ (Z.le_trans _ _ _ (Z.le_max_r 0 c3) C3)) as Q3.
    rewrite Ey1, Ey2. revert G QM Q2 Q3. generalize gh. intro g.
    push_ZQ. intros. lra.
Qed.

Lemma puzzles_do_not_overlap_witness :
  exists st b1 b2,
    fill_page 3 rect_format ["2x1:b"; "1x1:a"] 2 1 0 = Ok st
    /\ puzzle_box 3 rect_format ["2x1:b"; "1x1:a"] 2 1 0 st
         (Clip 0 0 595 842) 0 0 = Some b1
    /\ puzzle_box 3 rect_format ["2x1:b"; "1x1:a"] 2 1 0 st
         (Clip 0 0 595 842) 0 1 = Some b2
    /\ (x_max b1 <= x_min b2)%Q.
Proof.
  eexists.
  destruct (puzzles_do_not_overlap 3 rect_format ["2x1:b"; "1x1:a"] 2 1 0
              _ (Clip 0 0 595 842) 0 0 0 1
              ltac:(lia) ltac:(lia) ltac:(lia) eq_refl
              ltac:(vm_compute; discriminate) ltac:(vm_compute; discriminate)
              ltac:(lia) ltac:(lia) ltac:(vm_compute; reflexivity)
              ltac:(lia) ltac:(lia) ltac:(vm_compute; reflexivity))
    as (b1 & b2 & H1 & H2 & _ & _ & Hx & _).
  exists b1, b2. split; [reflexivity | ]. split; [exact H1 | ].
  split; [exact H2 | ]. apply Hx. lia.
Defined.

(** * What the renderers draw *)

(** ** Marks of the cells *)
















(** ** The tiles of net *)

(** [v & 2^k] is not zero exactly when bit [k] of [v] is set. *)
Lemma has_bit_testbit (v : Z) (k : Z) :
  0 <= k -> has_bit v (2 ^ k) = Z.testbit v k.
Proof.
  intro Hk. unfold has_bit. destruct (Z.testbit v k) eqn:E.
  - destruct (Z.eqb_spec (Z.land v (2 ^ k)) 0) as [H0 | _]; [ | reflexivity].
    apply (f_equal (fun z => Z.testbit z k)) in H0.
    rewrite Z.land_spec, E, Z.pow2_bits_true, Z.bits_0 in H0 by exact Hk.
    discriminate H0.
  - destruct (Z.eqb_spec (Z.land v (2 ^ k)) 0) as [_ | Hn]; [reflexivity | ].
    exfalso. apply Hn. apply Z.bits_inj'. intros n Hn'.
    rewrite Z.land_spec, Z.bits_0, Z.pow2_bits_eqb by exact Hk.
    destruct (Z.eqb_spec k n) as [<- | _].
    + rewrite E. reflexivity.
    + apply andb_false_r.
Qed.

Lemma has_bits (v : Z) :
  has_bit v 1 = Z.testbit v 0 /\ has_bit v 2 = Z.testbit v 1
  /\ has_bit v 4 = Z.testbit v 2 /\ has_bit v 8 = Z.testbit v 3.
Proof.
  repeat split.
  - exact (has_bit_testbit v 0 ltac:(lia)).
  - exact (has_bit_testbit v 1 ltac:(lia)).
  - exact (has_bit_testbit v 2 ltac:(lia)).
  - exact (has_bit_testbit v 3 ltac:(lia)).
Qed.

(** The radial lines of a tile are the arms of the canonical form of its
    code. *)
Lemma net_symbol_arms (w h : Z) (grid : list Z) (i : Z) :
  printed_integers (net_symbol w h grid i)
  = arms (canonical_form (index grid i 0)).
Proof.
  unfold net_symbol, arms. cbv zeta.
  destruct (has_bits (canonical_form (index grid i 0))) as (<- & <- & <- & <-).
  cbn [flat_map].
  destruct (has_bit (canonical_form (index grid i 0)) 1),
    (has_bit (canonical_form (index grid i 0)) 2),
    (has_bit (canonical_form (index grid i 0)) 4),
    (has_bit (canonical_form (index grid i 0)) 8),
    (canonical_form (index grid i 0) =? 1); reflexivity.
Qed.

(** What a tile paints: its arms, and the two squares of an end point. *)
Lemma net_symbol_paint (w h : Z) (grid : list Z) (i : Z) (lw : Q)
    (sv : list (Q * list seg)) :
  paint_lines (net_symbol w h grid i) (GState lw [] sv)
  = (GState lw [] sv,
     repeat Deco (tile_marks (canonical_form (index grid i 0)))).
Proof.
  unfold net_symbol, tile_marks, arms. cbv zeta.
  destruct (has_bits (canonical_form (index grid i 0))) as (<- & <- & <- & <-).
  cbn [flat_map].
  destruct (has_bit (canonical_form (index grid i 0)) 1),
    (has_bit (canonical_form (index grid i 0)) 2),
    (has_bit (canonical_form (index grid i 0)) 4),
    (has_bit (canonical_form (index grid i 0)) 8),
    (canonical_form (index grid i 0) =? 1); reflexivity.
Qed.


Lemma flat_map_index_all {A B : Type} (k : A -> list B) (d : A) (l : list A) :
  flat_map (fun i => k (index l i d)) (xrange 0 (len l)) = flat_map k l.
Proof. exact (flat_map_index_from k d l []). Qed.



Lemma net_format_draws (fuel : nat) (s : string) (c : coords_t)
    (frag : list psline) :
  net_format fuel s = Ok (c, frag) ->
  exists g, net_decode fuel s = Ok g /\ (c, frag) = net_draw g.
Proof.
  unfold net_format. intro H.
  destruct (net_decode fuel s) as [g | e | ]; cbn [bind] in H;
    try discriminate H.
  exists g. split; [reflexivity | congruence].
Qed.

Lemma printed_integers_none {A : Type} (f : A -> psline) (l : list A) :
  (forall x, flat_map item_integers (f x) = []) ->
  printed_integers (map f l) = [].
Proof.
  intro H. unfold printed_integers.
  induction l as [| a l IH]; [reflexivity | ]. cbn [map flat_map].
  rewrite H. exact IH.
Qed.

Lemma net_draw_arms (g : net_grid) :
  printed_integers (snd (net_draw g))
  = flat_map (fun v => arms (canonical_form v)) (net_cells g).
Proof.
  unfold net_draw. cbv zeta. cbn [snd].
  rewrite !printed_integers_app.
  rewrite !printed_integers_none by (try intros [x y]; reflexivity).
  rewrite printed_integers_flat_map.
  erewrite flat_map_ext by (intro i; apply net_symbol_arms).
  rewrite (flat_map_index_all (fun v => arms (canonical_form v)) 0
             (net_cells g)).
  destruct (net_wrapping g); reflexivity.
Qed.

(** C6.  The codes [1, 2, 4, 8] go to [1], [5, 10] to [5],
    [3, 6, 9, 12] to [9] and [7, 11, 13, 14] to [13]; the four canonical
    codes stay as they are, and taking the canonical form twice is
    taking it once.  The renderer draws each tile from the canonical
    form of its code and from nothing else of the code: the radial lines
    of a tile are the arms of the canonical form, the tile paints the
    marks of the canonical form (so the four end points all get their
    two squares), two codes of the same canonical form give the same
    lines, and the radial lines of a whole fragment are the arms of the
    canonical forms of the decoded cells, in the order of the cells.  So
    the tile of code [2], whose arm points upwards, is drawn with the
    arm of code [1], to the right. *)
Theorem canonical_form_spec :
  map canonical_form [1; 2; 4; 8] = [1; 1; 1; 1]
  /\ map canonical_form [5; 10] = [5; 5]
  /\ map canonical_form [3; 6; 9; 12] = [9; 9; 9; 9]
  /\ map canonical_form [7; 11; 13; 14] = [13; 13; 13; 13]
  /\ map canonical_form [1; 5; 9; 13] = [1; 5; 9; 13]
  /\ (forall v, canonical_form (canonical_form v) = canonical_form v)
  /\ (forall w h grid i,
        net_symbol w h (map canonical_form grid) i = net_symbol w h grid i)
  /\ (forall w h grid i,
        printed_integers (net_symbol w h grid i)
        = arms (canonical_form (index grid i 0)))
  /\ (forall w h grid i,
        trace (net_symbol w h grid i)
        = repeat Deco (tile_marks (canonical_form (index grid i 0))))
  /\ (forall w h g1 g2 i,
        canonical_form (index g1 i 0) = canonical_form (index g2 i 0) ->
        net_symbol w h g1 i = net_symbol w h g2 i)
  /\ (forall fuel s c frag,
        net_format fuel s = Ok (c, frag) ->
        exists g,
          net_decode fuel s = Ok g
          /\ printed_integers frag
             = flat_map (fun v => arms (canonical_form v)) (net_cells g))
  /\ arms 2 = [0; 1]
  /\ printed_integers (net_symbol 1 1 [2] 0) = [1; 0].
Proof.
  repeat split; try reflexivity.
  - apply canonical_form_idem.
  - apply net_symbol_canonical.
  - apply net_symbol_arms.
  - intros w h grid i. unfold trace. rewrite net_symbol_paint. reflexivity.
  - intros w h g1 g2 i E. unfold net_symbol. rewrite E. reflexivity.
  - intros fuel s c frag H.
    destruct (net_format_draws fuel s c frag H) as (g & Hg & E).
    exists g. split; [exact Hg | ].
    change frag with (snd (c, frag)). rewrite E. apply net_draw_arms.
Qed.

Lemma canonical_form_spec_witness :
  net_symbol 2 1 [2; 10] 0 = net_symbol 2 1 [8; 5] 0
  /\ exists g,
       net_decode 3 "2x1:2a" = Ok g
       /\ [1; 0; 1; 0; -1; 0]
          = flat_map (fun v => arms (canonical_form v)) (net_cells g).
Proof.
  destruct canonical_form_spec as (_ & _ & _ & _ & _ & _ & _ & _ & _ & Hsame & Hfmt & _).
  split.
  - apply Hsame. reflexivity.
  - exact (Hfmt 3%nat "2x1:2a" _ _ eq_refl).
Defined.

(** ** The order of the drawing *)



